(** * Ordered module/lesson hierarchy: reorder, bulk replace, snapshots, feed

    A shallow embedding of the course manager (CourseManager, ModuleCard,
    ImportDialog, SnapshotManager) and of the courses-api edge function.
    The relational store is a pair of tables threaded through a small
    state-and-exception monad; React state is passed explicitly to each
    handler, which returns the next state. *)

From stdpp Require Import base list strings pretty.
From Stdlib Require Import ZArith Lia Permutation Sorted.

Local Open Scope string_scope.
Local Open Scope list_scope.
Local Open Scope Z_scope.

(** ** JavaScript array primitives *)

(** [Array.prototype.findIndex]: index of the first element satisfying
    the predicate, [-1] when there is none. *)
Fixpoint findIndex {A} (p : A → bool) (l : list A) : Z :=
  match l with
  | [] => -1
  | x :: rest =>
      if p x then 0
      else let i := findIndex p rest in
           if i <? 0 then -1 else i + 1
  end.

(** [Array.prototype.splice(start, deleteCount, ...items)]: the pair of
    the removed elements and the array after the mutation. A negative
    [start] counts from the end; both arguments are clamped. *)
Definition splice {A} (arr : list A) (start deleteCount : Z) (items : list A)
    : list A * list A :=
  let len := Z.of_nat (length arr) in
  let actualStart :=
    if start <? 0 then Z.max (len + start) 0 else Z.min start len in
  let actualDeleteCount := Z.min (Z.max deleteCount 0) (len - actualStart) in
  let s := Z.to_nat actualStart in
  let d := Z.to_nat actualDeleteCount in
  (take d (drop s arr), take s arr ++ items ++ drop (s + d) arr).

(** [arrayMove] of @dnd-kit/sortable:
<<
    const newArray = array.slice();
    newArray.splice(to < 0 ? newArray.length + to : to, 0,
                    newArray.splice(from, 1)[0]);
    return newArray;
>>
    The first argument of the outer [splice] is evaluated before the inner
    [splice] runs, so it sees the length before the removal. An element of
    the result is [None] when it is JavaScript's [undefined], which is what
    [removed[0]] is when nothing was removed. *)
Definition arrayMove {A} (array : list A) (from to : Z) : list (option A) :=
  let newArray := Some <$> array in
  let start := if to <? 0 then Z.of_nat (length newArray) + to else to in
  let '(removed, newArray1) := splice newArray from 1 [] in
  snd (splice newArray1 start 0 [mjoin (removed !! 0%nat)]).

(** An array all of whose elements are defined. *)
Fixpoint all_defined {A} (l : list (option A)) : option (list A) :=
  match l with
  | [] => Some []
  | None :: _ => None
  | Some x :: rest => cons x <$> all_defined rest
  end.

(** JavaScript truthiness of a value that is a string, [null] or
    [undefined]. *)
Definition truthy (v : option string) : bool :=
  match v with
  | Some s => negb (String.eqb s "")
  | None => false
  end.

(** [v || ''] on such a value. *)
Definition or_empty (v : option string) : string :=
  match v with
  | Some s => s
  | None => ""
  end.

(** [String.prototype.trim] leaves the empty string exactly on strings made
    of white space only (the ASCII white space characters here). *)
Definition is_space (c : Ascii.ascii) : bool :=
  let n := Ascii.nat_of_ascii c in
  ((9 <=? n) && (n <=? 13))%nat || (n =? 32)%nat.

Fixpoint is_blank (s : string) : bool :=
  match s with
  | EmptyString => true
  | String c rest => is_space c && is_blank rest
  end.

(** ** Data model *)

(** [interface Lesson]; also a row of table [lessons], whose column
    [video_iframe] is nullable. *)
Record Lesson := mkLesson {
  l_id : string;
  l_title : string;
  l_video_iframe : option string;
  l_position : Z;
  l_module_id : string;
}.

(** [interface Module]: a module with its lessons nested. *)
Record CModule := mkModule {
  m_id : string;
  m_name : string;
  m_position : Z;
  m_lessons : list Lesson;
}.

(** A row of table [modules]. *)
Record ModuleRow := mkModuleRow {
  r_id : string;
  r_name : string;
  r_position : Z;
}.

(** The shape persisted in a snapshot: identities are left out. *)
Record SnapLesson := mkSnapLesson {
  sl_title : string;
  sl_video_iframe : option string;
  sl_position : Z;
}.

Record SnapModule := mkSnapModule {
  sm_name : string;
  sm_position : Z;
  sm_lessons : option (list SnapLesson);
}.

Record SnapshotData := mkSnapshotData {
  sd_modules : option (list SnapModule);
}.

(** [interface Snapshot], a row of table [snapshots]. *)
Record Snapshot := mkSnapshot {
  s_id : string;
  s_name : string;
  s_data : SnapshotData;
}.

(** [interface ImportItem], also the record of the export file and of the
    read feed. *)
Record ImportItem := mkImportItem {
  module : string;
  title : string;
  videoIframe : option string;
  url : option string;
}.

(** An element of a parsed JSON array before validation: any field may be
    missing or [null]. *)
Record RawItem := mkRawItem {
  raw_module : option string;
  raw_title : option string;
  raw_videoIframe : option string;
  raw_url : option string;
}.

(** The result of [JSON.parse] as far as the import dialog looks at it. An
    array element is [None] when it is [null], on which a property access
    throws. *)
Inductive Parsed :=
  | NotAnArray
  | AnArray (items : list (option RawItem)).

Global Instance Lesson_eq_dec : EqDecision Lesson.
Proof. solve_decision. Defined.
Global Instance CModule_eq_dec : EqDecision CModule.
Proof. solve_decision. Defined.
Global Instance ModuleRow_eq_dec : EqDecision ModuleRow.
Proof. solve_decision. Defined.
Global Instance ImportItem_eq_dec : EqDecision ImportItem.
Proof. solve_decision. Defined.

(** ** The store *)

Record Db := mkDb {
  tbl_modules : list ModuleRow;
  tbl_lessons : list Lesson;
  tbl_snapshots : list Snapshot;
}.

(** [gen_random_uuid()]: the n-th identity the store hands out. *)
Definition uuid (n : nat) : string := "uuid-" +:+ pretty n.

Definition SENTINEL : string := "00000000-0000-0000-0000-000000000000".

(** The filter of a delete or update: [.eq('id', v)] or [.neq('id', v)]. *)
Inductive IdFilter :=
  | IdEq (v : string)
  | IdNeq (v : string).

Definition matches (f : IdFilter) (id : string) : bool :=
  match f with
  | IdEq v => String.eqb id v
  | IdNeq v => negb (String.eqb id v)
  end.

(** A row of a lessons insert. *)
Record LessonInsert := mkLessonInsert {
  li_title : string;
  li_video_iframe : option string;
  li_position : Z;
  li_module_id : string;
}.

Inductive Request :=
  | SelectModules
  | InsertModule (name : string) (position : Z)
  | InsertLessons (rows : list LessonInsert)
  | UpdateModulePosition (position : Z) (f : IdFilter)
  | UpdateLessonPosition (position : Z) (f : IdFilter)
  | DeleteModules (f : IdFilter)
  | DeleteLessons (f : IdFilter)
  | InsertSnapshot (name : string) (data : SnapshotData).

Record Toast := mkToast {
  toast_title : string;
  toast_description : string;
  toast_destructive : bool;
}.

(** The world a handler runs in: the store, the counter behind
    [gen_random_uuid], the requests issued so far, the notifications shown,
    and for each coming request whether the store answers it with an error
    ([true]); past the end of that list every request is served. *)
Record World := mkWorld {
  db : Db;
  next_uuid : nat;
  faults : list bool;
  log : list Request;
  toasts : list Toast;
}.

(** ** A monad for handlers: state and exceptions *)

Inductive result (A : Type) :=
  | Ok (a : A)
  | Throw (message : string).
Arguments Ok {A} a.
Arguments Throw {A} message.

Definition M (A : Type) : Type := World → result A * World.

Definition ret {A} (a : A) : M A := λ w, (Ok a, w).

Definition throw {A} (message : string) : M A := λ w, (Throw message, w).

Definition bind {A B} (m : M A) (k : A → M B) : M B := λ w,
  match m w with
  | (Ok a, w') => k a w'
  | (Throw e, w') => (Throw e, w')
  end.

(** [try { body } catch (error) { handler }] *)
Definition try_catch {A} (body : M A) (handler : string → M A) : M A := λ w,
  match body w with
  | (Ok a, w') => (Ok a, w')
  | (Throw e, w') => handler e w'
  end.

Notation "'let*' x ':=' m 'in' k" := (bind m (λ x, k))
  (at level 10, x name, m at level 100, k at level 200).
Notation "'run' m 'in' k" := (bind m (λ _, k))
  (at level 10, m at level 100, k at level 200).

Definition toast (t : Toast) : M unit := λ w,
  (Ok tt, mkWorld (db w) (next_uuid w) (faults w) (log w) (toasts w ++ [t])).

(** ** Store primitives *)

(** [ORDER BY position]: a stable insertion sort on an integer key. (The
    store leaves the order of rows with equal keys open; the model keeps
    table order among them.) *)
Fixpoint insert_by {A} (key : A → Z) (x : A) (l : list A) : list A :=
  match l with
  | [] => [x]
  | y :: rest =>
      if key x <=? key y then x :: y :: rest
      else y :: insert_by key x rest
  end.

Fixpoint sort_by {A} (key : A → Z) (l : list A) : list A :=
  match l with
  | [] => []
  | x :: rest => insert_by key x (sort_by key rest)
  end.

Definition lessons_of (d : Db) (mid : string) : list Lesson :=
  filter (λ l, l_module_id l = mid) (tbl_lessons d).

(** [from('modules').select(`id, name, position, lessons (...)`)
      .order('position').order('position', { referencedTable: 'lessons' })] *)
Definition select_nested (d : Db) : list CModule :=
  (λ r, mkModule (r_id r) (r_name r) (r_position r)
          (sort_by l_position (lessons_of d (r_id r))))
  <$> sort_by r_position (tbl_modules d).

Definition module_ids (d : Db) : list string := r_id <$> tbl_modules d.

(** [insert([{name, position}]).select().single()] *)
Definition insert_module (name : string) (position : Z) (d : Db) (n : nat)
    : result ModuleRow * (Db * nat) :=
  let row := mkModuleRow (uuid n) name position in
  (Ok row,
   (mkDb (tbl_modules d ++ [row]) (tbl_lessons d) (tbl_snapshots d), S n)).

Definition new_lesson (n : nat) (i : nat) (r : LessonInsert) : Lesson :=
  mkLesson (uuid (n + i)) (li_title r) (li_video_iframe r) (li_position r)
    (li_module_id r).

(** [from('lessons').insert(rows)]: one statement; [module_id] references
    [modules(id)], so the whole insert is refused when a row names a
    module that is not there. *)
Definition insert_lessons (rows : list LessonInsert) (d : Db) (n : nat)
    : result (list Lesson) * (Db * nat) :=
  if forallb (λ r, bool_decide (li_module_id r ∈ module_ids d)) rows then
    let created := imap (new_lesson n) rows in
    (Ok created,
     (mkDb (tbl_modules d) (tbl_lessons d ++ created) (tbl_snapshots d),
      (n + length rows)%nat))
  else (Throw "insert or update on table lessons violates foreign key constraint", (d, n)).

Definition set_module_position (position : Z) (r : ModuleRow) : ModuleRow :=
  mkModuleRow (r_id r) (r_name r) position.

Definition set_lesson_position (position : Z) (l : Lesson) : Lesson :=
  mkLesson (l_id l) (l_title l) (l_video_iframe l) position (l_module_id l).

(** [from('modules').update({ position }).eq('id', id)] *)
Definition update_module_position (position : Z) (f : IdFilter) (d : Db)
    (n : nat) : result unit * (Db * nat) :=
  (Ok tt,
   (mkDb ((λ r, if matches f (r_id r) then set_module_position position r
                else r) <$> tbl_modules d)
      (tbl_lessons d) (tbl_snapshots d), n)).

Definition update_lesson_position (position : Z) (f : IdFilter) (d : Db)
    (n : nat) : result unit * (Db * nat) :=
  (Ok tt,
   (mkDb (tbl_modules d)
      ((λ l, if matches f (l_id l) then set_lesson_position position l
             else l) <$> tbl_lessons d)
      (tbl_snapshots d), n)).

(** [from('modules').delete()] with a filter; [ON DELETE CASCADE] removes
    the lessons of every deleted module. *)
Definition delete_modules (f : IdFilter) (d : Db) (n : nat)
    : result unit * (Db * nat) :=
  let gone := filter (λ r, matches f (r_id r) = true) (tbl_modules d) in
  (Ok tt,
   (mkDb (filter (λ r, matches f (r_id r) = false) (tbl_modules d))
      (filter (λ l, l_module_id l ∉ (r_id <$> gone)) (tbl_lessons d))
      (tbl_snapshots d), n)).

Definition delete_lessons (f : IdFilter) (d : Db) (n : nat)
    : result unit * (Db * nat) :=
  (Ok tt,
   (mkDb (tbl_modules d)
      (filter (λ l, matches f (l_id l) = false) (tbl_lessons d))
      (tbl_snapshots d), n)).

Definition insert_snapshot (name : string) (data : SnapshotData) (d : Db)
    (n : nat) : result Snapshot * (Db * nat) :=
  let row := mkSnapshot (uuid n) name data in
  (Ok row, (mkDb (tbl_modules d) (tbl_lessons d) (row :: tbl_snapshots d), S n)).

Definition STORE_ERROR : string := "FetchError: request failed".

(** One awaited call on the client: the request is recorded, then either
    the store answers with an error and nothing changes, or it executes. *)
Definition request {A} (r : Request)
    (exec : Db → nat → result A * (Db * nat)) : M A := λ w,
  let fs := tail (faults w) in
  let lg := log w ++ [r] in
  if default false (head (faults w)) then
    (Throw STORE_ERROR, mkWorld (db w) (next_uuid w) fs lg (toasts w))
  else
    let '(res, (d, n)) := exec (db w) (next_uuid w) in
    (res, mkWorld d n fs lg (toasts w)).

Definition api_select_modules : M (list CModule) :=
  request SelectModules (λ d n, (Ok (select_nested d), (d, n))).

Definition api_insert_module (name : string) (position : Z) : M ModuleRow :=
  request (InsertModule name position) (insert_module name position).

Definition api_insert_lessons (rows : list LessonInsert) : M (list Lesson) :=
  request (InsertLessons rows) (insert_lessons rows).

Definition api_update_module_position (position : Z) (f : IdFilter) : M unit :=
  request (UpdateModulePosition position f) (update_module_position position f).

Definition api_update_lesson_position (position : Z) (f : IdFilter) : M unit :=
  request (UpdateLessonPosition position f) (update_lesson_position position f).

Definition api_delete_modules (f : IdFilter) : M unit :=
  request (DeleteModules f) (delete_modules f).

Definition api_delete_lessons (f : IdFilter) : M unit :=
  request (DeleteLessons f) (delete_lessons f).

Definition api_insert_snapshot (name : string) (data : SnapshotData)
    : M Snapshot :=
  request (InsertSnapshot name data) (insert_snapshot name data).

(** ** CourseManager *)

Definition toast_success (description : string) : Toast :=
  mkToast "Success" description false.

Definition toast_error (description : string) : Toast :=
  mkToast "Error" description true.

(** [setState(array)] followed by the render it triggers: the render maps
    over the array reading [.id] of every element, so an array holding
    [undefined] makes the component throw. *)
Definition set_state {A} (l : list (option A)) : M (list A) :=
  match all_defined l with
  | Some l' => ret l'
  | None => throw "TypeError: Cannot read properties of undefined (reading 'id')"
  end.

Definition fetchModules (modules : list CModule) : M (list CModule) :=
  try_catch
    (let* data := api_select_modules in
     ret data)
    (λ _, run toast (toast_error "Failed to fetch modules") in
          ret modules).

Definition addModule (newModuleName : string) (modules : list CModule)
    : M (list CModule) :=
  if is_blank newModuleName then ret modules
  else
    try_catch
      (let* data := api_insert_module newModuleName
                      (Z.of_nat (length modules)) in
       run toast (toast_success "Module added successfully") in
       ret (modules ++ [mkModule (r_id data) (r_name data) (r_position data) []]))
      (λ _, run toast (toast_error "Failed to add module") in
            ret modules).

Fixpoint updateModulePositions_loop (i : Z) (newModules : list (option CModule))
    : M unit :=
  match newModules with
  | [] => ret tt
  | m :: rest =>
      let* id := match m with
                 | Some m => ret (m_id m)
                 | None => throw "TypeError: Cannot read properties of undefined (reading 'id')"
                 end in
      run api_update_module_position i (IdEq id) in
      updateModulePositions_loop (i + 1) rest
  end.

Definition updateModulePositions (newModules : list (option CModule)) : M unit :=
  try_catch
    (updateModulePositions_loop 0 newModules)
    (λ _, toast (toast_error "Failed to update module order")).

Record DragEndEvent := mkDragEndEvent {
  active_id : string;
  over_id : option string;
}.

(** The value returned is the next [modules] state. The source calls
    [setModules(newModules)] before it awaits [updateModulePositions]; the
    two act on different things (the screen, the store), so the model runs
    the writes first and ends with the state. *)
Definition handleDragEnd (event : DragEndEvent) (modules : list CModule)
    : M (list CModule) :=
  match over_id event with
  | None => ret modules
  | Some overId =>
      let activeId := active_id event in
      if String.eqb activeId overId then ret modules
      else if String.prefix "module-" activeId && String.prefix "module-" overId then
        let oldIndex :=
          findIndex (λ m, String.eqb ("module-" +:+ m_id m) activeId) modules in
        let newIndex :=
          findIndex (λ m, String.eqb ("module-" +:+ m_id m) overId) modules in
        let newModules := arrayMove modules oldIndex newIndex in
        run updateModulePositions newModules in
        set_state newModules
      else ret modules
  end.

Definition updateModule (moduleId : string) (updatedModule : CModule)
    (modules : list CModule) : list CModule :=
  (λ m, if String.eqb (m_id m) moduleId then updatedModule else m) <$> modules.

Definition deleteModule (moduleId : string) (modules : list CModule)
    : M (list CModule) :=
  try_catch
    (run api_delete_modules (IdEq moduleId) in
     run toast (toast_success "Module deleted successfully") in
     ret (filter (λ m, m_id m ≠ moduleId) modules))
    (λ _, run toast (toast_error "Failed to delete module") in
          ret modules).

Definition exportData (modules : list CModule) : list ImportItem :=
  m ← modules;
  (λ lesson, mkImportItem (m_name m) (l_title lesson) (l_video_iframe lesson) None)
    <$> m_lessons m.

(** ** ModuleCard *)

Definition with_lessons (m : CModule) (lessons : list Lesson) : CModule :=
  mkModule (m_id m) (m_name m) (m_position m) lessons.

Definition addLesson (newLessonTitle newLessonIframe : string) (m : CModule)
    (modules : list CModule) : M (list CModule) :=
  if is_blank newLessonTitle then ret modules
  else
    try_catch
      (let* data := api_insert_lessons
                      [mkLessonInsert newLessonTitle (Some newLessonIframe)
                         (Z.of_nat (length (m_lessons m))) (m_id m)] in
       match data with
       | [created] =>
           run toast (toast_success "Lesson added successfully") in
           ret (updateModule (m_id m) (with_lessons m (m_lessons m ++ [created]))
                  modules)
       | _ => throw "JSON object requested, multiple (or no) rows returned"
       end)
      (λ _, run toast (toast_error "Failed to add lesson") in
            ret modules).

Fixpoint updateLessonPositions_loop (i : Z) (newLessons : list (option Lesson))
    : M unit :=
  match newLessons with
  | [] => ret tt
  | l :: rest =>
      let* id := match l with
                 | Some l => ret (l_id l)
                 | None => throw "TypeError: Cannot read properties of undefined (reading 'id')"
                 end in
      run api_update_lesson_position i (IdEq id) in
      updateLessonPositions_loop (i + 1) rest
  end.

Definition updateLessonPositions (newLessons : list (option Lesson)) : M unit :=
  try_catch
    (updateLessonPositions_loop 0 newLessons)
    (λ _, toast (toast_error "Failed to update lesson order")).

Definition handleLessonDragEnd (event : DragEndEvent) (m : CModule)
    (modules : list CModule) : M (list CModule) :=
  match over_id event with
  | None => ret modules
  | Some overId =>
      let activeId := active_id event in
      if String.eqb activeId overId then ret modules
      else if String.prefix "lesson-" activeId && String.prefix "lesson-" overId then
        let oldIndex :=
          findIndex (λ l, String.eqb ("lesson-" +:+ l_id l) activeId) (m_lessons m) in
        let newIndex :=
          findIndex (λ l, String.eqb ("lesson-" +:+ l_id l) overId) (m_lessons m) in
        let newLessons := arrayMove (m_lessons m) oldIndex newIndex in
        run updateLessonPositions newLessons in
        let* lessons := set_state newLessons in
        ret (updateModule (m_id m) (with_lessons m lessons) modules)
      else ret modules
  end.

Definition deleteLesson (lessonId : string) (m : CModule)
    (modules : list CModule) : M (list CModule) :=
  try_catch
    (run api_delete_lessons (IdEq lessonId) in
     run toast (toast_success "Lesson deleted successfully") in
     let updatedLessons := filter (λ l, l_id l ≠ lessonId) (m_lessons m) in
     ret (updateModule (m_id m) (with_lessons m updatedLessons) modules))
    (λ _, run toast (toast_error "Failed to delete lesson") in
          ret modules).

(** ** ImportDialog *)

Record ImportState := mkImportState {
  jsonInput : string;
  previewData : option (list ImportItem);
  error : string;
  isOpen : bool;
}.

Inductive Validation :=
  | Valid (items : list ImportItem)
  | MissingFields (i : nat)
  | NullItem.

(** A validated element read at its declared type [ImportItem]. *)
Definition as_ImportItem (item : RawItem) : ImportItem :=
  mkImportItem (or_empty (raw_module item)) (or_empty (raw_title item))
    (raw_videoIframe item) (raw_url item).

(** The validation loop, from index [i] on. *)
Fixpoint validate_from (i : nat) (parsed : list (option RawItem)) : Validation :=
  match parsed with
  | [] => Valid []
  | None :: _ => NullItem
  | Some item :: rest =>
      if negb (truthy (raw_module item)) || negb (truthy (raw_title item))
      then MissingFields i
      else match validate_from (S i) rest with
           | Valid items => Valid (as_ImportItem item :: items)
           | failure => failure
           end
  end.

(** [JSON_parse] stands for [JSON.parse]: [None] when it throws. *)
Definition validateAndPreview (JSON_parse : string → option Parsed)
    (st : ImportState) : ImportState :=
  let input := jsonInput st in
  let failed message := mkImportState input None message (isOpen st) in
  if is_blank input then failed "Please enter JSON data to preview"
  else
    match JSON_parse input with
    | None => failed "Invalid JSON format"
    | Some NotAnArray => failed "JSON must be an array of course items"
    | Some (AnArray parsed) =>
        match validate_from 0 parsed with
        | MissingFields i =>
            failed ("Item " +:+ pretty (i + 1)%nat
                    +:+ ": Missing required fields (module, title)")
        | NullItem => failed "Invalid JSON format"
        | Valid items => mkImportState input (Some items) "" (isOpen st)
        end
    end.

(** [moduleMap]: a [Map], which iterates in insertion order of its keys. *)
Fixpoint map_push (key : string) (item : ImportItem)
    (moduleMap : list (string * list ImportItem))
    : list (string * list ImportItem) :=
  match moduleMap with
  | [] => [(key, [item])]
  | (k, v) :: rest =>
      if String.eqb k key then (k, v ++ [item]) :: rest
      else (k, v) :: map_push key item rest
  end.

Definition group_by_module (items : list ImportItem)
    : list (string * list ImportItem) :=
  fold_left (λ moduleMap item, map_push (module item) item moduleMap) items [].

Definition lessonsToInsert (lessons : list ImportItem) (module_id : string)
    : list LessonInsert :=
  imap (λ index lesson,
          mkLessonInsert (title lesson) (Some (or_empty (videoIframe lesson)))
            (Z.of_nat index) module_id)
       lessons.

Fixpoint import_loop (modulePosition : Z)
    (entries : list (string * list ImportItem)) : M unit :=
  match entries with
  | [] => ret tt
  | (moduleName, lessons) :: rest =>
      let* newModule := api_insert_module moduleName modulePosition in
      run api_insert_lessons (lessonsToInsert lessons (r_id newModule)) in
      import_loop (modulePosition + 1) rest
  end.

(** [onImport] is the course manager's [fetchModules]; the pair returned is
    the dialog's state and the course manager's modules. *)
Definition processImport (st : ImportState) (modules : list CModule)
    : M (ImportState * list CModule) :=
  match previewData st with
  | None => ret (st, modules)
  | Some items =>
      try_catch
        (run api_delete_modules (IdNeq SENTINEL) in
         let moduleMap := group_by_module items in
         run import_loop 0 moduleMap in
         let* modules' := fetchModules modules in
         run toast (toast_success
                      ("Imported " +:+ pretty (length moduleMap) +:+ " modules with "
                       +:+ pretty (length items) +:+ " lessons")) in
         ret (mkImportState "" None (error st) false, modules'))
        (λ _, run toast (toast_error "Failed to import data") in
              ret (st, modules))
  end.

(** ** SnapshotManager *)

Definition snapshotLesson (lesson : Lesson) : SnapLesson :=
  mkSnapLesson (l_title lesson) (l_video_iframe lesson) (l_position lesson).

Definition snapshotModule (m : CModule) : SnapModule :=
  mkSnapModule (m_name m) (m_position m) (Some (snapshotLesson <$> m_lessons m)).

Definition snapshotData (modules : list CModule) : SnapshotData :=
  mkSnapshotData (Some (snapshotModule <$> modules)).

Definition createSnapshot (newSnapshotName : string) (modules : list CModule)
    (snapshots : list Snapshot) : M (list Snapshot) :=
  if is_blank newSnapshotName then ret snapshots
  else
    try_catch
      (let* data := api_insert_snapshot newSnapshotName (snapshotData modules) in
       run toast (toast_success "Snapshot created successfully") in
       ret (data :: snapshots))
      (λ _, run toast (toast_error "Failed to create snapshot") in
            ret snapshots).

Fixpoint restore_loop (snapshotModules : list SnapModule) : M unit :=
  match snapshotModules with
  | [] => ret tt
  | moduleData :: rest =>
      let* newModule := api_insert_module (sm_name moduleData)
                          (sm_position moduleData) in
      run match sm_lessons moduleData with
          | Some ((_ :: _) as snapLessons) =>
              let lessons :=
                (λ lesson, mkLessonInsert (sl_title lesson) (sl_video_iframe lesson)
                             (sl_position lesson) (r_id newModule))
                <$> snapLessons in
              run api_insert_lessons lessons in
              ret tt
          | _ => ret tt
          end in
      restore_loop rest
  end.

(** [onRestore] is the course manager's [fetchModules]. *)
Definition restoreSnapshot (snapshot : Snapshot) (modules : list CModule)
    : M (list CModule) :=
  try_catch
    (run api_delete_modules (IdNeq SENTINEL) in
     let snapshotModules := default [] (sd_modules (s_data snapshot)) in
     run restore_loop snapshotModules in
     let* modules' := fetchModules modules in
     run toast (toast_success "Snapshot restored successfully") in
     ret modules')
    (λ _, run toast (toast_error "Failed to restore snapshot") in
          ret modules).

(** ** The courses-api edge function *)

Inductive Body :=
  | BodyNull
  | BodyArray (items : list ImportItem)
  | BodyError (error message : string).

Record Response := mkResponse {
  status : Z;
  headers : list (string * string);
  body : Body;
}.

Definition corsHeaders : list (string * string) :=
  [("Access-Control-Allow-Origin", "*");
   ("Access-Control-Allow-Headers",
    "authorization, x-client-info, apikey, content-type")].

Definition transformedData (modules : list CModule) : list ImportItem :=
  m ← modules;
  (λ lesson, mkImportItem (m_name m) (l_title lesson)
               (Some (or_empty (l_video_iframe lesson))) None)
    <$> m_lessons m.

(** The handler passed to [serve], on a request with the given method. A
    [Response] built without a status has status 200. *)
Definition serve (method : string) : M Response :=
  if String.eqb method "OPTIONS" then ret (mkResponse 200 corsHeaders BodyNull)
  else
    try_catch
      (let* modules := api_select_modules in
       ret (mkResponse 200 (corsHeaders ++ [("Content-Type", "application/json")])
              (BodyArray (transformedData modules))))
      (λ message,
         ret (mkResponse 500 (corsHeaders ++ [("Content-Type", "application/json")])
                (BodyError "Internal server error" message))).

(** ** What the properties speak about *)


Definition module_positions (d : Db) : list Z := r_position <$> tbl_modules d.

Definition lesson_positions (d : Db) (mid : string) : list Z :=
  l_position <$> lessons_of d mid.


(** What the schema and [gen_random_uuid] guarantee of a store: primary
    keys are unique, every lesson belongs to a module that is there, and
    no module carries the all-zero identity. *)
Record store_ok (d : Db) : Prop := {
  ok_module_ids : NoDup (module_ids d);
  ok_lesson_ids : NoDup (l_id <$> tbl_lessons d);
  ok_foreign_key : ∀ l, l ∈ tbl_lessons d → l_module_id l ∈ module_ids d;
  ok_sentinel : SENTINEL ∉ module_ids d;
}.

(** A nested hierarchy whose modules have distinct identities and whose
    lessons point to the module they are listed under. *)
Definition well_nested (modules : list CModule) : Prop :=
  NoDup (m_id <$> modules) ∧
  Forall (λ m, Forall (λ l, l_module_id l = m_id m) (m_lessons m)) modules.

Definition row_of (m : CModule) : ModuleRow :=
  mkModuleRow (m_id m) (m_name m) (m_position m).

(** The hierarchy the import loop creates from the grouped entries when
    every request is served, [uuid n] being the next identity and
    [position] the position of the first module. *)
Fixpoint import_created (n : nat) (position : Z)
    (entries : list (string * list ImportItem)) : list CModule :=
  match entries with
  | [] => []
  | (moduleName, lessons) :: rest =>
      mkModule (uuid n) moduleName position
        (imap (new_lesson (S n)) (lessonsToInsert lessons (uuid n)))
      :: import_created (S n + length lessons) (position + 1) rest
  end.

(** The hierarchy the restore loop creates from a snapshot's modules. *)
Fixpoint restore_created (n : nat) (snapshotModules : list SnapModule)
    : list CModule :=
  match snapshotModules with
  | [] => []
  | moduleData :: rest =>
      let snapLessons := default [] (sm_lessons moduleData) in
      mkModule (uuid n) (sm_name moduleData) (sm_position moduleData)
        (imap (λ i lesson,
                 mkLesson (uuid (S n + i)) (sl_title lesson)
                   (sl_video_iframe lesson) (sl_position lesson) (uuid n))
              snapLessons)
      :: restore_created (S n + length snapLessons) rest
  end.

(** The snapshot whose restore creates what the import loop creates from
    the grouped entries: module positions count up from [position], lesson
    positions are the indices within the group, and absent video markup is
    the empty string. *)
Fixpoint entries_snapshot (position : Z)
    (entries : list (string * list ImportItem)) : list SnapModule :=
  match entries with
  | [] => []
  | (moduleName, lessons) :: rest =>
      mkSnapModule moduleName position
        (Some (imap (λ index lesson,
                       mkSnapLesson (title lesson)
                         (Some (or_empty (videoIframe lesson))) (Z.of_nat index))
                    lessons))
      :: entries_snapshot (position + 1) rest
  end.

(** The flat records of a snapshot's modules: the input of equivalent
    shape for the import path. *)
Definition items_of (moduleData : SnapModule) : list ImportItem :=
  (λ lesson, mkImportItem (sm_name moduleData) (sl_title lesson)
               (sl_video_iframe lesson) None)
  <$> default [] (sm_lessons moduleData).

Definition snapshot_items (snapshotModules : list SnapModule) : list ImportItem :=
  snapshotModules ≫= items_of.

Definition has_lessons (moduleData : SnapModule) : Prop :=
  default [] (sm_lessons moduleData) ≠ [].

Global Instance has_lessons_dec moduleData : Decision (has_lessons moduleData).
Proof. unfold has_lessons. apply _. Defined.

(** A snapshot that flat records can express: module names are distinct,
    every module has a lesson, video markup is a string. *)
Record importable (snapshotModules : list SnapModule) : Prop := {
  importable_names : NoDup (sm_name <$> snapshotModules);
  importable_lessons :
    Forall (λ sm, ∃ lessons, sm_lessons sm = Some lessons ∧ lessons ≠ [])
      snapshotModules;
  importable_markup :
    Forall (λ sm, Forall (λ lesson, is_Some (sl_video_iframe lesson))
                    (default [] (sm_lessons sm)))
      snapshotModules;
}.

(** A snapshot whose stored positions are the array indices. *)
Definition ordinal_positions (snapshotModules : list SnapModule) : Prop :=
  sm_position <$> snapshotModules
    = Z.of_nat <$> seq 0 (length snapshotModules) ∧
  Forall (λ sm, sl_position <$> default [] (sm_lessons sm)
                = Z.of_nat <$> seq 0 (length (default [] (sm_lessons sm))))
    snapshotModules.

(** What [JSON.parse] returns on the [JSON.stringify] of exported
    records: every record an object with its fields. *)
Definition raw_of (item : ImportItem) : RawItem :=
  mkRawItem (Some (module item)) (Some (title item)) (videoIframe item) (url item).

Definition reparsed (items : list ImportItem) : Parsed :=
  AnArray ((λ item, Some (raw_of item)) <$> items).

(** A record as it reads after an import and a new export: absent video
    markup has become the empty string. *)
Definition read_back (item : ImportItem) : ImportItem :=
  mkImportItem (module item) (title item) (Some (or_empty (videoIframe item))) None.

(** The store read as a hierarchy in table order. *)
Definition nested (d : Db) : list CModule :=
  (λ r, mkModule (r_id r) (r_name r) (r_position r) (lessons_of d (r_id r)))
  <$> tbl_modules d.

(** The table after the position writes of one reorder: for the k-th
    identity of the list, the rows with that identity get position
    [i + k]. *)
Fixpoint renumber {R} (rid : R → string) (rset : Z → R → R) (i : Z)
    (ids : list string) (rows : list R) : list R :=
  match ids with
  | [] => rows
  | id :: rest =>
      renumber rid rset (i + 1) rest
        ((λ r, if matches (IdEq id) (rid r) then rset i r else r) <$> rows)
  end.

(** A row after these writes, said at once: its position is [i] plus the
    index of its identity in the list, when it is there. *)
Definition renumbered {R} (rid : R → string) (rset : Z → R → R) (i : Z)
    (ids : list string) (r : R) : R :=
  match list_find (λ id, id = rid r) ids with
  | Some (k, _) => rset (i + Z.of_nat k) r
  | None => r
  end.

(** A list in ascending order of an integer key. *)
Definition ordered_by {A} (key : A → Z) (l : list A) : Prop :=
  StronglySorted (λ a b, key a ≤ key b) l.

(** A handler has ended well when the last notification it showed is not
    an error. *)
Definition succeeded (w : World) : Prop :=
  ∃ t, last (toasts w) = Some t ∧ toast_destructive t = false.

(** The store serves every coming request. *)
Definition no_faults (w : World) : Prop := Forall (λ b, b = false) (faults w).

(** A record of a batch that the validation pass accepts, and one it
    objects to. *)
Definition acceptable (item : RawItem) : Prop :=
  truthy (raw_module item) = true ∧ truthy (raw_title item) = true.


(** The drag event of dropping [movedId] on [targetId] in the scope whose
    sortable identifiers carry the prefix [tag]. *)
Definition drop_on (tag movedId targetId : string) : DragEndEvent :=
  mkDragEndEvent (tag +:+ movedId) (Some (tag +:+ targetId)).

(** ** Sample data *)

Definition sample_module (id : string) (position : Z) : CModule :=
  mkModule id ("Module " +:+ id) position [].

Definition sample_A := sample_module "A" 0.
Definition sample_B := sample_module "B" 1.
Definition sample_C := sample_module "C" 2.
Definition sample_D := sample_module "D" 3.

Definition sample_ABCD : list CModule := [sample_A; sample_B; sample_C; sample_D].
Definition sample_ABC : list CModule := [sample_A; sample_B; sample_C].

(** A world whose store holds exactly the given modules, without lessons. *)
Definition world_of (modules : list CModule) : World :=
  mkWorld (mkDb (row_of <$> modules) [] []) 100 [] [] [].

(** A store with two modules, listed against their positions, and three
    lessons, one of them without video markup. *)
Definition sample_store : Db :=
  mkDb
    [mkModuleRow "m2" "Second" 1; mkModuleRow "m1" "First" 0]
    [mkLesson "l3" "Outro" None 0 "m2";
     mkLesson "l2" "Details" (Some "<iframe src='b'></iframe>") 1 "m1";
     mkLesson "l1" "Intro" (Some "<iframe src='a'></iframe>") 0 "m1"]
    [].

Definition sample_world : World := mkWorld sample_store 100 [] [] [].

(** The same store when it refuses the next request. *)
Definition sample_world_down : World := mkWorld sample_store 100 [true] [] [].

(** The batch [{module:"M1",title:"L1"}, {module:"M2",title:"L2"},
    {module:"M1",title:"L3"}] after validation. *)
Definition sample_batch : list ImportItem :=
  [mkImportItem "M1" "L1" None None;
   mkImportItem "M2" "L2" None None;
   mkImportItem "M1" "L3" None None].

(** The value of a computation that has not thrown. *)
Definition value_of {A} (default : A) (r : result A) : A :=
  match r with
  | Ok a => a
  | Throw _ => default
  end.

(** A snapshot captured after the module at position 0 was deleted: its
    one module still carries position 1. *)
Definition sample_gap_snapshot : Snapshot :=
  mkSnapshot "s1" "after delete"
    (mkSnapshotData
       (Some [mkSnapModule "M1" 1 (Some [mkSnapLesson "L1" (Some "") 0])])).

(** A snapshot with ordinal positions. *)
Definition sample_ordinal_snapshot : Snapshot :=
  mkSnapshot "s2" "as fetched"
    (mkSnapshotData
       (Some [mkSnapModule "M1" 0
                (Some [mkSnapLesson "L1" (Some "<iframe a>") 0;
                       mkSnapLesson "L3" (Some "") 1]);
              mkSnapModule "M2" 1
                (Some [mkSnapLesson "L2" (Some "<iframe b>") 0])])).

Definition import_state (items : list ImportItem) : ImportState :=
  mkImportState "[...]" (Some items) "" true.

(** A store in which two modules bear the same name. *)
Definition sample_twin_store : Db :=
  mkDb
    [mkModuleRow "m1" "Basics" 0; mkModuleRow "m2" "Extras" 1;
     mkModuleRow "m3" "Basics" 2]
    [mkLesson "l1" "Intro" (Some "<iframe a>") 0 "m1";
     mkLesson "l2" "Bonus" (Some "<iframe b>") 0 "m2";
     mkLesson "l3" "Recap" (Some "<iframe c>") 0 "m3"]
    [].

Definition sample_twin_world : World := mkWorld sample_twin_store 100 [] [] [].

(** ** ImportDialog: the preview *)

(** [new Set(values)]: a [Set] keeps its values in the order of their
    first insertion, which is what [size] counts and [Array.from] lists. *)
Definition Set_add (value : string) (set : list string) : list string :=
  if bool_decide (value ∈ set) then set else set ++ [value].

Definition new_Set (values : list string) : list string :=
  fold_left (λ set value, Set_add value set) values [].

(** The pair [{ modules, lessons }] of counts shown on a badge. *)
Record Stats := mkStats {
  stats_modules : nat;
  stats_lessons : nat;
}.

Definition getPreviewStats (st : ImportState) : Stats :=
  match previewData st with
  | None => mkStats 0 0
  | Some items => mkStats (length (new_Set (module <$> items))) (length items)
  end.

(** The cards of the preview pane: one for each distinct module name, with
    the records that bear the name. *)
Definition previewCards (items : list ImportItem)
    : list (string * list ImportItem) :=
  (λ moduleName, (moduleName, filter (λ item, module item = moduleName) items))
  <$> new_Set (module <$> items).

(** ** ModuleCard: a lesson edited in place *)

Definition updateLesson (lessonId : string) (updatedLesson : Lesson)
    (m : CModule) (modules : list CModule) : list CModule :=
  let updatedLessons :=
    (λ l, if String.eqb (l_id l) lessonId then updatedLesson else l)
    <$> m_lessons m in
  updateModule (m_id m) (with_lessons m updatedLessons) modules.

(** ** SnapshotManager: the counts shown *)

Definition getSnapshotStats (snapshot : Snapshot) : Stats :=
  let modules := default [] (sd_modules (s_data snapshot)) in
  let totalLessons :=
    fold_left (λ sum moduleData,
                 (sum + length (default [] (sm_lessons moduleData)))%nat)
      modules 0%nat in
  mkStats (length modules) totalLessons.

(** "Current: n modules, k lessons" *)
Definition currentStats (modules : list CModule) : Stats :=
  mkStats (length modules)
    (fold_left (λ sum m, (sum + length (m_lessons m))%nat) modules 0%nat).

(** ** Footprints *)

(** What a request does to the store and to the identity counter when it
    is served. *)
Definition effect (r : Request) (d : Db) (n : nat) : Db * nat :=
  match r with
  | SelectModules => (d, n)
  | InsertModule name position => (insert_module name position d n).2
  | InsertLessons rows => (insert_lessons rows d n).2
  | UpdateModulePosition position f => (update_module_position position f d n).2
  | UpdateLessonPosition position f => (update_lesson_position position f d n).2
  | DeleteModules f => (delete_modules f d n).2
  | DeleteLessons f => (delete_lessons f d n).2
  | InsertSnapshot name data => (insert_snapshot name data d n).2
  end.

(** The world after a request, served or refused as the store decides. *)
Definition after_request (r : Request) (w : World) : World :=
  let served := effect r (db w) (next_uuid w) in
  if default false (head (faults w)) then
    mkWorld (db w) (next_uuid w) (tail (faults w)) (log w ++ [r]) (toasts w)
  else
    mkWorld served.1 served.2 (tail (faults w)) (log w ++ [r]) (toasts w).

Definition after_toast (t : Toast) (w : World) : World :=
  mkWorld (db w) (next_uuid w) (faults w) (log w) (toasts w ++ [t]).

(** [reaches allowed w w']: the world [w'] comes from [w] by requests among
    the allowed ones and by notifications, and by nothing else. *)
Inductive reaches (allowed : Request → Prop) : World → World → Prop :=
  | reaches_refl w : reaches allowed w w
  | reaches_request r w w' :
      allowed r → reaches allowed (after_request r w) w' → reaches allowed w w'
  | reaches_toast t w w' :
      reaches allowed (after_toast t w) w' → reaches allowed w w'.

(** A computation whose every run, whatever it returns or throws, stays
    within the allowed requests. *)
Definition footprint {A} (allowed : Request → Prop) (m : M A) : Prop :=
  ∀ w, reaches allowed w (m w).2.

Definition is_query (r : Request) : Prop := r = SelectModules.

Definition is_module_position_write (r : Request) : Prop :=
  match r with UpdateModulePosition _ _ => True | _ => False end.

Definition is_lesson_position_write (r : Request) : Prop :=
  match r with UpdateLessonPosition _ _ => True | _ => False end.

Definition is_module_insert (r : Request) : Prop :=
  match r with InsertModule _ _ => True | _ => False end.

Definition is_module_delete (r : Request) : Prop :=
  match r with DeleteModules _ => True | _ => False end.

Definition is_lesson_insert (r : Request) : Prop :=
  match r with InsertLessons _ => True | _ => False end.

Definition is_lesson_delete (r : Request) : Prop :=
  match r with DeleteLessons _ => True | _ => False end.

Definition is_snapshot_insert (r : Request) : Prop :=
  match r with InsertSnapshot _ _ => True | _ => False end.

(** The requests of a bulk replace: the wipe, the inserts, the refetch. *)
Definition is_replace_step (r : Request) : Prop :=
  match r with
  | DeleteModules _ | InsertModule _ _ | InsertLessons _ | SelectModules => True
  | _ => False
  end.

(** No identity the store will hand out from [n] on is in use. *)
Definition unused_from (d : Db) (n : nat) : Prop :=
  ∀ k, (n ≤ k)%nat →
       (uuid k ∉ module_ids d) ∧ (uuid k ∉ l_id <$> tbl_lessons d).

(** The invariant of the store together with its identity counter. *)
Definition store_inv (w : World) : Prop :=
  store_ok (db w) ∧ unused_from (db w) (next_uuid w).

(** ** Outcomes of a handler *)

(** The world after the store has refused the request [r] and the handler
    has shown the error notification [description]. *)
Definition refused_with (r : Request) (description : string) (w : World)
    : World :=
  mkWorld (db w) (next_uuid w) (tail (faults w)) (log w ++ [r])
    (toasts w ++ [toast_error description]).


(** The list after the entity [x] at index [i] has been moved to index
    [j]. *)
Definition moved {A} (i j : nat) (x : A) (l : list A) : list A :=
  take j (delete i l) ++ x :: drop j (delete i l).

(** The position writes of a reorder: one for each identity of the new
    order, carrying its index. *)
Definition module_position_writes (ids : list string) : list Request :=
  imap (λ j id, UpdateModulePosition (Z.of_nat j) (IdEq id)) ids.

Definition lesson_position_writes (ids : list string) : list Request :=
  imap (λ j id, UpdateLessonPosition (Z.of_nat j) (IdEq id)) ids.

(** The index a drag handler works with for an identifier: where the
    identifier is found, or else, [findIndex] answering [-1] and [splice]
    counting a negative index from the end, the last index. *)
Definition index_or_last {A} (P : A → Prop) `{!∀ x, Decision (P x)}
    (l : list A) : nat :=
  match list_find P l with
  | Some (i, _) => i
  | None => length l - 1
  end.

(** The screen shows what a fetch of the store would return. *)
Definition in_step (modules : list CModule) (w : World) : Prop :=
  modules = select_nested (db w).

(** The shape an import gives the hierarchy: one module for each distinct
    module name, in the order of first occurrence and at positions 0, 1,
    2, ...; under it the records of that name in input order, at positions
    0, 1, 2, ..., absent video markup stored as the empty string. *)
Definition imported_shape (items : list ImportItem) : list SnapModule :=
  imap (λ k name,
          mkSnapModule name (Z.of_nat k)
            (Some (imap (λ i item,
                           mkSnapLesson (title item)
                             (Some (or_empty (videoIframe item))) (Z.of_nat i))
                        (filter (λ item, module item = name) items))))
       (new_Set (module <$> items)).

(** ** More sample data *)


(** A store that serves two requests and refuses the third. *)
Definition world_cut_at_third (modules : list CModule) : World :=
  mkWorld (mkDb (row_of <$> modules) [] []) 100 [false; false; true] [] [].

(** The first module of the sample store as it is fetched, with its two
    lessons. *)
Definition sample_first : CModule :=
  mkModule "m1" "First" 0
    [mkLesson "l1" "Intro" (Some "<iframe src='a'></iframe>") 0 "m1";
     mkLesson "l2" "Details" (Some "<iframe src='b'></iframe>") 1 "m1"].


(** * Properties *)

(** ** The monad *)

Lemma bind_Ok {A B} (m : M A) (k : A → M B) w a w' :
  m w = (Ok a, w') → bind m k w = k a w'.
Proof. unfold bind. by intros ->. Qed.

Lemma bind_Throw {A B} (m : M A) (k : A → M B) w e w' :
  m w = (Throw e, w') → bind m k w = (Throw e, w').
Proof. unfold bind. by intros ->. Qed.

Lemma bind_inv_Ok {A B} (m : M A) (k : A → M B) w b w2 :
  bind m k w = (Ok b, w2) →
  ∃ a w1, m w = (Ok a, w1) ∧ k a w1 = (Ok b, w2).
Proof.
  unfold bind. destruct (m w) as [[a|e] w1]; [eauto | discriminate].
Qed.

(** ** Arrays *)

Section arrays.
Context {A : Type}.
Implicit Types l : list A.

Lemma findIndex_find (p : A → bool) (P : A → Prop) `{!∀ x, Decision (P x)} l :
  (∀ x, p x = true ↔ P x) →
  findIndex p l =
    match list_find P l with Some (i, _) => Z.of_nat i | None => -1 end.
Proof.
  intros Hp. induction l as [|x l IH]; [done|].
  cbn [findIndex list_find]. destruct (p x) eqn:Hx.
  - apply Hp in Hx. by rewrite decide_True.
  - rewrite decide_False by (rewrite <- Hp; congruence).
    rewrite IH. destruct (list_find P l) as [[i y]|]; simpl; [|done].
    destruct (Z.ltb_spec (Z.of_nat i) 0); lia.
Qed.

Lemma findIndex_lower (p : A → bool) l : -1 ≤ findIndex p l.
Proof.
  induction l as [|x l IH]; simpl; [lia|].
  destruct (p x); [lia|]. destruct (Z.ltb_spec (findIndex p l) 0); lia.
Qed.

Lemma all_defined_Some l : all_defined (Some <$> l) = Some l.
Proof. induction l as [|x l IH]; csimpl; [done|]. by rewrite IH. Qed.

Lemma omap_id_Some l : omap id (Some <$> l) = l.
Proof. induction l as [|x l IH]; csimpl; [done|]. by rewrite IH. Qed.

Lemma all_defined_inv (ol : list (option A)) l :
  all_defined ol = Some l → ol = Some <$> l.
Proof.
  revert l. induction ol as [|[x|] ol IH]; intros l; simpl.
  - by intros [= <-].
  - destruct (all_defined ol) as [l'|]; simpl; [|done].
    intros [= <-]. by rewrite (IH l').
  - done.
Qed.

Lemma take_drop_rest_Permutation l (s d : nat) :
  take d (drop s l) ++ take s l ++ drop (s + d) l ≡ₚ l.
Proof.
  transitivity (take s l ++ take d (drop s l) ++ drop d (drop s l)).
  - rewrite drop_drop. apply Permutation_app_swap_app.
  - by rewrite !take_drop.
Qed.

(** Whatever [start] and [deleteCount] are, [splice] splits the array
    into the removed run and the rest. *)
Lemma splice_delete_Permutation l start deleteCount :
  let '(removed, rest) := splice l start deleteCount [] in
  removed ++ rest ≡ₚ l.
Proof. unfold splice. simpl. apply take_drop_rest_Permutation. Qed.

Lemma splice_delete_one_length l start :
  (length (splice l start 1 []).1 ≤ 1)%nat.
Proof.
  unfold splice. cbn [fst]. rewrite length_take.
  destruct (start <? 0); lia.
Qed.

Lemma splice_insert_Permutation l start x :
  (splice l start 0 [x]).2 ≡ₚ x :: l.
Proof.
  unfold splice. cbn [snd].
  match goal with
  | |- context [Z.to_nat (Z.min (Z.max 0 0) ?z)] =>
      replace (Z.to_nat (Z.min (Z.max 0 0) z)) with 0%nat
        by (destruct (start <? 0); lia)
  end.
  rewrite Nat.add_0_r. cbn [app]. rewrite <- Permutation_middle.
  by rewrite take_drop.
Qed.

Lemma splice_remove_at l i x :
  l !! i = Some x → splice l (Z.of_nat i) 1 [] = ([x], delete i l).
Proof.
  intros Hi. pose proof (lookup_lt_Some _ _ _ Hi) as Hlt.
  unfold splice. simpl.
  destruct (Z.ltb_spec (Z.of_nat i) 0) as [?|_]; [lia|].
  replace (Z.to_nat (Z.min (Z.of_nat i) (Z.of_nat (length l)))) with i by lia.
  replace (Z.to_nat _) with 1%nat by lia.
  rewrite delete_take_drop. f_equal; [|by rewrite Nat.add_1_r].
  rewrite (drop_S _ _ _ Hi). by rewrite firstn_cons, take_0.
Qed.

Lemma splice_insert_at l j x :
  (j ≤ length l)%nat →
  splice l (Z.of_nat j) 0 [x] = ([], take j l ++ x :: drop j l).
Proof.
  intros Hj. unfold splice. simpl.
  destruct (Z.ltb_spec (Z.of_nat j) 0) as [?|_]; [lia|].
  replace (Z.to_nat (Z.min (Z.of_nat j) (Z.of_nat (length l)))) with j by lia.
  replace (Z.to_nat _) with 0%nat by lia.
  by rewrite Nat.add_0_r.
Qed.

End arrays.

Section arrayMove.
Context {A : Type}.
Implicit Types l : list A.

(** The single-element move, both indices in range. *)
Lemma arrayMove_in_range l i j x :
  l !! i = Some x → (j < length l)%nat →
  arrayMove l (Z.of_nat i) (Z.of_nat j)
  = Some <$> (take j (delete i l) ++ x :: drop j (delete i l)).
Proof.
  intros Hi Hj. pose proof (lookup_lt_Some _ _ _ Hi) as Hlt.
  unfold arrayMove.
  destruct (Z.ltb_spec (Z.of_nat j) 0) as [?|_]; [lia|].
  rewrite (splice_remove_at (Some <$> l) i (Some x))
    by (by rewrite list_lookup_fmap, Hi).
  cbn -[splice]. rewrite splice_insert_at.
  - cbn [snd]. by rewrite fmap_app, fmap_cons, fmap_take, fmap_drop, list_fmap_delete.
  - rewrite length_delete by (by rewrite list_lookup_fmap, Hi).
    rewrite length_fmap. lia.
Qed.

(** Whatever the indices are, a result without [undefined] holds the
    elements of the array, each once. *)
Lemma arrayMove_Permutation l from to l' :
  all_defined (arrayMove l from to) = Some l' → l' ≡ₚ l.
Proof.
  unfold arrayMove. intros Hdef.
  pose proof (splice_delete_Permutation (Some <$> l) from 1) as Hperm.
  pose proof (splice_delete_one_length (Some <$> l) from) as Hlen.
  destruct (splice (Some <$> l) from 1 []) as [removed rest].
  apply all_defined_inv in Hdef.
  set (start := if to <? 0 then _ else _) in Hdef.
  pose proof (splice_insert_Permutation rest start (mjoin (removed !! 0%nat)))
    as Hins.
  rewrite Hdef in Hins. simpl in Hlen.
  destruct removed as [|r [|? ?]]; simpl in *; [| |lia].
  - assert (None ∈ Some <$> l') as Hin by (rewrite Hins; left).
    apply list_elem_of_fmap in Hin as (? & ? & _). done.
  - rewrite <- Hins in Hperm.
    apply (omap_Permutation id) in Hperm.
    by rewrite !omap_id_Some in Hperm.
Qed.
End arrayMove.

(** [arrayMove] on small arrays: forwards, backwards, and with the [-1]
    that [findIndex] returns for an identity that is not there, which
    [splice] counts from the end. On the empty array nothing is removed
    and [undefined] is inserted. *)
Example arrayMove_forwards :
  arrayMove ["A"; "B"; "C"; "D"] 0 2 = [Some "B"; Some "C"; Some "A"; Some "D"].
Proof. reflexivity. Qed.

Example arrayMove_backwards :
  arrayMove ["A"; "B"; "C"; "D"] 2 0 = [Some "C"; Some "A"; Some "B"; Some "D"].
Proof. reflexivity. Qed.

Example arrayMove_from_absent :
  arrayMove ["A"; "B"; "C"] (-1) 0 = [Some "C"; Some "A"; Some "B"].
Proof. reflexivity. Qed.

Example arrayMove_to_absent :
  arrayMove ["A"; "B"; "C"] 0 (-1) = [Some "B"; Some "C"; Some "A"].
Proof. reflexivity. Qed.

Example arrayMove_empty : arrayMove (@nil string) (-1) (-1) = [None].
Proof. reflexivity. Qed.

Section moves.
Context {A : Type}.
Implicit Types l : list A.

(** Removing an element and putting it back at its own index. *)
Lemma move_same_index l i x :
  l !! i = Some x → take i (delete i l) ++ x :: drop i (delete i l) = l.
Proof.
  intros Hi. pose proof (lookup_lt_Some _ _ _ Hi) as Hlt.
  rewrite delete_take_drop.
  rewrite take_app_length' by (rewrite length_take; lia).
  rewrite drop_app_length' by (rewrite length_take; lia).
  by apply take_drop_middle.
Qed.

Lemma move_lookup l j x :
  (j ≤ length l)%nat → (take j l ++ x :: drop j l) !! j = Some x.
Proof.
  intros Hj. apply list_lookup_middle. rewrite length_take. lia.
Qed.

Lemma move_delete l j x :
  (j ≤ length l)%nat → delete j (take j l ++ x :: drop j l) = l.
Proof.
  intros Hj.
  assert (length (take j l) = j) as Hlen by (rewrite length_take; lia).
  rewrite <- Hlen at 1. rewrite delete_middle. apply take_drop.
Qed.
End moves.

(** ** Drag identifiers *)

Lemma prefix_tag tag s : String.prefix tag (tag +:+ s) = true.
Proof.
  induction tag as [|c tag IH]; simpl.
  - by destruct s.
  - by destruct (Ascii.ascii_dec c c).
Qed.

Lemma tagged_eqb tag a b : String.eqb (tag +:+ a) (tag +:+ b) = true ↔ a = b.
Proof.
  rewrite String.eqb_eq. split; [|by intros ->].
  induction tag as [|c tag IH]; simpl; [done|].
  intros [= ?]. auto.
Qed.

Lemma findIndex_module_tag movedId (modules : list CModule) :
  findIndex (λ m, String.eqb ("module-" +:+ m_id m) ("module-" +:+ movedId)) modules
  = match list_find (λ m, m_id m = movedId) modules with
    | Some (i, _) => Z.of_nat i
    | None => -1
    end.
Proof. apply findIndex_find. intros m. apply tagged_eqb. Qed.

Lemma findIndex_lesson_tag movedId (lessons : list Lesson) :
  findIndex (λ l, String.eqb ("lesson-" +:+ l_id l) ("lesson-" +:+ movedId)) lessons
  = match list_find (λ l, l_id l = movedId) lessons with
    | Some (i, _) => Z.of_nat i
    | None => -1
    end.
Proof. apply findIndex_find. intros m. apply tagged_eqb. Qed.

(** ** The position writers never throw *)

Lemma updateModulePositions_returns newModules w :
  ∃ w', updateModulePositions newModules w = (Ok tt, w').
Proof.
  unfold updateModulePositions, try_catch.
  destruct (updateModulePositions_loop 0 newModules w) as [[[]|e] w']; eauto.
Qed.

Lemma updateLessonPositions_returns newLessons w :
  ∃ w', updateLessonPositions newLessons w = (Ok tt, w').
Proof.
  unfold updateLessonPositions, try_catch.
  destruct (updateLessonPositions_loop 0 newLessons w) as [[[]|e] w']; eauto.
Qed.

Lemma set_state_defined {A} (l : list A) w : set_state (Some <$> l) w = (Ok l, w).
Proof. unfold set_state. by rewrite all_defined_Some. Qed.

Lemma set_state_inv {A} (ol : list (option A)) l w w' :
  set_state ol w = (Ok l, w') → all_defined ol = Some l ∧ w' = w.
Proof.
  unfold set_state. destruct (all_defined ol); [|done].
  by intros [= -> ->].
Qed.

(** ** Reorder: both identifiers present *)

Lemma handleDragEnd_present modules movedId targetId i j x y w :
  list_find (λ m, m_id m = movedId) modules = Some (i, x) →
  list_find (λ m, m_id m = targetId) modules = Some (j, y) →
  (handleDragEnd (mkDragEndEvent ("module-" +:+ movedId)
                    (Some ("module-" +:+ targetId))) modules w).1
  = Ok (take j (delete i modules) ++ x :: drop j (delete i modules)).
Proof.
  intros Hi Hj. unfold handleDragEnd. cbn [over_id active_id].
  destruct (String.eqb _ _) eqn:Heq.
  - apply tagged_eqb in Heq as ->. rewrite Hi in Hj. injection Hj as <- <-.
    apply list_find_Some in Hi as (Hi & _). cbn [fst ret].
    by rewrite move_same_index.
  - rewrite !prefix_tag. cbn [andb].
    rewrite !findIndex_module_tag, Hi, Hj.
    apply list_find_Some in Hi as (Hi & _).
    apply list_find_Some in Hj as (Hj%lookup_lt_Some & _).
    rewrite (arrayMove_in_range _ _ _ x) by done.
    destruct (updateModulePositions_returns
                (Some <$> take j (delete i modules) ++ x :: drop j (delete i modules)) w)
      as [w' Hw'].
    rewrite (bind_Ok _ _ _ _ _ Hw'). by rewrite set_state_defined.
Qed.

Lemma handleLessonDragEnd_present m modules movedId targetId i j x y w :
  movedId ≠ targetId →
  list_find (λ l, l_id l = movedId) (m_lessons m) = Some (i, x) →
  list_find (λ l, l_id l = targetId) (m_lessons m) = Some (j, y) →
  (handleLessonDragEnd (mkDragEndEvent ("lesson-" +:+ movedId)
                          (Some ("lesson-" +:+ targetId))) m modules w).1
  = Ok (updateModule (m_id m)
          (with_lessons m (take j (delete i (m_lessons m))
                           ++ x :: drop j (delete i (m_lessons m))))
          modules).
Proof.
  intros Hne Hi Hj. unfold handleLessonDragEnd. cbn [over_id active_id].
  destruct (String.eqb _ _) eqn:Heq.
  - by apply tagged_eqb in Heq.
  - rewrite !prefix_tag. cbn [andb].
    rewrite !findIndex_lesson_tag, Hi, Hj.
    apply list_find_Some in Hi as (Hi & _).
    apply list_find_Some in Hj as (Hj%lookup_lt_Some & _).
    rewrite (arrayMove_in_range _ _ _ x) by done.
    destruct (updateLessonPositions_returns
                (Some <$> take j (delete i (m_lessons m))
                          ++ x :: drop j (delete i (m_lessons m))) w)
      as [w' Hw'].
    rewrite (bind_Ok _ _ _ _ _ Hw').
    by rewrite (bind_Ok _ _ _ _ _ (set_state_defined _ _)).
Qed.

(** ** Reorder: the cases in which nothing happens *)

Lemma handleDragEnd_same activeId modules w :
  handleDragEnd (mkDragEndEvent activeId (Some activeId)) modules w
  = (Ok modules, w).
Proof. unfold handleDragEnd. cbn. by rewrite String.eqb_refl. Qed.

Lemma handleLessonDragEnd_same activeId m modules w :
  handleLessonDragEnd (mkDragEndEvent activeId (Some activeId)) m modules w
  = (Ok modules, w).
Proof. unfold handleLessonDragEnd. cbn. by rewrite String.eqb_refl. Qed.

(** ** Reorder: the items themselves are not touched *)

Lemma handleDragEnd_Permutation event modules w modules' w' :
  handleDragEnd event modules w = (Ok modules', w') → modules' ≡ₚ modules.
Proof.
  unfold handleDragEnd.
  destruct (over_id event) as [overId|]; [|by intros [= <- _]].
  destruct (String.eqb _ _); [by intros [= <- _]|].
  destruct (_ && _); [|by intros [= <- _]].
  intros (_ & w1 & _ & Hset)%bind_inv_Ok.
  apply set_state_inv in Hset as [Hdef _].
  by apply arrayMove_Permutation in Hdef.
Qed.

Lemma handleLessonDragEnd_Permutation event m modules w modules' w' :
  handleLessonDragEnd event m modules w = (Ok modules', w') →
  modules' = modules ∨
  ∃ lessons, lessons ≡ₚ m_lessons m ∧
    modules' = updateModule (m_id m) (with_lessons m lessons) modules.
Proof.
  unfold handleLessonDragEnd.
  destruct (over_id event) as [overId|]; [|intros [= <- _]; by left].
  destruct (String.eqb _ _); [intros [= <- _]; by left|].
  destruct (_ && _); [|intros [= <- _]; by left].
  intros (_ & w1 & _ & (lessons & w2 & Hset & Hret)%bind_inv_Ok)%bind_inv_Ok.
  apply set_state_inv in Hset as [Hdef _].
  apply arrayMove_Permutation in Hdef.
  injection Hret as <- _. right. eauto.
Qed.

(** ** C4, C5, C10: the reorder handlers *)

(** C4. When the sibling list holds both identifiers, the drag handler
    removes the entity found at the moved identifier's index and puts it
    back at the index the target had, counted in the list after the
    removal: the new list has the moved entity at that index, and taking it
    out again leaves the other entities in their old order. This holds for
    the module list and for the lesson list of a module. Moving A onto C in
    [A,B,C,D] gives [B,C,A,D]. *)
Theorem C4_reorder_single_element_move
    (modules : list CModule) (m : CModule) (movedId targetId : string)
    (i j : nat) (w : World) :
  (∀ x y,
     list_find (λ m, m_id m = movedId) modules = Some (i, x) →
     list_find (λ m, m_id m = targetId) modules = Some (j, y) →
     ∃ newModules,
       (handleDragEnd (drop_on "module-" movedId targetId) modules w).1
         = Ok newModules ∧
       newModules = take j (delete i modules) ++ x :: drop j (delete i modules) ∧
       newModules !! j = Some x ∧
       delete j newModules = delete i modules) ∧
  (∀ x y,
     movedId ≠ targetId →
     list_find (λ l, l_id l = movedId) (m_lessons m) = Some (i, x) →
     list_find (λ l, l_id l = targetId) (m_lessons m) = Some (j, y) →
     ∃ newLessons,
       (handleLessonDragEnd (drop_on "lesson-" movedId targetId) m modules w).1
         = Ok (updateModule (m_id m) (with_lessons m newLessons) modules) ∧
       newLessons = take j (delete i (m_lessons m))
                    ++ x :: drop j (delete i (m_lessons m)) ∧
       newLessons !! j = Some x ∧
       delete j newLessons = delete i (m_lessons m)) ∧
  (handleDragEnd (drop_on "module-" "A" "C") sample_ABCD w).1
    = Ok [sample_B; sample_C; sample_A; sample_D].
Proof.
  split_and!.
  - intros x y Hi Hj. eexists. split_and!.
    + by eapply handleDragEnd_present.
    + done.
    + apply move_lookup.
      apply list_find_Some in Hi as (Hi & _), Hj as (Hj%lookup_lt_Some & _).
      rewrite length_delete by eauto. lia.
    + apply move_delete.
      apply list_find_Some in Hi as (Hi & _), Hj as (Hj%lookup_lt_Some & _).
      rewrite length_delete by eauto. lia.
  - intros x y Hne Hi Hj. eexists. split_and!.
    + by eapply handleLessonDragEnd_present.
    + done.
    + apply move_lookup.
      apply list_find_Some in Hi as (Hi & _), Hj as (Hj%lookup_lt_Some & _).
      rewrite length_delete by eauto. lia.
    + apply move_delete.
      apply list_find_Some in Hi as (Hi & _), Hj as (Hj%lookup_lt_Some & _).
      rewrite length_delete by eauto. lia.
  - by rewrite (handleDragEnd_present sample_ABCD "A" "C" 0 2 sample_A sample_C).
Qed.

Lemma C4_witness :
  list_find (λ m, m_id m = "D") sample_ABCD = Some (3%nat, sample_D) ∧
  list_find (λ m, m_id m = "B") sample_ABCD = Some (1%nat, sample_B) ∧
  ∃ newModules,
    (handleDragEnd (drop_on "module-" "D" "B") sample_ABCD
       (world_of sample_ABCD)).1 = Ok newModules ∧
    newModules = [sample_A; sample_D; sample_B; sample_C] ∧
    newModules !! 1%nat = Some sample_D ∧
    delete 1%nat newModules = [sample_A; sample_B; sample_C].
Proof.
  split; [reflexivity|]. split; [reflexivity|].
  exact (proj1 (C4_reorder_single_element_move sample_ABCD sample_A "D" "B" 3 1
                  (world_of sample_ABCD))
           sample_D sample_B eq_refl eq_refl).
Defined.

(** C5, as the code has it. When the moved and the target identifier are
    the same, or there is no drop target, the handler leaves the list as it
    is and issues no request: the whole world, request log included, is
    unchanged. (The handlers do not check that an identifier is in the
    list.) *)
Theorem C5_reorder_noop_on_same_id
    (activeId : string) (m : CModule) (modules : list CModule) (w : World) :
  handleDragEnd (mkDragEndEvent activeId (Some activeId)) modules w
    = (Ok modules, w) ∧
  handleLessonDragEnd (mkDragEndEvent activeId (Some activeId)) m modules w
    = (Ok modules, w) ∧
  handleDragEnd (mkDragEndEvent activeId None) modules w = (Ok modules, w) ∧
  handleLessonDragEnd (mkDragEndEvent activeId None) m modules w
    = (Ok modules, w).
Proof.
  split_and!.
  - apply handleDragEnd_same.
  - apply handleLessonDragEnd_same.
  - done.
  - done.
Qed.

(** C5 fails when an identifier is absent: "X" is not in [A,B,C], yet
    dropping it on "A" moves the last module to the front and writes three
    positions. *)
Lemma C5_counterexample :
  list_find (λ m, m_id m = "X") sample_ABC = None ∧
  (handleDragEnd (drop_on "module-" "X" "A") sample_ABC (world_of sample_ABC)).1
    = Ok [sample_C; sample_A; sample_B] ∧
  log (handleDragEnd (drop_on "module-" "X" "A") sample_ABC (world_of sample_ABC)).2
    = [UpdateModulePosition 0 (IdEq "C");
       UpdateModulePosition 1 (IdEq "A");
       UpdateModulePosition 2 (IdEq "B")] ∧
  handleDragEnd (drop_on "module-" "X" "A") sample_ABC (world_of sample_ABC)
    ≠ (Ok sample_ABC, world_of sample_ABC).
Proof.
  split_and!; [reflexivity..|].
  intros Heq. apply (f_equal fst) in Heq. vm_compute in Heq. discriminate.
Qed.

Lemma createSnapshot_log name modules snapshots w :
  is_blank name = false →
  log (createSnapshot name modules snapshots w).2
  = log w ++ [InsertSnapshot name (snapshotData modules)].
Proof.
  intros Hname. unfold createSnapshot. rewrite Hname.
  unfold try_catch, bind, api_insert_snapshot, request.
  by destruct (default false (head (faults w))).
Qed.

(** C10. The reorder handlers only permute the local list: every item,
    position field included, is the item it was. A snapshot taken of the
    reordered list therefore serializes the old position values, now in
    the new array order. The position writes go to the store only: after
    moving A onto C in [A,B,C] the store has B, C, A at 0, 1, 2 while the
    snapshot of the local list has them at 1, 2, 0. *)
Theorem C10_reorder_keeps_local_positions
    (event : DragEndEvent) (m : CModule) (modules modules' : list CModule)
    (w w' : World) :
  (handleDragEnd event modules w = (Ok modules', w') →
     modules' ≡ₚ modules ∧
     snapshotModule <$> modules' ≡ₚ snapshotModule <$> modules ∧
     ∀ name snapshots, is_blank name = false →
       log (createSnapshot name modules' snapshots w').2
       = log w' ++ [InsertSnapshot name
                      (mkSnapshotData (Some (snapshotModule <$> modules')))]) ∧
  (handleLessonDragEnd event m modules w = (Ok modules', w') →
     modules' = modules ∨
     ∃ lessons, lessons ≡ₚ m_lessons m ∧
       snapshotLesson <$> lessons ≡ₚ snapshotLesson <$> m_lessons m ∧
       modules' = updateModule (m_id m) (with_lessons m lessons) modules) ∧
  (let r := handleDragEnd (drop_on "module-" "A" "C") sample_ABC
              (world_of sample_ABC) in
   r.1 = Ok [sample_B; sample_C; sample_A] ∧
   tbl_modules (db r.2)
     = [mkModuleRow "A" "Module A" 2; mkModuleRow "B" "Module B" 0;
        mkModuleRow "C" "Module C" 1] ∧
   sm_position <$> (snapshotModule <$> [sample_B; sample_C; sample_A])
     = [1; 2; 0]).
Proof.
  split_and!.
  - intros Hrun. apply handleDragEnd_Permutation in Hrun.
    split_and!; [done|by rewrite Hrun|].
    intros name snapshots Hname. by apply createSnapshot_log.
  - intros Hrun. apply handleLessonDragEnd_Permutation in Hrun
      as [->|(lessons & Hperm & ->)]; [by left|right].
    exists lessons. split_and!; [done|by rewrite Hperm|done].
  - by vm_compute.
Qed.

Lemma C10_witness :
  handleDragEnd (drop_on "module-" "C" "A") sample_ABC (world_of sample_ABC)
  = (Ok [sample_C; sample_A; sample_B],
     (handleDragEnd (drop_on "module-" "C" "A") sample_ABC (world_of sample_ABC)).2) ∧
  [sample_C; sample_A; sample_B] ≡ₚ sample_ABC.
Proof.
  split; [by vm_compute|].
  refine (proj1 (proj1 (C10_reorder_keeps_local_positions
                   (drop_on "module-" "C" "A") sample_A sample_ABC
                   [sample_C; sample_A; sample_B] (world_of sample_ABC)
                   (handleDragEnd (drop_on "module-" "C" "A") sample_ABC
                      (world_of sample_ABC)).2) _)).
  by vm_compute.
Defined.

(** ** Requests *)

Lemma request_inv {A} r (exec : Db → nat → result A * (Db * nat)) w a w' :
  request r exec w = (Ok a, w') →
  exec (db w) (next_uuid w) = (Ok a, (db w', next_uuid w')) ∧
  faults w' = tail (faults w) ∧ log w' = log w ++ [r] ∧ toasts w' = toasts w.
Proof.
  unfold request. destruct (default false (head (faults w))); [done|].
  destruct (exec (db w) (next_uuid w)) as [res [d n]].
  by intros [= -> <-].
Qed.

Lemma request_served {A} r (exec : Db → nat → result A * (Db * nat)) w :
  no_faults w →
  request r exec w
  = (let '(res, (d, n)) := exec (db w) (next_uuid w) in
     (res, mkWorld d n (tail (faults w)) (log w ++ [r]) (toasts w))).
Proof.
  unfold no_faults, request. intros Hw.
  by destruct Hw as [|b fs -> _].
Qed.

Lemma request_refused {A} r (exec : Db → nat → result A * (Db * nat)) w :
  head (faults w) = Some true →
  request r exec w
  = (Throw STORE_ERROR,
     mkWorld (db w) (next_uuid w) (tail (faults w)) (log w ++ [r]) (toasts w)).
Proof. unfold request. by intros ->. Qed.

Lemma no_faults_tail d n fs lg ts :
  Forall (λ b, b = false) fs → no_faults (mkWorld d n (tail fs) lg ts).
Proof. unfold no_faults. simpl. intros [|]; [constructor|done]. Qed.

Lemma fetchModules_run modules w :
  fetchModules modules w
  = (Ok (if default false (head (faults w)) then modules
         else select_nested (db w)),
     mkWorld (db w) (next_uuid w) (tail (faults w)) (log w ++ [SelectModules])
       (toasts w ++ if default false (head (faults w))
                    then [toast_error "Failed to fetch modules"] else [])).
Proof.
  unfold fetchModules, try_catch, bind, api_select_modules, request.
  destruct (faults w) as [|[] fs]; simpl; try done.
  all: by rewrite app_nil_r.
Qed.

(** ** C3: validation before any write *)






(** ** ORDER BY *)

Section ordering.
Context {A : Type} (key : A → Z).
Implicit Types l : list A.

Lemma insert_by_Permutation x l : insert_by key x l ≡ₚ x :: l.
Proof.
  induction l as [|y l IH]; cbn [insert_by]; [done|].
  destruct (key x <=? key y); [done|].
  rewrite IH. apply perm_swap.
Qed.

Lemma sort_by_Permutation l : sort_by key l ≡ₚ l.
Proof.
  induction l as [|x l IH]; cbn [sort_by]; [done|].
  by rewrite insert_by_Permutation, IH.
Qed.

Lemma length_sort_by l : length (sort_by key l) = length l.
Proof. by rewrite sort_by_Permutation. Qed.

Lemma insert_by_ordered x l : ordered_by key l → ordered_by key (insert_by key x l).
Proof.
  unfold ordered_by. induction 1 as [|y l Hl IH Hy]; cbn [insert_by].
  - repeat constructor.
  - destruct (Z.leb_spec (key x) (key y)) as [Hxy|Hxy].
    + constructor; [by constructor|].
      constructor; [done|]. eapply Forall_impl; [exact Hy|]. intros; simpl in *; lia.
    + constructor; [done|].
      rewrite insert_by_Permutation. constructor; [lia|done].
Qed.

Lemma sort_by_ordered l : ordered_by key (sort_by key l).
Proof.
  induction l as [|x l IH]; cbn [sort_by]; [constructor|].
  by apply insert_by_ordered.
Qed.

(** A list that is in order already is left as it is. *)
Lemma sort_by_id l : ordered_by key l → sort_by key l = l.
Proof.
  unfold ordered_by. induction 1 as [|x l Hl IH Hx]; cbn [sort_by]; [done|].
  rewrite IH. destruct Hx as [|y l Hxy _]; cbn [insert_by]; [done|].
  by destruct (Z.leb_spec (key x) (key y)); [|lia].
Qed.
End ordering.

Lemma ordered_by_fmap {A B} (f : A → B) (key : B → Z) (l : list A) :
  ordered_by (key ∘ f) l → ordered_by key (f <$> l).
Proof.
  unfold ordered_by. induction 1 as [|x l Hl IH Hx]; csimpl; constructor; [done|].
  by rewrite Forall_fmap.
Qed.

(** ** C9: the read feed *)

Lemma select_nested_ordered d : ordered_by m_position (select_nested d).
Proof.
  unfold select_nested. apply ordered_by_fmap.
  apply (sort_by_ordered r_position).
Qed.

Lemma select_nested_lessons d :
  Forall (λ m, ordered_by l_position (m_lessons m) ∧
               m_lessons m ≡ₚ lessons_of d (m_id m))
    (select_nested d).
Proof.
  unfold select_nested. rewrite Forall_fmap. apply Forall_true. intros r.
  simpl. split; [apply sort_by_ordered|apply sort_by_Permutation].
Qed.

Lemma select_nested_rows d : row_of <$> select_nested d ≡ₚ tbl_modules d.
Proof.
  unfold select_nested. rewrite <- list_fmap_compose.
  rewrite (list_fmap_ext _ id (sort_by r_position (tbl_modules d)))
    by (by intros ? []).
  rewrite list_fmap_id. apply sort_by_Permutation.
Qed.

Lemma sum_list_with_fmap {A B} (f : B → nat) (g : A → B) (l : list A) :
  sum_list_with f (g <$> l) = sum_list_with (f ∘ g) l.
Proof. induction l as [|x l IH]; csimpl; [done|]. by rewrite IH. Qed.

Lemma sum_list_with_ext {A} (f g : A → nat) (l : list A) :
  (∀ x, f x = g x) → sum_list_with f l = sum_list_with g l.
Proof. intros Hfg. induction l as [|x l IH]; csimpl; [done|]. by rewrite Hfg, IH. Qed.

Lemma length_transformedData modules :
  length (transformedData modules)
  = sum_list_with (λ m, length (m_lessons m)) modules.
Proof.
  unfold transformedData. induction modules as [|m modules IH]; [done|].
  rewrite bind_cons, length_app, length_fmap, IH. done.
Qed.

Lemma count_other_module (ids : list string) (l : Lesson) (lessons : list Lesson) :
  l_module_id l ∉ ids →
  sum_list_with (λ id, length (filter (λ l, l_module_id l = id) (l :: lessons))) ids
  = sum_list_with (λ id, length (filter (λ l, l_module_id l = id) lessons)) ids.
Proof.
  induction ids as [|id ids IH]; [done|].
  intros [Hne Hid]%not_elem_of_cons. cbn [sum_list_with].
  rewrite filter_cons_False by done. by rewrite IH.
Qed.

Lemma count_own_module (ids : list string) (l : Lesson) (lessons : list Lesson) :
  NoDup ids → l_module_id l ∈ ids →
  sum_list_with (λ id, length (filter (λ l, l_module_id l = id) (l :: lessons))) ids
  = S (sum_list_with (λ id, length (filter (λ l, l_module_id l = id) lessons)) ids).
Proof.
  induction 1 as [|id ids Hid Hids IH]; [by intros ?%elem_of_nil|].
  intros Hin. cbn [sum_list_with].
  destruct (decide (l_module_id l = id)) as [Heq|Hne].
  - rewrite filter_cons_True by done. cbn [length].
    rewrite count_other_module by (by rewrite Heq). lia.
  - rewrite filter_cons_False by done.
    apply elem_of_cons in Hin as [?|Hin]; [done|].
    rewrite IH by done. lia.
Qed.

(** Every lesson is counted under exactly one module. *)
Lemma lessons_partition (ids : list string) (lessons : list Lesson) :
  NoDup ids →
  (∀ l, l ∈ lessons → l_module_id l ∈ ids) →
  sum_list_with (λ id, length (filter (λ l, l_module_id l = id) lessons)) ids
  = length lessons.
Proof.
  intros Hids. induction lessons as [|l lessons IH]; intros Hfk.
  - clear Hids Hfk. by induction ids as [|id ids IHids].
  - rewrite count_own_module; [|done|apply Hfk; by left].
    cbn [length]. f_equal. apply IH. intros; apply Hfk; by right.
Qed.

Lemma feed_one_item_per_lesson d :
  store_ok d → length (transformedData (select_nested d)) = length (tbl_lessons d).
Proof.
  intros [Hids _ Hfk _]. rewrite length_transformedData.
  unfold select_nested. rewrite sum_list_with_fmap. simpl.
  rewrite (sum_list_with_ext _ (λ r, length (lessons_of d (r_id r))))
    by (intros; apply length_sort_by).
  rewrite sort_by_Permutation.
  rewrite <- (lessons_partition (module_ids d) (tbl_lessons d)) by done.
  unfold module_ids. by rewrite sum_list_with_fmap.
Qed.

(** C9. A GET on the read feed, when the store answers the query, returns
    status 200 and a JSON array built from the modules in ascending
    position, each with its lessons in ascending position: one record
    [{module, title, videoIframe, url: null}] per lesson, [videoIframe]
    being the empty string when the stored value is absent. When the query
    fails, the response is status 500 with an [{error, message}] body. *)
Theorem C9_read_feed (w : World) :
  (head (faults w) ≠ Some true →
   ∃ modules,
     (serve "GET" w).1
       = Ok (mkResponse 200 (corsHeaders ++ [("Content-Type", "application/json")])
               (BodyArray
                  (m ← modules;
                   (λ l, mkImportItem (m_name m) (l_title l)
                           (Some (or_empty (l_video_iframe l))) None)
                   <$> m_lessons m))) ∧
     row_of <$> modules ≡ₚ tbl_modules (db w) ∧
     ordered_by m_position modules ∧
     Forall (λ m, ordered_by l_position (m_lessons m) ∧
                  m_lessons m ≡ₚ lessons_of (db w) (m_id m)) modules ∧
     (store_ok (db w) →
      length (m ← modules;
              (λ l, mkImportItem (m_name m) (l_title l)
                      (Some (or_empty (l_video_iframe l))) None)
              <$> m_lessons m)
      = length (tbl_lessons (db w)))) ∧
  (head (faults w) = Some true →
   ∃ message,
     (serve "GET" w).1
       = Ok (mkResponse 500 (corsHeaders ++ [("Content-Type", "application/json")])
               (BodyError "Internal server error" message))).
Proof.
  split.
  - intros Hserved. exists (select_nested (db w)). split_and!.
    + unfold serve. cbn [String.eqb Ascii.eqb Bool.eqb].
      unfold try_catch, bind, api_select_modules, request.
      by destruct (faults w) as [|[] fs].
    + apply select_nested_rows.
    + apply select_nested_ordered.
    + apply select_nested_lessons.
    + apply feed_one_item_per_lesson.
  - intros Hrefused. exists STORE_ERROR.
    unfold serve. cbn [String.eqb Ascii.eqb Bool.eqb].
    unfold try_catch, bind, api_select_modules.
    by rewrite request_refused.
Qed.

Lemma C9_witness :
  (head (faults sample_world) ≠ Some true ∧
   ∃ modules,
     (serve "GET" sample_world).1
       = Ok (mkResponse 200 (corsHeaders ++ [("Content-Type", "application/json")])
               (BodyArray (transformedData modules))) ∧
     row_of <$> modules ≡ₚ tbl_modules sample_store ∧
     ordered_by m_position modules ∧
     Forall (λ m, ordered_by l_position (m_lessons m) ∧
                  m_lessons m ≡ₚ lessons_of sample_store (m_id m)) modules ∧
     (store_ok sample_store →
      length (transformedData modules) = length (tbl_lessons sample_store))) ∧
  (head (faults sample_world_down) = Some true ∧
   ∃ message,
     (serve "GET" sample_world_down).1
       = Ok (mkResponse 500 (corsHeaders ++ [("Content-Type", "application/json")])
               (BodyError "Internal server error" message))).
Proof.
  split.
  - split; [discriminate|].
    apply (proj1 (C9_read_feed sample_world)). discriminate.
  - split; [reflexivity|].
    apply (proj2 (C9_read_feed sample_world_down)). reflexivity.
Defined.

(** The feed of the sample store: the module at position 0 first, its
    lessons by position, absent markup as the empty string. *)
Example feed_of_sample_store :
  (serve "GET" sample_world).1
  = Ok (mkResponse 200
          [("Access-Control-Allow-Origin", "*");
           ("Access-Control-Allow-Headers",
            "authorization, x-client-info, apikey, content-type");
           ("Content-Type", "application/json")]
          (BodyArray
             [mkImportItem "First" "Intro" (Some "<iframe src='a'></iframe>") None;
              mkImportItem "First" "Details" (Some "<iframe src='b'></iframe>") None;
              mkImportItem "Second" "Outro" (Some "") None])).
Proof. reflexivity. Qed.

(** ** Identities *)

Lemma uuid_inj n1 n2 : uuid n1 = uuid n2 → n1 = n2.
Proof. unfold uuid. intros Heq%(inj (String.app "uuid-")). by apply (inj pretty). Qed.

Lemma uuid_not_sentinel n : uuid n ≠ SENTINEL.
Proof. unfold uuid, SENTINEL. simpl. discriminate. Qed.

(** ** Inserts *)

Lemma api_insert_module_inv name position w row w' :
  api_insert_module name position w = (Ok row, w') →
  row = mkModuleRow (uuid (next_uuid w)) name position ∧
  tbl_modules (db w') = tbl_modules (db w) ++ [row] ∧
  tbl_lessons (db w') = tbl_lessons (db w) ∧
  tbl_snapshots (db w') = tbl_snapshots (db w) ∧
  next_uuid w' = S (next_uuid w) ∧
  toasts w' = toasts w.
Proof.
  intros (Hexec & _ & _ & Htoasts)%request_inv.
  unfold insert_module in Hexec. injection Hexec as <- Hdb <-.
  by rewrite <- Hdb.
Qed.

Lemma api_insert_lessons_inv rows w created w' :
  api_insert_lessons rows w = (Ok created, w') →
  created = imap (new_lesson (next_uuid w)) rows ∧
  tbl_modules (db w') = tbl_modules (db w) ∧
  tbl_lessons (db w') = tbl_lessons (db w) ++ created ∧
  tbl_snapshots (db w') = tbl_snapshots (db w) ∧
  next_uuid w' = (next_uuid w + length rows)%nat ∧
  toasts w' = toasts w.
Proof.
  intros (Hexec & _ & _ & Htoasts)%request_inv.
  unfold insert_lessons in Hexec. destruct (forallb _ rows); [|done].
  injection Hexec as <- Hdb <-. by rewrite <- Hdb.
Qed.

Lemma length_lessonsToInsert lessons module_id :
  length (lessonsToInsert lessons module_id) = length lessons.
Proof. unfold lessonsToInsert. apply length_imap. Qed.

Lemma import_loop_inv entries : ∀ position w w',
  import_loop position entries w = (Ok tt, w') →
  tbl_modules (db w')
    = tbl_modules (db w) ++ (row_of <$> import_created (next_uuid w) position entries) ∧
  tbl_lessons (db w')
    = tbl_lessons (db w) ++ (import_created (next_uuid w) position entries ≫= m_lessons) ∧
  tbl_snapshots (db w') = tbl_snapshots (db w) ∧
  toasts w' = toasts w.
Proof.
  induction entries as [|[moduleName lessons] entries IH]; intros position w w'.
  - intros [= <-]. by rewrite !app_nil_r.
  - cbn [import_loop].
    intros (row & w1 & Hmod & (created & w2 & Hles & Hrest)%bind_inv_Ok)%bind_inv_Ok.
    apply api_insert_module_inv in Hmod as (-> & Hm1 & Hl1 & Hs1 & Hn1 & Ht1).
    apply api_insert_lessons_inv in Hles as (-> & Hm2 & Hl2 & Hs2 & Hn2 & Ht2).
    apply IH in Hrest as (Hm3 & Hl3 & Hs3 & Ht3).
    rewrite Hn2, Hn1, length_lessonsToInsert in Hm3, Hl3.
    cbn [import_created r_id]. rewrite fmap_cons, bind_cons.
    rewrite Hm3, Hm2, Hm1, Hl3, Hl2, Hl1, Hs3, Hs2, Hs1, Ht3, Ht2, Ht1, Hn1.
    cbn [m_lessons]. by rewrite <- !(assoc_L (++)).
Qed.

Lemma restore_loop_inv snapshotModules : ∀ w w',
  restore_loop snapshotModules w = (Ok tt, w') →
  tbl_modules (db w')
    = tbl_modules (db w) ++ (row_of <$> restore_created (next_uuid w) snapshotModules) ∧
  tbl_lessons (db w')
    = tbl_lessons (db w) ++ (restore_created (next_uuid w) snapshotModules ≫= m_lessons) ∧
  tbl_snapshots (db w') = tbl_snapshots (db w) ∧
  toasts w' = toasts w.
Proof.
  induction snapshotModules as [|moduleData rest IH]; intros w w'.
  - intros [= <-]. by rewrite !app_nil_r.
  - cbn [restore_loop].
    intros (row & w1 & Hmod & ([] & w2 & Hles & Hrest)%bind_inv_Ok)%bind_inv_Ok.
    apply api_insert_module_inv in Hmod as (-> & Hm1 & Hl1 & Hs1 & Hn1 & Ht1).
    apply IH in Hrest as (Hm3 & Hl3 & Hs3 & Ht3).
    cbn [restore_created]. rewrite fmap_cons, bind_cons. cbn [m_lessons r_id] in *.
    destruct (sm_lessons moduleData) as [[|lesson snapLessons]|] eqn:Hlessons.
    + injection Hles as <-. cbn [default length imap] in *.
      rewrite Nat.add_0_r, Hn1 in *.
      rewrite Hm3, Hm1, Hl3, Hl1, Hs3, Hs1, Ht3, Ht1.
      by rewrite <- !(assoc_L (++)).
    + apply bind_inv_Ok in Hles as (created & w1' & Hles & [= <-]).
      apply api_insert_lessons_inv in Hles as (-> & Hm2 & Hl2 & Hs2 & Hn2 & Ht2).
      cbn [default]. rewrite length_fmap, Hn1 in Hn2.
      rewrite Hn2 in Hm3, Hl3.
      rewrite Hm3, Hm2, Hm1, Hl3, Hl2, Hl1, Hs3, Hs2, Hs1, Ht3, Ht2, Ht1, Hn1.
      rewrite imap_fmap. by rewrite <- !(assoc_L (++)).
    + injection Hles as <-. cbn [default length imap] in *.
      rewrite Nat.add_0_r, Hn1 in *.
      rewrite Hm3, Hm1, Hl3, Hl1, Hs3, Hs1, Ht3, Ht1.
      by rewrite <- !(assoc_L (++)).
Qed.

Lemma api_insert_module_served name position w :
  no_faults w →
  ∃ w', api_insert_module name position w
        = (Ok (mkModuleRow (uuid (next_uuid w)) name position), w') ∧
        no_faults w' ∧
        module_ids (db w') = module_ids (db w) ++ [uuid (next_uuid w)].
Proof.
  intros Hw. unfold api_insert_module. rewrite request_served by done.
  cbn. eexists. split_and!; [done|by apply no_faults_tail|].
  unfold module_ids. cbn. by rewrite fmap_app.
Qed.

Lemma api_insert_lessons_served rows w :
  no_faults w →
  Forall (λ r, li_module_id r ∈ module_ids (db w)) rows →
  ∃ created w', api_insert_lessons rows w = (Ok created, w') ∧ no_faults w'.
Proof.
  intros Hw Hfk. unfold api_insert_lessons. rewrite request_served by done.
  unfold insert_lessons.
  replace (forallb _ rows) with true.
  - do 2 eexists. split; [done|by apply no_faults_tail].
  - symmetry. apply forallb_forall. intros r Hr%list_elem_of_In.
    apply bool_decide_eq_true. by eapply Forall_forall in Hfk.
Qed.

Lemma import_loop_served entries : ∀ position w,
  no_faults w → ∃ w', import_loop position entries w = (Ok tt, w') ∧ no_faults w'.
Proof.
  induction entries as [|[moduleName lessons] entries IH]; intros position w Hw.
  - by exists w.
  - cbn [import_loop].
    destruct (api_insert_module_served moduleName position w Hw)
      as (w1 & Hmod & Hw1 & Hids).
    rewrite (bind_Ok _ _ _ _ _ Hmod). cbn [r_id].
    destruct (api_insert_lessons_served
                (lessonsToInsert lessons (uuid (next_uuid w))) w1 Hw1)
      as (created & w2 & Hles & Hw2).
    { unfold lessonsToInsert. apply Forall_forall. intros r Hr.
      apply elem_of_lookup_imap in Hr as (i & item & -> & _). cbn.
      rewrite Hids. apply elem_of_app. right. by left. }
    rewrite (bind_Ok _ _ _ _ _ Hles). by apply IH.
Qed.

Lemma restore_loop_served snapshotModules : ∀ w,
  no_faults w → ∃ w', restore_loop snapshotModules w = (Ok tt, w') ∧ no_faults w'.
Proof.
  induction snapshotModules as [|moduleData rest IH]; intros w Hw.
  - by exists w.
  - cbn [restore_loop].
    destruct (api_insert_module_served (sm_name moduleData)
                (sm_position moduleData) w Hw) as (w1 & Hmod & Hw1 & Hids).
    rewrite (bind_Ok _ _ _ _ _ Hmod). cbn [r_id].
    destruct (sm_lessons moduleData) as [[|lesson snapLessons]|].
    + by apply IH.
    + destruct (api_insert_lessons_served
                  ((λ lesson, mkLessonInsert (sl_title lesson) (sl_video_iframe lesson)
                                (sl_position lesson) (uuid (next_uuid w)))
                   <$> lesson :: snapLessons) w1 Hw1)
        as (created & w2 & Hles & Hw2).
      { apply Forall_fmap, Forall_true. intros r. cbn. rewrite Hids. apply elem_of_app. right. by left. }
      unfold bind at 1. unfold bind at 1. rewrite Hles. by apply IH.
    + by apply IH.
Qed.

(** ** The full wipe *)

Lemma delete_all_wipes d n :
  store_ok d →
  delete_modules (IdNeq SENTINEL) d n = (Ok tt, (mkDb [] [] (tbl_snapshots d), n)).
Proof.
  intros [_ _ Hfk Hsentinel]. unfold delete_modules.
  assert (∀ r, r ∈ tbl_modules d → matches (IdNeq SENTINEL) (r_id r) = true) as Hall.
  { intros r Hr. cbn. apply negb_true_iff, String.eqb_neq. intros Heq.
    apply Hsentinel. rewrite <- Heq. unfold module_ids. by apply list_elem_of_fmap_2. }
  assert (filter (λ r, matches (IdNeq SENTINEL) (r_id r) = true) (tbl_modules d)
          = tbl_modules d) as ->.
  { clear Hfk Hsentinel. induction (tbl_modules d) as [|r rows IH]; [done|].
    rewrite filter_cons_True by (apply Hall; by left).
    f_equal. apply IH. intros; apply Hall; by right. }
  assert (filter (λ r, matches (IdNeq SENTINEL) (r_id r) = false) (tbl_modules d)
          = []) as ->.
  { clear Hfk Hsentinel. induction (tbl_modules d) as [|r rows IH]; [done|].
    rewrite filter_cons_False by (rewrite Hall by (by left); done).
    apply IH. intros; apply Hall; by right. }
  assert (filter (λ l, l_module_id l ∉ r_id <$> tbl_modules d) (tbl_lessons d)
          = []) as ->; [|done].
  clear Hall. induction (tbl_lessons d) as [|l lessons IH]; [done|].
  rewrite filter_cons_False by (intros Hnot; apply Hnot, Hfk; by left).
  apply IH. intros; apply Hfk; by right.
Qed.

Lemma try_catch_inv {A} (body : M A) handler w res w' :
  try_catch body handler w = (res, w') →
  (∃ a, body w = (Ok a, w') ∧ res = Ok a) ∨
  (∃ e w1, body w = (Throw e, w1) ∧ handler e w1 = (res, w')).
Proof.
  unfold try_catch. destruct (body w) as [[a|e] w1].
  - intros [= <- <-]. left. eauto.
  - intros Hh. right. eauto.
Qed.

Lemma failed_not_succeeded {A} description (x : A) w res w' :
  bind (toast (toast_error description)) (λ _, ret x) w = (res, w') →
  ¬ succeeded w'.
Proof.
  intros [= _ <-] (t & Hlast & Ht). cbn in Hlast.
  rewrite last_snoc in Hlast. by injection Hlast as <-.
Qed.

(** A handler of the shape [try { body; toast(success) } catch { toast(error) }]
    that has ended well has run its body to the end: [Hrun], the run of the
    handler, becomes [Hbody], the run of the body. *)
Ltac body_ran Hrun Hbody :=
  let a := fresh "a" in
  let e := fresh "e" in
  let w1 := fresh "w" in
  let Hfail := fresh "Hfail" in
  apply try_catch_inv in Hrun as [(a & Hbody & [= <-])|(e & w1 & _ & Hfail)];
  [|by apply failed_not_succeeded in Hfail].

(** ** Hierarchies and tables *)

Lemma filter_lessons_own (lessons : list Lesson) mid :
  Forall (λ l, l_module_id l = mid) lessons →
  filter (λ l, l_module_id l = mid) lessons = lessons.
Proof.
  induction 1 as [|l lessons Hl _ IH]; [done|].
  by rewrite filter_cons_True, IH.
Qed.

Lemma filter_lessons_other (lessons : list Lesson) mid mid' :
  Forall (λ l, l_module_id l = mid) lessons → mid ≠ mid' →
  filter (λ l, l_module_id l = mid') lessons = [].
Proof.
  induction 1 as [|l lessons Hl _ IH]; [done|]. intros Hne.
  rewrite filter_cons_False by congruence. by apply IH.
Qed.

Lemma filter_lessons_absent (modules : list CModule) mid :
  Forall (λ m, Forall (λ l, l_module_id l = m_id m) (m_lessons m)) modules →
  mid ∉ m_id <$> modules →
  filter (λ l, l_module_id l = mid) (modules ≫= m_lessons) = [].
Proof.
  induction 1 as [|m modules Hm _ IH]; [done|].
  rewrite fmap_cons, not_elem_of_cons. intros [Hne Hnot].
  rewrite bind_cons, filter_app, IH by done.
  by rewrite (filter_lessons_other _ (m_id m)).
Qed.

Lemma filter_lessons_present (modules : list CModule) m :
  well_nested modules → m ∈ modules →
  filter (λ l, l_module_id l = m_id m) (modules ≫= m_lessons) = m_lessons m.
Proof.
  intros [Hids Hles]. revert Hids.
  induction Hles as [|m0 modules Hm0 Hles IH]; [by intros _ ?%elem_of_nil|].
  rewrite fmap_cons, NoDup_cons. intros [Hnot Hids].
  rewrite bind_cons, filter_app.
  intros [->|Hin]%elem_of_cons.
  - rewrite filter_lessons_own, filter_lessons_absent by done.
    apply app_nil_r.
  - rewrite IH by done.
    rewrite (filter_lessons_other _ (m_id m0)); [done..|].
    intros Heq. apply Hnot. rewrite Heq. by apply list_elem_of_fmap_2.
Qed.

Lemma nested_tables modules snapshots :
  well_nested modules →
  nested (mkDb (row_of <$> modules) (modules ≫= m_lessons) snapshots) = modules.
Proof.
  intros Hwf. unfold nested, lessons_of. cbn [tbl_modules tbl_lessons].
  rewrite <- list_fmap_compose.
  etrans; [|apply list_fmap_id].
  apply Forall_fmap_ext, Forall_forall. intros m Hm. cbn.
  rewrite filter_lessons_present by done. by destruct m.
Qed.

Lemma select_nested_tables modules snapshots :
  well_nested modules →
  ordered_by m_position modules →
  Forall (λ m, ordered_by l_position (m_lessons m)) modules →
  select_nested (mkDb (row_of <$> modules) (modules ≫= m_lessons) snapshots)
  = modules.
Proof.
  intros Hwf Hord Hles. unfold select_nested, lessons_of.
  cbn [tbl_modules tbl_lessons].
  rewrite sort_by_id by (by apply ordered_by_fmap).
  rewrite <- list_fmap_compose.
  etrans; [|apply list_fmap_id].
  apply Forall_fmap_ext, Forall_forall. intros m Hm. cbn.
  rewrite filter_lessons_present by done.
  rewrite sort_by_id by (by eapply Forall_forall in Hles).
  by destruct m.
Qed.

Lemma imap_same {A} (f : nat → A → A) (l : list A) :
  (∀ i x, f i x = x) → imap f l = l.
Proof.
  revert f. induction l as [|x l IH]; intros f Hf; [done|].
  rewrite imap_cons, Hf. f_equal. apply IH. intros; apply Hf.
Qed.

Lemma imap_imap {A B C} (f : nat → B → C) (g : nat → A → B) (l : list A) :
  imap f (imap g l) = imap (λ i x, f i (g i x)) l.
Proof.
  revert f g. induction l as [|x l IH]; intros f g; [done|].
  rewrite !imap_cons. f_equal. apply IH.
Qed.

(** ** What a restore creates *)

Lemma restore_created_ids snapshotModules : ∀ n m,
  m ∈ restore_created n snapshotModules →
  ∃ k, (n ≤ k)%nat ∧ m_id m = uuid k.
Proof.
  induction snapshotModules as [|moduleData rest IH]; intros n m.
  - by intros ?%elem_of_nil.
  - cbn [restore_created]. intros [->|Hin]%elem_of_cons.
    + by exists n.
    + apply IH in Hin as (k & Hk & ->). exists k. split; [lia|done].
Qed.

Lemma restore_created_well_nested snapshotModules : ∀ n,
  well_nested (restore_created n snapshotModules).
Proof.
  induction snapshotModules as [|moduleData rest IH]; intros n.
  - split; constructor.
  - destruct (IH (S n + length (default [] (sm_lessons moduleData)))%nat)
      as [Hids Hles].
    cbn [restore_created]. split.
    + rewrite fmap_cons. constructor; [|done].
      intros (m & Hid & Hm)%list_elem_of_fmap.
      apply restore_created_ids in Hm as (k & Hk & Hmk).
      cbn in Hid. rewrite Hmk in Hid. apply uuid_inj in Hid. lia.
    + constructor; [|done]. cbn.
      apply Forall_forall. by intros l (i & lesson & -> & _)%elem_of_lookup_imap.
Qed.

Lemma restore_created_snapshot snapshotModules : ∀ n,
  snapshotModule <$> restore_created n snapshotModules
  = (λ moduleData, mkSnapModule (sm_name moduleData) (sm_position moduleData)
                     (Some (default [] (sm_lessons moduleData))))
    <$> snapshotModules.
Proof.
  induction snapshotModules as [|moduleData rest IH]; intros n; [done|].
  cbn [restore_created]. rewrite !fmap_cons, IH. f_equal.
  unfold snapshotModule. cbn. do 2 f_equal.
  rewrite fmap_imap. apply imap_same. by intros ? [].
Qed.


Lemma import_created_as_restore entries : ∀ n position,
  import_created n position entries
  = restore_created n (entries_snapshot position entries).
Proof.
  induction entries as [|[moduleName lessons] entries IH]; intros n position; [done|].
  cbn [import_created entries_snapshot restore_created sm_lessons default
       sm_name sm_position id].
  rewrite length_imap, IH. f_equal. f_equal.
  unfold lessonsToInsert. by rewrite !imap_imap.
Qed.

(** ** Bulk replace: what a successful run leaves in the store *)

Lemma api_delete_all_inv w w' :
  store_ok (db w) →
  api_delete_modules (IdNeq SENTINEL) w = (Ok tt, w') →
  db w' = mkDb [] [] (tbl_snapshots (db w)) ∧
  next_uuid w' = next_uuid w ∧ toasts w' = toasts w.
Proof.
  intros Hok (Hexec & _ & _ & Htoasts)%request_inv.
  rewrite delete_all_wipes in Hexec by done.
  by injection Hexec as <- <-.
Qed.

Lemma restoreSnapshot_inv snapshot modules w modules' w' :
  store_ok (db w) →
  restoreSnapshot snapshot modules w = (Ok modules', w') →
  succeeded w' →
  db w' = mkDb
            (row_of <$> restore_created (next_uuid w)
                          (default [] (sd_modules (s_data snapshot))))
            (restore_created (next_uuid w)
               (default [] (sd_modules (s_data snapshot))) ≫= m_lessons)
            (tbl_snapshots (db w)) ∧
  (modules' = select_nested (db w') ∨ modules' = modules).
Proof.
  intros Hok Hrun Hsucc. unfold restoreSnapshot in Hrun.
  body_ran Hrun Hbody.
  apply bind_inv_Ok in Hbody as ([] & w1 & Hdel & Hbody).
  apply bind_inv_Ok in Hbody as ([] & w2 & Hloop & Hbody).
  apply bind_inv_Ok in Hbody as (fetched & w3 & Hfetch & Hbody).
  apply bind_inv_Ok in Hbody as ([] & w4 & Htoast & [= <- <-]).
  apply api_delete_all_inv in Hdel as (Hdb1 & Hn1 & _); [|done].
  apply restore_loop_inv in Hloop as (Hm & Hl & Hs & _).
  rewrite Hdb1, Hn1 in Hm, Hl. rewrite Hdb1 in Hs. cbn in Hm, Hl, Hs.
  rewrite fetchModules_run in Hfetch. injection Hfetch as <- <-.
  injection Htoast as <-. cbn [db].
  split.
  - destruct (db w2). cbn in *. by subst.
  - destruct (default false (head (faults w2))); eauto.
Qed.

Lemma processImport_inv st items modules w st' modules' w' :
  previewData st = Some items →
  store_ok (db w) →
  processImport st modules w = (Ok (st', modules'), w') →
  succeeded w' →
  db w' = mkDb
            (row_of <$> import_created (next_uuid w) 0 (group_by_module items))
            (import_created (next_uuid w) 0 (group_by_module items) ≫= m_lessons)
            (tbl_snapshots (db w)) ∧
  (modules' = select_nested (db w') ∨ modules' = modules).
Proof.
  intros Hitems Hok Hrun Hsucc. unfold processImport in Hrun. rewrite Hitems in Hrun.
  body_ran Hrun Hbody.
  apply bind_inv_Ok in Hbody as ([] & w1 & Hdel & Hbody).
  apply bind_inv_Ok in Hbody as ([] & w2 & Hloop & Hbody).
  apply bind_inv_Ok in Hbody as (fetched & w3 & Hfetch & Hbody).
  apply bind_inv_Ok in Hbody as ([] & w4 & Htoast & [= _ <- <-]).
  apply api_delete_all_inv in Hdel as (Hdb1 & Hn1 & _); [|done].
  apply import_loop_inv in Hloop as (Hm & Hl & Hs & _).
  rewrite Hdb1, Hn1 in Hm, Hl. rewrite Hdb1 in Hs. cbn in Hm, Hl, Hs.
  rewrite fetchModules_run in Hfetch. injection Hfetch as <- <-.
  injection Htoast as <-. cbn [db].
  split.
  - destruct (db w2). cbn in *. by subst.
  - destruct (default false (head (faults w2))); eauto.
Qed.

Lemma sample_store_ok : store_ok sample_store.
Proof.
  split.
  - compute_done.
  - compute_done.
  - intros l Hl. revert l Hl. apply Forall_forall. compute_done.
  - compute_done.
Qed.

(** ** A store that serves every request lets the bulk paths succeed *)

Lemma api_delete_modules_served f w :
  no_faults w → ∃ w', api_delete_modules f w = (Ok tt, w') ∧ no_faults w'.
Proof.
  intros Hw. unfold api_delete_modules. rewrite request_served by done.
  cbn. eexists. split; [done|]. by apply no_faults_tail.
Qed.

Lemma fetchModules_served modules w :
  no_faults w →
  fetchModules modules w
  = (Ok (select_nested (db w)),
     mkWorld (db w) (next_uuid w) (tail (faults w)) (log w ++ [SelectModules])
       (toasts w)).
Proof.
  intros Hw. rewrite fetchModules_run.
  destruct Hw as [|b fs -> _]; cbn; by rewrite app_nil_r.
Qed.

Lemma processImport_served st items modules w :
  previewData st = Some items →
  no_faults w →
  ∃ st' w',
    processImport st modules w = (Ok (st', select_nested (db w')), w') ∧
    succeeded w'.
Proof.
  intros Hitems Hw. unfold processImport. rewrite Hitems. unfold try_catch.
  destruct (api_delete_modules_served (IdNeq SENTINEL) w Hw) as (w1 & Hdel & Hw1).
  rewrite (bind_Ok _ _ _ _ _ Hdel).
  destruct (import_loop_served (group_by_module items) 0 w1 Hw1) as (w2 & Hloop & Hw2).
  rewrite (bind_Ok _ _ _ _ _ Hloop).
  rewrite (bind_Ok _ _ _ _ _ (fetchModules_served modules w2 Hw2)).
  cbn. eexists _, (mkWorld (db w2) _ _ _ _). split; [reflexivity|].
  eexists. cbn. by rewrite last_snoc.
Qed.

Lemma restoreSnapshot_served snapshot modules w :
  no_faults w →
  ∃ w',
    restoreSnapshot snapshot modules w = (Ok (select_nested (db w')), w') ∧
    succeeded w'.
Proof.
  intros Hw. unfold restoreSnapshot, try_catch.
  destruct (api_delete_modules_served (IdNeq SENTINEL) w Hw) as (w1 & Hdel & Hw1).
  rewrite (bind_Ok _ _ _ _ _ Hdel).
  destruct (restore_loop_served (default [] (sd_modules (s_data snapshot))) w1 Hw1)
    as (w2 & Hloop & Hw2).
  rewrite (bind_Ok _ _ _ _ _ Hloop).
  rewrite (bind_Ok _ _ _ _ _ (fetchModules_served modules w2 Hw2)).
  cbn. eexists (mkWorld (db w2) _ _ _ _). split; [reflexivity|].
  eexists. cbn. by rewrite last_snoc.
Qed.

(** ** C6: grouping by first-seen module name *)

(** C6. Importing the batch M1/L1, M2/L2, M1/L3 leaves exactly two modules
    in the store, "M1" at position 0 and "M2" at position 1 (first-seen
    order), with L1 and L3 under M1 at positions 0 and 1 and L2 under M2 at
    position 0; a record without video markup is stored with the empty
    string. *)
Theorem C6_import_groups_in_first_seen_order
    (st st' : ImportState) (modules modules' : list CModule) (w w' : World) :
  previewData st = Some sample_batch →
  store_ok (db w) →
  processImport st modules w = (Ok (st', modules'), w') →
  succeeded w' →
  let n := next_uuid w in
  group_by_module sample_batch
    = [("M1", [mkImportItem "M1" "L1" None None; mkImportItem "M1" "L3" None None]);
       ("M2", [mkImportItem "M2" "L2" None None])] ∧
  tbl_modules (db w')
    = [mkModuleRow (uuid n) "M1" 0; mkModuleRow (uuid (n + 3)) "M2" 1] ∧
  tbl_lessons (db w')
    = [mkLesson (uuid (n + 1)) "L1" (Some "") 0 (uuid n);
       mkLesson (uuid (n + 2)) "L3" (Some "") 1 (uuid n);
       mkLesson (uuid (n + 4)) "L2" (Some "") 0 (uuid (n + 3))].
Proof.
  intros Hitems Hok Hrun Hsucc n.
  destruct (processImport_inv _ _ _ _ _ _ _ Hitems Hok Hrun Hsucc) as [-> _].
  split; [done|]. subst n. cbn. unfold new_lesson, row_of. cbn.
  replace (S (S (next_uuid w + 2 + 0))) with (next_uuid w + 4)%nat by lia.
  replace (S (next_uuid w + 2)) with (next_uuid w + 3)%nat by lia.
  replace (S (next_uuid w + 0)) with (next_uuid w + 1)%nat by lia.
  replace (S (next_uuid w + 1)) with (next_uuid w + 2)%nat by lia.
  done.
Qed.

Lemma C6_witness :
  let st := mkImportState "[...]" (Some sample_batch) "" true in
  let r := processImport st [] sample_world in
  previewData st = Some sample_batch ∧
  store_ok (db sample_world) ∧
  succeeded r.2 ∧
  tbl_modules (db r.2)
    = [mkModuleRow (uuid 100) "M1" 0; mkModuleRow (uuid 103) "M2" 1] ∧
  tbl_lessons (db r.2)
    = [mkLesson (uuid 101) "L1" (Some "") 0 (uuid 100);
       mkLesson (uuid 102) "L3" (Some "") 1 (uuid 100);
       mkLesson (uuid 104) "L2" (Some "") 0 (uuid 103)].
Proof.
  intros st r.
  assert (succeeded r.2) as Hsucc.
  { exists (toast_success "Imported 2 modules with 3 lessons"). by vm_compute. }
  split_and!; [done|exact sample_store_ok|done|..];
    refine (_ (C6_import_groups_in_first_seen_order st
                 (value_of (st, []) r.1).1 [] (value_of (st, []) r.1).2
                 sample_world r.2 eq_refl sample_store_ok _ Hsucc));
    [intros (_ & H & _); exact H|by vm_compute
    |intros (_ & _ & H); exact H|by vm_compute].
Defined.

(** ** C7: capture, then restore *)

Lemma ordered_by_positions {A} (key : A → Z) (l : list A) :
  ordered_by key l ↔ StronglySorted Z.le (key <$> l).
Proof.
  unfold ordered_by. induction l as [|x l IH]; csimpl.
  - split; constructor.
  - split; intros [Hl Hx]%StronglySorted_inv; constructor.
    + by apply IH.
    + by rewrite Forall_fmap.
    + by apply IH.
    + by rewrite Forall_fmap in Hx.
Qed.

Lemma module_positions_captured (modules : list CModule) :
  m_position <$> modules = sm_position <$> (snapshotModule <$> modules).
Proof. by rewrite <- list_fmap_compose. Qed.

Lemma lesson_positions_captured (m : CModule) :
  l_position <$> m_lessons m
  = sl_position <$> default [] (sm_lessons (snapshotModule m)).
Proof. cbn. by rewrite <- list_fmap_compose. Qed.






(** ** Grouping by module name *)

Lemma map_push_new key item (moduleMap : list (string * list ImportItem)) :
  key ∉ moduleMap.*1 → map_push key item moduleMap = moduleMap ++ [(key, [item])].
Proof.
  induction moduleMap as [|[k v] moduleMap IH]; [done|].
  rewrite fmap_cons, not_elem_of_cons. intros [Hne Hnot].
  cbn [map_push]. rewrite (proj2 (String.eqb_neq _ _)) by done.
  by rewrite IH.
Qed.

Lemma map_push_last key item v (moduleMap : list (string * list ImportItem)) :
  key ∉ moduleMap.*1 →
  map_push key item (moduleMap ++ [(key, v)]) = moduleMap ++ [(key, v ++ [item])].
Proof.
  induction moduleMap as [|[k v'] moduleMap IH].
  - intros _. cbn. by rewrite String.eqb_refl.
  - rewrite fmap_cons, not_elem_of_cons. intros [Hne Hnot].
    cbn [map_push app]. rewrite (proj2 (String.eqb_neq _ _)) by done.
    by rewrite IH.
Qed.

Lemma push_group_last key items : ∀ v (moduleMap : list (string * list ImportItem)),
  key ∉ moduleMap.*1 →
  Forall (λ item, module item = key) items →
  fold_left (λ moduleMap item, map_push (module item) item moduleMap) items
    (moduleMap ++ [(key, v)])
  = moduleMap ++ [(key, v ++ items)].
Proof.
  induction items as [|item items IH]; intros v moduleMap Hnot Hitems.
  - by rewrite app_nil_r.
  - apply Forall_cons in Hitems as [Hitem Hitems]. cbn [fold_left].
    rewrite Hitem, map_push_last, IH by done.
    by rewrite <- (assoc_L (++)).
Qed.

Lemma push_group key items (moduleMap : list (string * list ImportItem)) :
  key ∉ moduleMap.*1 →
  Forall (λ item, module item = key) items →
  items ≠ [] →
  fold_left (λ moduleMap item, map_push (module item) item moduleMap) items moduleMap
  = moduleMap ++ [(key, items)].
Proof.
  intros Hnot Hitems Hne. destruct items as [|item items]; [done|].
  apply Forall_cons in Hitems as [Hitem Hitems]. cbn [fold_left].
  rewrite Hitem, map_push_new by done. by apply push_group_last.
Qed.

Lemma items_of_module moduleData :
  Forall (λ item, module item = sm_name moduleData) (items_of moduleData).
Proof. unfold items_of. apply Forall_fmap, Forall_true. done. Qed.

Lemma push_snapshot_items snapshotModules :
  ∀ moduleMap : list (string * list ImportItem),
  NoDup (moduleMap.*1 ++ (sm_name <$> filter has_lessons snapshotModules)) →
  fold_left (λ moduleMap item, map_push (module item) item moduleMap)
    (snapshot_items snapshotModules) moduleMap
  = moduleMap ++ ((λ sm, (sm_name sm, items_of sm))
                  <$> filter has_lessons snapshotModules).
Proof.
  unfold snapshot_items.
  induction snapshotModules as [|sm rest IH]; intros moduleMap Hnodup.
  - by rewrite app_nil_r.
  - rewrite bind_cons, fold_left_app.
    destruct (decide (has_lessons sm)) as [Hsm|Hsm].
    + rewrite filter_cons_True in Hnodup |- * by done.
      rewrite fmap_cons in Hnodup. rewrite fmap_cons.
      rewrite (push_group (sm_name sm) (items_of sm)).
      * rewrite IH; [by rewrite <- (assoc_L (++))|].
        rewrite fmap_app. cbn. by rewrite <- (assoc_L (++)).
      * apply NoDup_app in Hnodup as (_ & Hnot & _).
        intros Hin. apply (Hnot _ Hin). by left.
      * apply items_of_module.
      * unfold items_of. intros Hnil%fmap_nil_inv. done.
    + rewrite filter_cons_False in Hnodup |- * by done.
      assert (items_of sm = []) as ->.
      { unfold items_of, has_lessons in *.
        destruct (default [] (sm_lessons sm)); [done|]. by destruct Hsm. }
      by apply IH.
Qed.

Lemma group_snapshot_items snapshotModules :
  NoDup (sm_name <$> filter has_lessons snapshotModules) →
  group_by_module (snapshot_items snapshotModules)
  = (λ sm, (sm_name sm, items_of sm)) <$> filter has_lessons snapshotModules.
Proof. intros Hnodup. unfold group_by_module. by rewrite push_snapshot_items. Qed.

(** ** Positions written by the two bulk paths *)

Lemma entries_snapshot_positions entries : ∀ k,
  sm_position <$> entries_snapshot (Z.of_nat k) entries
  = Z.of_nat <$> seq k (length entries).
Proof.
  induction entries as [|[moduleName lessons] entries IH]; intros k; [done|].
  cbn [entries_snapshot length seq]. rewrite !fmap_cons. f_equal.
  replace (Z.of_nat k + 1) with (Z.of_nat (S k)) by lia. apply IH.
Qed.

Lemma imap_positions {A B} (f : nat → A → B) (key : B → Z) (l : list A) :
  (∀ i x, key (f i x) = Z.of_nat i) →
  key <$> imap f l = Z.of_nat <$> seq 0 (length l).
Proof.
  intros Hkey. rewrite fmap_imap.
  rewrite (imap_ext _ (λ i _, Z.of_nat i)) by (intros; apply Hkey).
  apply imap_seq_0.
Qed.

Lemma length_entries_snapshot entries : ∀ position,
  length (entries_snapshot position entries) = length entries.
Proof.
  induction entries as [|[moduleName lessons] entries IH]; intros position; [done|].
  cbn [entries_snapshot length]. by rewrite IH.
Qed.

Lemma entries_snapshot_lessons entries : ∀ position,
  Forall (λ sm, sl_position <$> default [] (sm_lessons sm)
                = Z.of_nat <$> seq 0 (length (default [] (sm_lessons sm))))
    (entries_snapshot position entries).
Proof.
  induction entries as [|[moduleName lessons] entries IH]; intros position.
  - constructor.
  - cbn [entries_snapshot]. constructor; [|apply IH].
    cbn [sm_lessons default id]. rewrite length_imap. by apply imap_positions.
Qed.

Lemma entries_snapshot_ordinal entries :
  ordinal_positions (entries_snapshot 0 entries).
Proof.
  split.
  - rewrite length_entries_snapshot. apply (entries_snapshot_positions entries 0).
  - apply entries_snapshot_lessons.
Qed.

Lemma entries_snapshot_names entries : ∀ position,
  sm_name <$> entries_snapshot position entries = entries.*1.
Proof.
  induction entries as [|[moduleName lessons] entries IH]; intros position; [done|].
  cbn [entries_snapshot]. by rewrite !fmap_cons, IH.
Qed.

(** A snapshot with ordinal positions is the snapshot of its own flat
    records, grouped. *)
Lemma entries_snapshot_of_items snapshotModules : ∀ k,
  sm_position <$> snapshotModules = Z.of_nat <$> seq k (length snapshotModules) →
  Forall (λ sm, sl_position <$> default [] (sm_lessons sm)
                = Z.of_nat <$> seq 0 (length (default [] (sm_lessons sm))))
    snapshotModules →
  Forall (λ sm, ∃ lessons, sm_lessons sm = Some lessons ∧ lessons ≠ [])
    snapshotModules →
  Forall (λ sm, Forall (λ lesson, is_Some (sl_video_iframe lesson))
                  (default [] (sm_lessons sm)))
    snapshotModules →
  entries_snapshot (Z.of_nat k) ((λ sm, (sm_name sm, items_of sm)) <$> snapshotModules)
  = snapshotModules.
Proof.
  induction snapshotModules as [|sm rest IH]; intros k Hpos Hord Hles Hmarkup; [done|].
  rewrite fmap_cons. cbn [entries_snapshot].
  cbn [length seq] in Hpos. rewrite !fmap_cons in Hpos. injection Hpos as Hp Hpos.
  apply Forall_cons in Hord as [Hord0 Hord], Hles as [(lessons & Hsome & _) Hles],
    Hmarkup as [Hmarkup0 Hmarkup].
  replace (Z.of_nat k + 1) with (Z.of_nat (S k)) by lia.
  rewrite IH by done. f_equal.
  destruct sm as [name position lessons0]. cbn in *. subst lessons0 position.
  do 2 f_equal. unfold items_of. cbn [sm_lessons default id sm_name].
  rewrite imap_fmap.
  rewrite (imap_ext _ (λ _ lesson, lesson)); [by apply imap_same|].
  intros i lesson Hi. cbn.
  rewrite Forall_lookup in Hmarkup0. destruct (Hmarkup0 _ _ Hi) as [markup Hm].
  apply (f_equal (.!! i)) in Hord0.
  cbn [from_option id] in Hord0. rewrite !list_lookup_fmap, Hi in Hord0.
  rewrite lookup_seq_lt in Hord0 by (by eapply lookup_lt_Some).
  injection Hord0 as Hposition.
  destruct lesson as [t v p]. cbn in *. by subst.
Qed.

Lemma restore_created_captured_names snapshotModules n :
  m_name <$> restore_created n snapshotModules = sm_name <$> snapshotModules.
Proof.
  change m_name with (sm_name ∘ snapshotModule).
  rewrite list_fmap_compose, restore_created_snapshot.
  by rewrite <- list_fmap_compose.
Qed.

Lemma restore_module_positions snapshotModules n snapshots :
  module_positions
    (mkDb (row_of <$> restore_created n snapshotModules)
       (restore_created n snapshotModules ≫= m_lessons) snapshots)
  = sm_position <$> snapshotModules.
Proof.
  unfold module_positions. cbn [tbl_modules].
  rewrite <- list_fmap_compose.
  change (r_position ∘ row_of) with m_position.
  rewrite module_positions_captured, restore_created_snapshot.
  by rewrite <- list_fmap_compose.
Qed.

Lemma restore_lesson_positions snapshotModules n snapshots mid :
  let d := mkDb (row_of <$> restore_created n snapshotModules)
             (restore_created n snapshotModules ≫= m_lessons) snapshots in
  lesson_positions d mid = [] ∨
  ∃ sm, sm ∈ snapshotModules ∧
        lesson_positions d mid = sl_position <$> default [] (sm_lessons sm).
Proof.
  intros d. unfold lesson_positions, lessons_of, d. cbn [tbl_lessons].
  pose proof (restore_created_well_nested snapshotModules n) as Hwf.
  destruct (decide (mid ∈ m_id <$> restore_created n snapshotModules)) as [Hin|Hnot].
  - right. apply list_elem_of_fmap in Hin as (m & -> & Hm).
    rewrite filter_lessons_present by done.
    apply (list_elem_of_fmap_2 snapshotModule) in Hm.
    rewrite restore_created_snapshot in Hm.
    apply list_elem_of_fmap in Hm as (sm & Hsm & Hin).
    exists sm. split; [done|].
    rewrite lesson_positions_captured, Hsm. done.
  - left. rewrite filter_lessons_absent; [done|apply Hwf|done].
Qed.

Lemma importable_all_have_lessons snapshotModules :
  importable snapshotModules → filter has_lessons snapshotModules = snapshotModules.
Proof.
  intros [_ Hles _]. induction Hles as [|sm rest (lessons & Hsome & Hne) _ IH]; [done|].
  rewrite filter_cons_True, IH; [done|].
  unfold has_lessons. by rewrite Hsome.
Qed.

(** For a snapshot that flat records can express and whose positions are
    ordinal, the import of its flat records creates what its restore
    creates. *)
Lemma import_created_of_snapshot snapshotModules n :
  importable snapshotModules → ordinal_positions snapshotModules →
  import_created n 0 (group_by_module (snapshot_items snapshotModules))
  = restore_created n snapshotModules.
Proof.
  intros Himp [Hpos Hord].
  pose proof (importable_all_have_lessons _ Himp) as Hall.
  destruct Himp as [Hnames Hles Hmarkup].
  rewrite import_created_as_restore, group_snapshot_items by (by rewrite Hall).
  rewrite Hall. f_equal.
  by apply (entries_snapshot_of_items snapshotModules 0).
Qed.

(** ** C2: the two bulk paths *)

(** C2, as the code has it. The import path derives every position from
    array order: modules are created in first-seen order of their names
    with positions 0, 1, ..., and the lessons of each module have positions
    0, 1, ... in the order of the input. The restore path does not: it
    writes the position values stored in the snapshot. The two paths leave
    the same store when the snapshot's stored positions are the array
    indices (and flat records can express it: distinct module names, no
    module without lessons, video markup a string). *)
Theorem C2_import_rederives_restore_replays
    (st st' : ImportState) (items : list ImportItem) (snapshot : Snapshot)
    (modules imported restored : list CModule) (w w1 w2 : World) :
  store_ok (db w) →
  previewData st = Some items →
  processImport st modules w = (Ok (st', imported), w1) →
  succeeded w1 →
  restoreSnapshot snapshot modules w = (Ok restored, w2) →
  succeeded w2 →
  let snapshotModules := default [] (sd_modules (s_data snapshot)) in
  (r_name <$> tbl_modules (db w1) = (group_by_module items).*1 ∧
   module_positions (db w1)
     = Z.of_nat <$> seq 0 (length (group_by_module items)) ∧
   ∀ mid, lesson_positions (db w1) mid
          = Z.of_nat <$> seq 0 (length (lessons_of (db w1) mid))) ∧
  (module_positions (db w2) = sm_position <$> snapshotModules ∧
   ∀ mid, lesson_positions (db w2) mid = [] ∨
          ∃ sm, sm ∈ snapshotModules ∧
                lesson_positions (db w2) mid
                = sl_position <$> default [] (sm_lessons sm)) ∧
  (items = snapshot_items snapshotModules →
   importable snapshotModules →
   ordinal_positions snapshotModules →
   db w1 = db w2).
Proof.
  intros Hok Hitems Himport Hsucc1 Hrestore Hsucc2 snapshotModules.
  destruct (processImport_inv _ _ _ _ _ _ _ Hitems Hok Himport Hsucc1) as [Hdb1 _].
  destruct (restoreSnapshot_inv _ _ _ _ _ Hok Hrestore Hsucc2) as [Hdb2 _].
  fold snapshotModules in Hdb2.
  rewrite import_created_as_restore in Hdb1.
  pose proof (entries_snapshot_ordinal (group_by_module items)) as [Hpos Hord].
  split_and!.
  - rewrite Hdb1. cbn [tbl_modules]. rewrite <- list_fmap_compose.
    change (r_name ∘ row_of) with m_name.
    rewrite <- (entries_snapshot_names (group_by_module items) 0).
    rewrite <- (restore_created_captured_names _ (next_uuid w)). done.
  - rewrite Hdb1, restore_module_positions, Hpos.
    by rewrite length_entries_snapshot.
  - intros mid. rewrite Hdb1.
    destruct (restore_lesson_positions (entries_snapshot 0 (group_by_module items))
                (next_uuid w) (tbl_snapshots (db w)) mid)
      as [Hnil|(sm & Hsm & Heq)].
    + rewrite Hnil. unfold lesson_positions in Hnil.
      apply fmap_nil_inv in Hnil. by rewrite Hnil.
    + rewrite Heq. rewrite Forall_forall in Hord. rewrite (Hord _ Hsm).
      do 2 f_equal. apply (f_equal length) in Heq.
      unfold lesson_positions in Heq. by rewrite !length_fmap in Heq.
  - rewrite Hdb2. apply restore_module_positions.
  - intros mid. rewrite Hdb2. apply restore_lesson_positions.
  - intros -> Himp Hordinal. rewrite Hdb1, Hdb2.
    rewrite <- import_created_as_restore.
    by rewrite import_created_of_snapshot.
Qed.

Lemma C2_witness :
  let snapshotModules := default [] (sd_modules (s_data sample_ordinal_snapshot)) in
  let st := import_state (snapshot_items snapshotModules) in
  let imported := processImport st [] sample_world in
  let restored := restoreSnapshot sample_ordinal_snapshot [] sample_world in
  store_ok (db sample_world) ∧
  succeeded imported.2 ∧
  succeeded restored.2 ∧
  importable snapshotModules ∧
  ordinal_positions snapshotModules ∧
  module_positions (db imported.2) = [0; 1] ∧
  db imported.2 = db restored.2.
Proof.
  intros snapshotModules st imported restored.
  assert (succeeded imported.2) as Hsucc1.
  { exists (toast_success "Imported 2 modules with 3 lessons"). by vm_compute. }
  assert (succeeded restored.2) as Hsucc2.
  { exists (toast_success "Snapshot restored successfully"). by vm_compute. }
  assert (importable snapshotModules) as Himp.
  { split.
    - compute_done.
    - repeat constructor; eexists; by split.
    - repeat constructor; by eexists. }
  assert (ordinal_positions snapshotModules) as Hord.
  { split; [reflexivity|]. by repeat constructor. }
  pose proof (C2_import_rederives_restore_replays st
                (value_of (st, []) imported.1).1 (snapshot_items snapshotModules)
                sample_ordinal_snapshot [] (value_of (st, []) imported.1).2
                (value_of [] restored.1) sample_world imported.2 restored.2
                sample_store_ok eq_refl)
    as Hclaim.
  destruct Hclaim as ((_ & Hpositions & _) & _ & Hagree);
    [by vm_compute|done|by vm_compute|done|].
  split_and!; [exact sample_store_ok|done..|exact Hpositions|by apply Hagree].
Defined.

(** C2 fails for a snapshot whose stored positions are not the array
    indices: its one module carries position 1, and the restore writes 1
    where the import of the same module and lesson writes 0. *)
Lemma C2_counterexample :
  let snapshotModules := default [] (sd_modules (s_data sample_gap_snapshot)) in
  let imported :=
    processImport (import_state (snapshot_items snapshotModules)) [] sample_world in
  let restored := restoreSnapshot sample_gap_snapshot [] sample_world in
  snapshot_items snapshotModules = [mkImportItem "M1" "L1" (Some "") None] ∧
  succeeded imported.2 ∧
  succeeded restored.2 ∧
  r_name <$> tbl_modules (db imported.2) = ["M1"] ∧
  r_name <$> tbl_modules (db restored.2) = ["M1"] ∧
  module_positions (db imported.2) = [0] ∧
  module_positions (db restored.2) = [1].
Proof.
  intros snapshotModules imported restored. split_and!; try reflexivity.
  - exists (toast_success "Imported 1 modules with 1 lessons"). by vm_compute.
  - exists (toast_success "Snapshot restored successfully"). by vm_compute.
Qed.

(** ** C8: export, then import *)

Lemma validate_from_reparsed items : ∀ i0,
  Forall (λ item, module item ≠ "" ∧ title item ≠ "") items →
  validate_from i0 ((λ item, Some (raw_of item)) <$> items) = Valid items.
Proof.
  induction items as [|item items IH]; intros i0 Hitems; [done|].
  apply Forall_cons in Hitems as [[Hm Ht] Hitems].
  rewrite fmap_cons. cbn [validate_from raw_of raw_module raw_title truthy].
  rewrite (proj2 (String.eqb_neq _ _) Hm), (proj2 (String.eqb_neq _ _) Ht).
  cbn [negb orb]. rewrite IH by done. by destruct item.
Qed.

Lemma validateAndPreview_reparsed JSON_parse st items :
  is_blank (jsonInput st) = false →
  JSON_parse (jsonInput st) = Some (reparsed items) →
  Forall (λ item, module item ≠ "" ∧ title item ≠ "") items →
  previewData (validateAndPreview JSON_parse st) = Some items.
Proof.
  intros Hblank Hparse Hitems. unfold validateAndPreview.
  rewrite Hblank, Hparse. unfold reparsed.
  by rewrite validate_from_reparsed.
Qed.

Lemma exportData_as_snapshot_items modules :
  exportData modules = snapshot_items (snapshotModule <$> modules).
Proof.
  unfold exportData, snapshot_items.
  induction modules as [|m modules IH]; [done|].
  rewrite fmap_cons, !bind_cons, IH. f_equal.
  unfold items_of. cbn. by rewrite <- list_fmap_compose.
Qed.

Lemma snapshot_items_with_lessons snapshotModules :
  snapshot_items (filter has_lessons snapshotModules)
  = snapshot_items snapshotModules.
Proof.
  unfold snapshot_items. induction snapshotModules as [|sm rest IH]; [done|].
  rewrite filter_cons, bind_cons.
  destruct (decide (has_lessons sm)) as [Hsm|Hsm].
  - by rewrite bind_cons, IH.
  - rewrite IH. unfold items_of, has_lessons in *.
    destruct (default [] (sm_lessons sm)); [done|]. by destruct Hsm.
Qed.

Lemma snapshot_items_defaulted snapshotModules :
  snapshot_items
    ((λ sm, mkSnapModule (sm_name sm) (sm_position sm)
              (Some (default [] (sm_lessons sm)))) <$> snapshotModules)
  = snapshot_items snapshotModules.
Proof.
  unfold snapshot_items. induction snapshotModules as [|sm rest IH]; [done|].
  by rewrite fmap_cons, !bind_cons, IH.
Qed.

Lemma snapshot_items_entries entries : ∀ position,
  Forall (λ entry, Forall (λ item, module item = entry.1) entry.2) entries →
  snapshot_items (entries_snapshot position entries)
  = read_back <$> (entries ≫= snd).
Proof.
  unfold snapshot_items.
  induction entries as [|[moduleName lessons] entries IH]; intros position Hkeys;
    [done|].
  apply Forall_cons in Hkeys as [Hkey Hkeys]. cbn [fst snd] in Hkey.
  cbn [entries_snapshot]. rewrite !bind_cons, fmap_app, IH by done. f_equal.
  unfold items_of. cbn [sm_lessons sm_name from_option id snd].
  rewrite fmap_imap.
  rewrite (imap_ext _ (λ _, read_back)).
  - apply (imap_const read_back).
  - intros i item Hi. rewrite Forall_lookup in Hkey.
    unfold read_back. cbn. by rewrite (Hkey _ _ Hi).
Qed.

Lemma entries_flatten snapshotModules :
  ((λ sm, (sm_name sm, items_of sm)) <$> snapshotModules) ≫= snd
  = snapshot_items snapshotModules.
Proof.
  unfold snapshot_items. induction snapshotModules as [|sm rest IH]; [done|].
  by rewrite fmap_cons, !bind_cons, IH.
Qed.

Lemma ordinals_sorted k n : StronglySorted Z.le (Z.of_nat <$> seq k n).
Proof.
  revert k. induction n as [|n IH]; intros k; csimpl; constructor; [done|].
  apply Forall_fmap, Forall_forall. intros i [? _]%elem_of_seq. cbn. lia.
Qed.

Lemma ordinal_restore_ordered snapshotModules n :
  ordinal_positions snapshotModules →
  ordered_by m_position (restore_created n snapshotModules) ∧
  Forall (λ m, ordered_by l_position (m_lessons m))
    (restore_created n snapshotModules).
Proof.
  intros [Hpos Hord]. split.
  - apply ordered_by_positions.
    rewrite module_positions_captured, restore_created_snapshot.
    rewrite <- list_fmap_compose.
    rewrite (list_fmap_ext _ sm_position snapshotModules) by done.
    rewrite Hpos. apply ordinals_sorted.
  - apply Forall_forall. intros m Hm.
    apply ordered_by_positions. rewrite lesson_positions_captured.
    apply (list_elem_of_fmap_2 snapshotModule) in Hm.
    rewrite restore_created_snapshot in Hm.
    apply list_elem_of_fmap in Hm as (sm & -> & Hsm).
    cbn [sm_lessons from_option id].
    rewrite Forall_forall in Hord. rewrite (Hord _ Hsm).
    apply ordinals_sorted.
Qed.

Lemma import_then_export modules n snapshots :
  NoDup (sm_name <$> filter has_lessons (snapshotModule <$> modules)) →
  exportData
    (select_nested
       (mkDb (row_of <$> import_created n 0 (group_by_module (exportData modules)))
          (import_created n 0 (group_by_module (exportData modules)) ≫= m_lessons)
          snapshots))
  = read_back <$> exportData modules.
Proof.
  intros Hnames.
  rewrite (exportData_as_snapshot_items modules).
  rewrite group_snapshot_items by done.
  rewrite import_created_as_restore.
  set (entries := (λ sm, (sm_name sm, items_of sm))
                  <$> filter has_lessons (snapshotModule <$> modules)).
  destruct (ordinal_restore_ordered (entries_snapshot 0 entries) n
              (entries_snapshot_ordinal entries)) as [Hmod Hles].
  rewrite select_nested_tables
    by (done || apply restore_created_well_nested).
  rewrite exportData_as_snapshot_items, restore_created_snapshot.
  rewrite snapshot_items_defaulted, snapshot_items_entries.
  - unfold entries. by rewrite entries_flatten, snapshot_items_with_lessons.
  - unfold entries. apply Forall_fmap, Forall_true. intros sm.
    apply items_of_module.
Qed.

Lemma has_lessons_captured (modules : list CModule) :
  filter has_lessons (snapshotModule <$> modules)
  = snapshotModule <$> filter (λ m, m_lessons m ≠ []) modules.
Proof.
  induction modules as [|m modules IH]; [done|].
  rewrite fmap_cons, !filter_cons, IH.
  destruct (decide (has_lessons (snapshotModule m))) as [Hm|Hm];
    destruct (decide (m_lessons m ≠ [])) as [Hm'|Hm']; try done.
  - destruct Hm'. intros Hnil. apply Hm. unfold has_lessons. cbn. by rewrite Hnil.
  - destruct Hm. unfold has_lessons. cbn. by intros ?%fmap_nil_inv.
Qed.

(** C8, as the code has it. The hierarchy on screen is exported and the
    exported records are imported again, successfully. When the modules
    that have lessons bear distinct names, and names and titles are not
    empty, the records exported from the hierarchy fetched after the import
    are the exported ones in the same order, except that absent video
    markup reads back as the empty string. *)
Theorem C8_export_import_round_trip
    (JSON_parse : string → option Parsed) (st st' : ImportState)
    (modules modules' : list CModule) (w w' : World) :
  is_blank (jsonInput st) = false →
  JSON_parse (jsonInput st) = Some (reparsed (exportData modules)) →
  NoDup (m_name <$> filter (λ m, m_lessons m ≠ []) modules) →
  Forall (λ item, module item ≠ "" ∧ title item ≠ "") (exportData modules) →
  store_ok (db w) →
  processImport (validateAndPreview JSON_parse st) modules w
    = (Ok (st', modules'), w') →
  succeeded w' →
  exportData (select_nested (db w')) = read_back <$> exportData modules ∧
  (Forall (λ item, is_Some (videoIframe item)) (exportData modules) →
   exportData (select_nested (db w')) = exportData modules).
Proof.
  intros Hblank Hparse Hnames Hfields Hok Hrun Hsucc.
  pose proof (validateAndPreview_reparsed _ _ _ Hblank Hparse Hfields) as Hpreview.
  destruct (processImport_inv _ _ _ _ _ _ _ Hpreview Hok Hrun Hsucc) as [-> _].
  assert (exportData
            (select_nested
               (mkDb (row_of <$> import_created (next_uuid w) 0
                                   (group_by_module (exportData modules)))
                  (import_created (next_uuid w) 0
                     (group_by_module (exportData modules)) ≫= m_lessons)
                  (tbl_snapshots (db w))))
          = read_back <$> exportData modules) as Hback.
  { apply import_then_export. rewrite has_lessons_captured.
    rewrite <- list_fmap_compose. done. }
  split; [done|]. intros Hmarkup. rewrite Hback.
  assert (Forall (λ item, url item = None) (exportData modules)) as Hurl.
  { unfold exportData. apply Forall_bind, Forall_true. intros m.
    apply Forall_fmap, Forall_true. done. }
  etrans; [|apply list_fmap_id]. apply Forall_fmap_ext.
  rewrite Forall_forall in Hmarkup, Hurl. apply Forall_forall.
  intros item Hitem. destruct (Hmarkup _ Hitem) as [markup Hm].
  specialize (Hurl _ Hitem). destruct item. cbn in *. by subst.
Qed.

Lemma C8_witness :
  let modules := select_nested sample_store in
  let JSON_parse := λ _ : string, Some (reparsed (exportData modules)) in
  let st := mkImportState "[...]" None "" true in
  let imported := processImport (validateAndPreview JSON_parse st) modules sample_world in
  NoDup (m_name <$> filter (λ m, m_lessons m ≠ []) modules) ∧
  Forall (λ item, module item ≠ "" ∧ title item ≠ "") (exportData modules) ∧
  store_ok (db sample_world) ∧
  succeeded imported.2 ∧
  exportData (select_nested (db imported.2)) = read_back <$> exportData modules.
Proof.
  intros modules JSON_parse st imported.
  assert (NoDup (m_name <$> filter (λ m, m_lessons m ≠ []) modules)) as Hnames
    by compute_done.
  assert (Forall (λ item, module item ≠ "" ∧ title item ≠ "") (exportData modules))
    as Hfields by compute_done.
  assert (succeeded imported.2) as Hsucc.
  { exists (toast_success "Imported 2 modules with 3 lessons"). by vm_compute. }
  split_and!; [done|done|exact sample_store_ok|done|].
  refine (proj1 (C8_export_import_round_trip JSON_parse st
                   (value_of (st, []) imported.1).1 modules
                   (value_of (st, []) imported.1).2 sample_world imported.2
                   eq_refl eq_refl Hnames Hfields sample_store_ok _ Hsucc)).
  by vm_compute.
Defined.

(** C8 fails when two modules bear the same name: exported as Basics,
    Extras, Basics, the three lessons come back grouped under one Basics
    module, in another order. *)
Lemma C8_counterexample :
  let modules := select_nested sample_twin_store in
  let JSON_parse := λ _ : string, Some (reparsed (exportData modules)) in
  let st := mkImportState "[...]" None "" true in
  let imported :=
    processImport (validateAndPreview JSON_parse st) modules sample_twin_world in
  exportData modules
    = [mkImportItem "Basics" "Intro" (Some "<iframe a>") None;
       mkImportItem "Extras" "Bonus" (Some "<iframe b>") None;
       mkImportItem "Basics" "Recap" (Some "<iframe c>") None] ∧
  succeeded imported.2 ∧
  exportData (select_nested (db imported.2))
    = [mkImportItem "Basics" "Intro" (Some "<iframe a>") None;
       mkImportItem "Basics" "Recap" (Some "<iframe c>") None;
       mkImportItem "Extras" "Bonus" (Some "<iframe b>") None] ∧
  exportData (select_nested (db imported.2)) ≠ exportData modules.
Proof.
  intros modules JSON_parse st imported. split_and!.
  - reflexivity.
  - exists (toast_success "Imported 2 modules with 3 lessons"). by vm_compute.
  - by vm_compute.
  - by vm_compute.
Qed.

(** ** Position writes *)

Section renumbering.
Context {R : Type} (rid : R → string) (rpos : R → Z) (rset : Z → R → R).
Hypothesis rid_rset : ∀ p r, rid (rset p r) = rid r.
Hypothesis rpos_rset : ∀ p r, rpos (rset p r) = p.

Lemma renumber_rows ids : ∀ i rows,
  NoDup ids → renumber rid rset i ids rows = renumbered rid rset i ids <$> rows.
Proof.
  induction ids as [|id ids IH]; intros i rows Hids.
  - cbn [renumber]. symmetry. etrans; [|apply list_fmap_id].
    by apply list_fmap_ext.
  - apply NoDup_cons in Hids as [Hid Hids].
    cbn [renumber]. rewrite IH, <- list_fmap_compose by done.
    apply list_fmap_ext. intros _ r _. unfold renumbered, compose.
    cbn [matches list_find].
    destruct (String.eqb_spec (rid r) id) as [Heq|Hne].
    + rewrite rid_rset, Heq, decide_True by done.
      rewrite (proj2 (list_find_None _ ids)); [by rewrite Z.add_0_r|].
      apply Forall_forall. by intros ? ? ->.
    + rewrite decide_False by done.
      destruct (list_find (λ id0, id0 = rid r) ids) as [[k ?]|]; cbn; [|done].
      f_equal. lia.
Qed.

Lemma renumber_ids i ids rows :
  NoDup ids → rid <$> renumber rid rset i ids rows = rid <$> rows.
Proof.
  intros Hids. rewrite renumber_rows, <- list_fmap_compose by done.
  apply list_fmap_ext. intros _ r _. unfold renumbered, compose.
  by destruct (list_find _ ids) as [[? ?]|].
Qed.

Lemma renumber_untouched i ids rows :
  NoDup ids → (∀ r, r ∈ rows → rid r ∉ ids) →
  renumber rid rset i ids rows = rows.
Proof.
  intros Hids Hout. rewrite renumber_rows by done.
  etrans; [|apply list_fmap_id]. apply Forall_fmap_ext, Forall_forall.
  intros r Hr. unfold renumbered.
  rewrite (proj2 (list_find_None _ ids)); [done|].
  apply Forall_forall. intros id Hid ->. by apply (Hout r).
Qed.

Lemma renumber_filter (P : R → Prop) `{!∀ r, Decision (P r)} i ids rows :
  NoDup ids → (∀ p r, P (rset p r) ↔ P r) →
  filter P (renumber rid rset i ids rows)
  = renumber rid rset i ids (filter P rows).
Proof.
  intros Hids HP. rewrite !renumber_rows by done.
  induction rows as [|r rows IH]; [done|].
  rewrite fmap_cons, !filter_cons.
  assert (P (renumbered rid rset i ids r) ↔ P r) as Hr.
  { unfold renumbered. by destruct (list_find _ ids) as [[? ?]|]. }
  destruct (decide (P r)) as [Hp|Hp].
  - rewrite decide_True by (by apply Hr). by rewrite fmap_cons, IH.
  - rewrite decide_False by (by rewrite Hr). done.
Qed.

Lemma find_own_index (ids : list string) k id :
  NoDup ids → ids !! k = Some id →
  list_find (λ id', id' = id) ids = Some (k, id).
Proof.
  intros Hids Hk. apply list_find_Some. split_and!; [done..|].
  intros j id' Hj Hlt ->.
  pose proof (NoDup_lookup _ _ _ _ Hids Hj Hk). lia.
Qed.

End renumbering.

Lemma request_toasts {A} r (exec : Db → nat → result A * (Db * nat)) w res w' :
  request r exec w = (res, w') → toasts w' = toasts w.
Proof.
  unfold request. destruct (default false (head (faults w))).
  - by intros [= _ <-].
  - destruct (exec (db w) (next_uuid w)) as [res' [d n]]. by intros [= _ <-].
Qed.

Lemma updateModulePositions_loop_toasts newModules : ∀ i w res w',
  updateModulePositions_loop i newModules w = (res, w') → toasts w' = toasts w.
Proof.
  induction newModules as [|[m|] rest IH]; intros i w res w'; cbn [updateModulePositions_loop].
  - by intros [= _ <-].
  - unfold bind at 1. cbn [ret]. unfold bind at 1.
    destruct (api_update_module_position i (IdEq (m_id m)) w) as [[[]|e] w1] eqn:Hreq.
    + intros Hrest%IH. rewrite Hrest. by eapply request_toasts.
    + intros [= _ <-]. by eapply request_toasts.
  - by intros [= _ <-].
Qed.

Lemma updateLessonPositions_loop_toasts newLessons : ∀ i w res w',
  updateLessonPositions_loop i newLessons w = (res, w') → toasts w' = toasts w.
Proof.
  induction newLessons as [|[l|] rest IH]; intros i w res w'; cbn [updateLessonPositions_loop].
  - by intros [= _ <-].
  - unfold bind at 1. cbn [ret]. unfold bind at 1.
    destruct (api_update_lesson_position i (IdEq (l_id l)) w) as [[[]|e] w1] eqn:Hreq.
    + intros Hrest%IH. rewrite Hrest. by eapply request_toasts.
    + intros [= _ <-]. by eapply request_toasts.
  - by intros [= _ <-].
Qed.

Lemma updateModulePositions_loop_inv newModules : ∀ i w w',
  updateModulePositions_loop i (Some <$> newModules) w = (Ok tt, w') →
  tbl_modules (db w')
    = renumber r_id set_module_position i (m_id <$> newModules) (tbl_modules (db w)) ∧
  tbl_lessons (db w') = tbl_lessons (db w) ∧
  tbl_snapshots (db w') = tbl_snapshots (db w).
Proof.
  induction newModules as [|m rest IH]; intros i w w'.
  - by intros [= <-].
  - rewrite !fmap_cons. cbn [updateModulePositions_loop renumber].
    intros (id & w0 & [= <- <-] & ([] & w1 & Hreq & Hrest)%bind_inv_Ok)%bind_inv_Ok.
    apply request_inv in Hreq as (Hexec & _).
    unfold update_module_position in Hexec. injection Hexec as Hdb _.
    apply IH in Hrest as (Hm & Hl & Hs).
    rewrite Hm, Hl, Hs, <- Hdb. done.
Qed.

Lemma updateLessonPositions_loop_inv newLessons : ∀ i w w',
  updateLessonPositions_loop i (Some <$> newLessons) w = (Ok tt, w') →
  tbl_modules (db w') = tbl_modules (db w) ∧
  tbl_lessons (db w')
    = renumber l_id set_lesson_position i (l_id <$> newLessons) (tbl_lessons (db w)) ∧
  tbl_snapshots (db w') = tbl_snapshots (db w).
Proof.
  induction newLessons as [|l rest IH]; intros i w w'.
  - by intros [= <-].
  - rewrite !fmap_cons. cbn [updateLessonPositions_loop renumber].
    intros (id & w0 & [= <- <-] & ([] & w1 & Hreq & Hrest)%bind_inv_Ok)%bind_inv_Ok.
    apply request_inv in Hreq as (Hexec & _).
    unfold update_lesson_position in Hexec. injection Hexec as Hdb _.
    apply IH in Hrest as (Hm & Hl & Hs).
    rewrite Hm, Hl, Hs, <- Hdb. done.
Qed.

Lemma toasts_grew (ts : list Toast) t : ts ++ [t] ≠ ts.
Proof. intros Heq%(f_equal length). rewrite length_app in Heq. cbn in Heq. lia. Qed.

(** ** Reorder: what a successful run leaves in the store *)

Lemma handleDragEnd_store event modules w modules' w' :
  handleDragEnd event modules w = (Ok modules', w') →
  toasts w' = toasts w →
  (modules' = modules ∧ w' = w) ∨
  (modules' ≡ₚ modules ∧
   tbl_modules (db w')
     = renumber r_id set_module_position 0 (m_id <$> modules') (tbl_modules (db w)) ∧
   tbl_lessons (db w') = tbl_lessons (db w)).
Proof.
  intros Hrun Hquiet.
  pose proof (handleDragEnd_Permutation _ _ _ _ _ Hrun) as Hperm.
  unfold handleDragEnd in Hrun.
  destruct (over_id event) as [overId|]; [|left; by injection Hrun as <- <-].
  destruct (String.eqb _ _); [left; by injection Hrun as <- <-|].
  destruct (_ && _); [|left; by injection Hrun as <- <-].
  right. split; [done|].
  apply bind_inv_Ok in Hrun as ([] & w1 & Hwrite & Hset).
  apply set_state_inv in Hset as [Hdef%all_defined_inv ->].
  rewrite Hdef in Hwrite. unfold updateModulePositions in Hwrite.
  apply try_catch_inv in Hwrite as [(a & Hloop & _)|(e & w0 & Hloop & Hfail)].
  - destruct a. by apply updateModulePositions_loop_inv in Hloop as (? & ? & _).
  - apply updateModulePositions_loop_toasts in Hloop.
    injection Hfail as <-. cbn in Hquiet. rewrite Hloop in Hquiet.
    by apply toasts_grew in Hquiet.
Qed.

Lemma handleLessonDragEnd_store event m modules w modules' w' :
  handleLessonDragEnd event m modules w = (Ok modules', w') →
  toasts w' = toasts w →
  (modules' = modules ∧ w' = w) ∨
  (∃ lessons, lessons ≡ₚ m_lessons m ∧
     modules' = updateModule (m_id m) (with_lessons m lessons) modules ∧
     tbl_modules (db w') = tbl_modules (db w) ∧
     tbl_lessons (db w')
       = renumber l_id set_lesson_position 0 (l_id <$> lessons) (tbl_lessons (db w))).
Proof.
  intros Hrun Hquiet. unfold handleLessonDragEnd in Hrun.
  destruct (over_id event) as [overId|]; [|left; by injection Hrun as <- <-].
  destruct (String.eqb _ _); [left; by injection Hrun as <- <-|].
  destruct (_ && _); [|left; by injection Hrun as <- <-].
  right.
  apply bind_inv_Ok in Hrun as ([] & w1 & Hwrite & Hrun).
  apply bind_inv_Ok in Hrun as (lessons & w2 & Hset & [= <- <-]).
  apply set_state_inv in Hset as [Hdef ->].
  pose proof (arrayMove_Permutation _ _ _ _ Hdef) as Hperm.
  apply all_defined_inv in Hdef.
  rewrite Hdef in Hwrite. unfold updateLessonPositions in Hwrite.
  exists lessons. split_and!; [done..| |].
  - apply try_catch_inv in Hwrite as [(a & Hloop & _)|(e & w0 & Hloop & Hfail)].
    + destruct a. by apply updateLessonPositions_loop_inv in Hloop as (? & ? & _).
    + apply updateLessonPositions_loop_toasts in Hloop.
      injection Hfail as <-. cbn in Hquiet. rewrite Hloop in Hquiet.
      by apply toasts_grew in Hquiet.
  - apply try_catch_inv in Hwrite as [(a & Hloop & _)|(e & w0 & Hloop & Hfail)].
    + destruct a. by apply updateLessonPositions_loop_inv in Hloop as (? & ? & _).
    + apply updateLessonPositions_loop_toasts in Hloop.
      injection Hfail as <-. cbn in Hquiet. rewrite Hloop in Hquiet.
      by apply toasts_grew in Hquiet.
Qed.

(** ** Density *)



Lemma sublist_fmap_filter {A B} (f : A → B) (P : A → Prop)
    `{!∀ x, Decision (P x)} (l : list A) :
  NoDup (f <$> l) → NoDup (f <$> filter P l).
Proof.
  intros Hl. eapply sublist_NoDup; [exact Hl|].
  apply fmap_sublist, sublist_filter.
Qed.

Lemma NoDup_fmap_same {A B} (f : A → B) (l : list A) x y :
  NoDup (f <$> l) → x ∈ l → y ∈ l → f x = f y → x = y.
Proof.
  induction l as [|z l IH]; [by intros _ ?%elem_of_nil|].
  rewrite fmap_cons, NoDup_cons. intros [Hz Hl].
  intros [->|Hx]%elem_of_cons [->|Hy]%elem_of_cons Heq; [done|..|by apply IH].
  - destruct Hz. rewrite Heq. by apply list_elem_of_fmap_2.
  - destruct Hz. rewrite <- Heq. by apply list_elem_of_fmap_2.
Qed.

(** ** Add and delete: what a successful run leaves in the store *)



Lemma deleteModule_inv moduleId modules w modules' w' :
  deleteModule moduleId modules w = (Ok modules', w') →
  succeeded w' →
  tbl_modules (db w') = filter (λ r, r_id r ≠ moduleId) (tbl_modules (db w)) ∧
  ∀ mid, mid ≠ moduleId → lessons_of (db w') mid = lessons_of (db w) mid.
Proof.
  intros Hrun Hsucc. unfold deleteModule in Hrun.
  body_ran Hrun Hbody.
  apply bind_inv_Ok in Hbody as ([] & w1 & Hdel & Hbody).
  apply bind_inv_Ok in Hbody as ([] & w2 & Htoast & [= _ <-]).
  apply request_inv in Hdel as (Hexec & _).
  unfold delete_modules in Hexec. injection Hexec as Hdb _.
  injection Htoast as <-. cbn [db]. rewrite <- Hdb. cbn [tbl_modules].
  split.
  - apply list_filter_iff. intros r. cbn. apply String.eqb_neq.
  - intros mid Hmid. unfold lessons_of. cbn [tbl_lessons].
    rewrite list_filter_filter. apply list_filter_iff. intros l.
    split; [by intros [? _]|]. intros Hl. split; [done|].
    intros (r & Hr & [Hmatch _]%list_elem_of_filter)%list_elem_of_fmap.
    cbn in Hmatch. apply String.eqb_eq in Hmatch. congruence.
Qed.

Lemma deleteLesson_inv lessonId m modules w modules' w' :
  deleteLesson lessonId m modules w = (Ok modules', w') →
  succeeded w' →
  tbl_modules (db w') = tbl_modules (db w) ∧
  tbl_lessons (db w') = filter (λ l, l_id l ≠ lessonId) (tbl_lessons (db w)).
Proof.
  intros Hrun Hsucc. unfold deleteLesson in Hrun.
  body_ran Hrun Hbody.
  apply bind_inv_Ok in Hbody as ([] & w1 & Hdel & Hbody).
  apply bind_inv_Ok in Hbody as ([] & w2 & Htoast & [= _ <-]).
  apply request_inv in Hdel as (Hexec & _).
  unfold delete_lessons in Hexec. injection Hexec as Hdb _.
  injection Htoast as <-. cbn [db]. rewrite <- Hdb. cbn [tbl_modules tbl_lessons].
  split; [done|].
  apply list_filter_iff. intros l. cbn. apply String.eqb_neq.
Qed.

(** ** C1: positions after each operation *)












(** * Further properties *)

(** ** The preview and the import group alike *)

Lemma filter_none {A} (P : A → Prop) `{!∀ x, Decision (P x)} (l : list A) :
  Forall (λ x, ¬ P x) l → filter P l = [].
Proof.
  induction 1 as [|x l Hx _ IH]; [done|]. by rewrite filter_cons_False.
Qed.

Lemma filter_all {A} (P : A → Prop) `{!∀ x, Decision (P x)} (l : list A) :
  Forall P l → filter P l = l.
Proof.
  induction 1 as [|x l Hx _ IH]; [done|]. by rewrite filter_cons_True, IH.
Qed.

Lemma new_Set_snoc values value :
  new_Set (values ++ [value]) = Set_add value (new_Set values).
Proof. unfold new_Set. by rewrite fold_left_app. Qed.

Lemma group_by_module_snoc items item :
  group_by_module (items ++ [item])
  = map_push (module item) item (group_by_module items).
Proof. unfold group_by_module. by rewrite fold_left_app. Qed.

Lemma new_Set_elem_of values value : value ∈ new_Set values ↔ value ∈ values.
Proof.
  induction values as [|v values IH] using rev_ind.
  - done.
  - rewrite new_Set_snoc, elem_of_app, list_elem_of_singleton, <- IH.
    unfold Set_add. case_bool_decide as Hin.
    + split; [by left|]. by intros [?| ->].
    + by rewrite elem_of_app, list_elem_of_singleton.
Qed.

Lemma new_Set_NoDup values : NoDup (new_Set values).
Proof.
  induction values as [|v values IH] using rev_ind.
  - constructor.
  - rewrite new_Set_snoc. unfold Set_add. case_bool_decide as Hin; [done|].
    apply NoDup_app. split_and!; [done| |apply NoDup_singleton].
    by intros x Hx ->%list_elem_of_singleton.
Qed.

Lemma map_push_keyed (f : string → list ImportItem) key item
    (names : list string) :
  NoDup names → key ∈ names →
  map_push key item ((λ name, (name, f name)) <$> names)
  = (λ name, (name, if decide (name = key) then f name ++ [item] else f name))
    <$> names.
Proof.
  induction names as [|name names IH]; [by intros _ ?%elem_of_nil|].
  intros [Hnot Hnames]%NoDup_cons Hin. rewrite !fmap_cons. cbn [map_push].
  destruct (String.eqb_spec name key) as [->|Hne].
  - rewrite decide_True by done. f_equal.
    apply list_fmap_ext. intros _ name Hname%list_elem_of_lookup_2.
    rewrite decide_False; [done|]. by intros ->.
  - rewrite decide_False by done. f_equal. apply IH; [done|].
    apply elem_of_cons in Hin as [->|]; done.
Qed.

Lemma previewCards_snoc items item :
  previewCards (items ++ [item])
  = map_push (module item) item (previewCards items).
Proof.
  unfold previewCards. rewrite fmap_app.
  change (module <$> [item]) with [module item]. rewrite new_Set_snoc.
  unfold Set_add. case_bool_decide as Hin.
  - rewrite (map_push_keyed (λ name, filter (λ it, module it = name) items))
      by (done || apply new_Set_NoDup).
    apply list_fmap_ext. intros _ name _. f_equal.
    rewrite filter_app, filter_cons, filter_nil.
    destruct (decide (name = module item)) as [->|Hne].
    + by rewrite decide_True.
    + rewrite decide_False by done. by rewrite app_nil_r.
  - rewrite map_push_new.
    + rewrite fmap_app. f_equal.
      * apply list_fmap_ext. intros _ name Hname%list_elem_of_lookup_2. f_equal.
        rewrite filter_app, filter_cons, filter_nil.
        rewrite decide_False; [by rewrite app_nil_r|].
        intros Heq. apply Hin. by rewrite Heq.
      * cbn. do 2 f_equal.
        rewrite filter_app, filter_cons_True, filter_nil by done.
        rewrite filter_none; [done|].
        apply Forall_forall. intros it Hit Heq. apply Hin.
        apply new_Set_elem_of. rewrite <- Heq. by apply list_elem_of_fmap_2.
    + rewrite <- list_fmap_compose. by rewrite list_fmap_id.
Qed.

Lemma previewCards_grouping (items : list ImportItem) :
  previewCards items = group_by_module items.
Proof.
  induction items as [|item items IH] using rev_ind; [done|].
  by rewrite previewCards_snoc, group_by_module_snoc, IH.
Qed.

Lemma group_by_module_keys items :
  Forall (λ entry, Forall (λ item, module item = entry.1) entry.2)
    (group_by_module items).
Proof.
  rewrite <- previewCards_grouping. unfold previewCards.
  apply Forall_fmap, Forall_true. intros name. cbn.
  apply Forall_forall. by intros item [? _]%list_elem_of_filter.
Qed.

Lemma group_by_module_names items :
  (group_by_module items).*1 = new_Set (module <$> items).
Proof.
  rewrite <- previewCards_grouping. unfold previewCards.
  rewrite <- list_fmap_compose. apply list_fmap_id.
Qed.

Lemma map_push_flat key item (moduleMap : list (string * list ImportItem)) :
  map_push key item moduleMap ≫= snd ≡ₚ (moduleMap ≫= snd) ++ [item].
Proof.
  induction moduleMap as [|[k v] moduleMap IH]; [done|].
  cbn [map_push]. destruct (String.eqb k key); rewrite !bind_cons; cbn [snd].
  - rewrite <- !(assoc_L (++)). f_equiv. apply Permutation_app_comm.
  - by rewrite IH, (assoc_L (++)).
Qed.

Lemma group_by_module_flat items : group_by_module items ≫= snd ≡ₚ items.
Proof.
  induction items as [|item items IH] using rev_ind; [done|].
  by rewrite group_by_module_snoc, map_push_flat, IH.
Qed.

Lemma group_by_module_nonempty items :
  Forall (λ entry, entry.2 ≠ []) (group_by_module items).
Proof.
  rewrite <- previewCards_grouping. unfold previewCards.
  apply Forall_fmap, Forall_forall. intros name Hname. cbn.
  apply new_Set_elem_of, list_elem_of_fmap in Hname as (item & -> & Hitem).
  intros Hnil. eapply filter_nil_not_elem_of; [exact Hnil| |exact Hitem]. done.
Qed.

(** X1. The preview pane and the import group the records alike. The pane
    lists the distinct module names with a [Set] and filters the records
    by name; the import pushes each record on its name's entry of a [Map].
    Both give the same cards in the same order with the same records, so
    what the preview shows is what the import creates. The names of the
    cards are distinct, no card is empty, the records of a card bear its
    name, and every record of the input is on exactly one card. *)
Theorem X1_preview_cards_are_import_groups (items : list ImportItem) :
  previewCards items = group_by_module items ∧
  NoDup (group_by_module items).*1 ∧
  Forall (λ entry, entry.2 ≠ [] ∧ Forall (λ item, module item = entry.1) entry.2)
    (group_by_module items) ∧
  group_by_module items ≫= snd ≡ₚ items.
Proof.
  split_and!.
  - apply previewCards_grouping.
  - rewrite group_by_module_names. apply new_Set_NoDup.
  - apply Forall_and. split.
    + apply group_by_module_nonempty.
    + apply group_by_module_keys.
  - apply group_by_module_flat.
Qed.

(** ** Counts *)

Lemma fold_left_sum {A} (f : A → nat) (l : list A) : ∀ a : nat,
  fold_left (λ sum x, (sum + f x)%nat) l a = (a + sum_list_with f l)%nat.
Proof.
  induction l as [|x l IH]; intros a; cbn [fold_left sum_list_with]; [lia|].
  rewrite IH. lia.
Qed.

Lemma length_restore_created snapshotModules : ∀ n,
  length (restore_created n snapshotModules) = length snapshotModules.
Proof.
  induction snapshotModules as [|sm rest IH]; intros n; [done|].
  cbn [restore_created length]. by rewrite IH.
Qed.

Lemma length_restore_created_lessons snapshotModules : ∀ n,
  length (restore_created n snapshotModules ≫= m_lessons)
  = sum_list_with (λ sm, length (default [] (sm_lessons sm))) snapshotModules.
Proof.
  induction snapshotModules as [|sm rest IH]; intros n; [done|].
  cbn [restore_created sum_list_with].
  rewrite bind_cons, length_app, IH. cbn [m_lessons]. by rewrite length_imap.
Qed.

Lemma entries_snapshot_lesson_count entries : ∀ position,
  sum_list_with (λ sm, length (default [] (sm_lessons sm)))
    (entries_snapshot position entries)
  = sum_list_with (λ entry, length entry.2) entries.
Proof.
  induction entries as [|[moduleName lessons] entries IH]; intros position; [done|].
  cbn [entries_snapshot sum_list_with sm_lessons from_option id snd].
  by rewrite length_imap, IH.
Qed.

Lemma map_push_count key item (moduleMap : list (string * list ImportItem)) :
  sum_list_with (λ entry, length entry.2) (map_push key item moduleMap)
  = S (sum_list_with (λ entry, length entry.2) moduleMap).
Proof.
  induction moduleMap as [|[k v] moduleMap IH]; [done|].
  cbn [map_push]. destruct (String.eqb k key); cbn [sum_list_with snd].
  - rewrite length_app. cbn. lia.
  - rewrite IH. lia.
Qed.

Lemma group_by_module_count items :
  sum_list_with (λ entry, length entry.2) (group_by_module items) = length items.
Proof.
  induction items as [|item items IH] using rev_ind; [done|].
  rewrite group_by_module_snoc, map_push_count, IH, length_app. cbn. lia.
Qed.

(** ** The store a bulk replace leaves is well formed *)

Lemma restore_created_lesson_ids snapshotModules : ∀ n,
  NoDup (l_id <$> (restore_created n snapshotModules ≫= m_lessons)) ∧
  ∀ l, l ∈ restore_created n snapshotModules ≫= m_lessons →
       ∃ k, (n < k)%nat ∧ l_id l = uuid k.
Proof.
  induction snapshotModules as [|sm rest IH]; intros n.
  - split; [constructor|by intros l ?%elem_of_nil].
  - destruct (IH (S n + length (default [] (sm_lessons sm)))%nat) as [Hnodup Hids].
    cbn [restore_created]. rewrite bind_cons. cbn [m_lessons]. split.
    + rewrite fmap_app. apply NoDup_app. split_and!; [| |done].
      * rewrite fmap_imap. cbn [l_id].
        rewrite (imap_seq_0 _ (λ i, uuid (S n + i))).
        apply NoDup_fmap_2_strong; [|apply NoDup_seq].
        intros i j _ _ Hij%uuid_inj. lia.
      * intros x (l & -> & (i & lesson & -> & Hi)%elem_of_lookup_imap)%list_elem_of_fmap.
        intros (l' & Heq & Hl')%list_elem_of_fmap.
        apply Hids in Hl' as (k & Hk & Hid). cbn in Heq.
        rewrite Hid in Heq. apply uuid_inj in Heq.
        apply lookup_lt_Some in Hi. lia.
    + intros l [(i & lesson & -> & _)%elem_of_lookup_imap|Hl]%elem_of_app.
      * exists (S n + i)%nat. split; [lia|done].
      * apply Hids in Hl as (k & Hk & Hid). exists k. split; [lia|done].
Qed.

Lemma restore_created_store_ok snapshotModules n snapshots :
  store_ok (mkDb (row_of <$> restore_created n snapshotModules)
              (restore_created n snapshotModules ≫= m_lessons) snapshots).
Proof.
  destruct (restore_created_well_nested snapshotModules n) as [Hids Hles].
  assert (module_ids (mkDb (row_of <$> restore_created n snapshotModules)
                        (restore_created n snapshotModules ≫= m_lessons) snapshots)
          = m_id <$> restore_created n snapshotModules) as Hmids.
  { unfold module_ids. cbn [tbl_modules]. by rewrite <- list_fmap_compose. }
  split; rewrite ?Hmids; cbn [tbl_lessons].
  - done.
  - apply restore_created_lesson_ids.
  - intros l (m & Hl & Hm)%list_elem_of_bind.
    rewrite Forall_forall in Hles. specialize (Hles m Hm).
    rewrite Forall_forall in Hles. rewrite (Hles l Hl).
    by apply list_elem_of_fmap_2.
  - intros (m & Heq & Hm)%list_elem_of_fmap.
    apply restore_created_ids in Hm as (k & _ & Hk).
    rewrite Hk in Heq. symmetry in Heq. by apply uuid_not_sentinel in Heq.
Qed.

Lemma currentStats_fetched d :
  store_ok d →
  currentStats (select_nested d)
  = mkStats (length (tbl_modules d)) (length (tbl_lessons d)).
Proof.
  intros Hok. unfold currentStats. rewrite fold_left_sum. cbn [Nat.add].
  rewrite <- length_transformedData, feed_one_item_per_lesson by done.
  f_equal. unfold select_nested. by rewrite length_fmap, length_sort_by.
Qed.

Lemma getSnapshotStats_counts snapshot :
  getSnapshotStats snapshot
  = mkStats (length (default [] (sd_modules (s_data snapshot))))
      (sum_list_with (λ sm, length (default [] (sm_lessons sm)))
         (default [] (sd_modules (s_data snapshot)))).
Proof. unfold getSnapshotStats. by rewrite fold_left_sum. Qed.

Lemma getPreviewStats_counts st items :
  previewData st = Some items →
  getPreviewStats st = mkStats (length (group_by_module items)) (length items).
Proof.
  intros Hitems. unfold getPreviewStats. rewrite Hitems.
  rewrite <- previewCards_grouping. unfold previewCards.
  by rewrite length_fmap.
Qed.

(** X2. The two badges of the import preview announce what a successful
    import does: the store then holds exactly that many modules and that
    many lessons, the hierarchy fetched from it shows the same counts,
    and the closing notification names them. *)
Theorem X2_preview_stats_are_import_counts
    (st st' : ImportState) (items : list ImportItem)
    (modules modules' : list CModule) (w w' : World) :
  previewData st = Some items →
  store_ok (db w) →
  processImport st modules w = (Ok (st', modules'), w') →
  succeeded w' →
  length (tbl_modules (db w')) = stats_modules (getPreviewStats st) ∧
  length (tbl_lessons (db w')) = stats_lessons (getPreviewStats st) ∧
  currentStats (select_nested (db w')) = getPreviewStats st ∧
  last (toasts w')
  = Some (toast_success
            ("Imported " +:+ pretty (stats_modules (getPreviewStats st))
             +:+ " modules with " +:+ pretty (stats_lessons (getPreviewStats st))
             +:+ " lessons")).
Proof.
  intros Hitems Hok Hrun Hsucc.
  destruct (processImport_inv _ _ _ _ _ _ _ Hitems Hok Hrun Hsucc) as [Hdb _].
  rewrite (getPreviewStats_counts _ _ Hitems). cbn [stats_modules stats_lessons].
  assert (length (tbl_modules (db w')) = length (group_by_module items)) as Hm.
  { rewrite Hdb. cbn [tbl_modules].
    rewrite length_fmap, import_created_as_restore, length_restore_created.
    apply length_entries_snapshot. }
  assert (length (tbl_lessons (db w')) = length items) as Hl.
  { rewrite Hdb. cbn [tbl_lessons].
    rewrite import_created_as_restore, length_restore_created_lessons.
    by rewrite entries_snapshot_lesson_count, group_by_module_count. }
  split_and!; [done..| |].
  - rewrite currentStats_fetched, Hm, Hl; [done|].
    rewrite Hdb, import_created_as_restore. apply restore_created_store_ok.
  - unfold processImport in Hrun. rewrite Hitems in Hrun.
    body_ran Hrun Hbody.
    apply bind_inv_Ok in Hbody as ([] & w1 & _ & Hbody).
    apply bind_inv_Ok in Hbody as ([] & w2 & _ & Hbody).
    apply bind_inv_Ok in Hbody as (fetched & w3 & _ & Hbody).
    apply bind_inv_Ok in Hbody as ([] & w4 & Htoast & [= _ _ <-]).
    injection Htoast as <-. cbn [toasts]. by rewrite last_snoc.
Qed.

Lemma X2_witness :
  let st := import_state sample_batch in
  let r := processImport st [] sample_world in
  getPreviewStats st = mkStats 2 3 ∧
  length (tbl_modules (db r.2)) = stats_modules (getPreviewStats st) ∧
  length (tbl_lessons (db r.2)) = stats_lessons (getPreviewStats st).
Proof.
  intros st r.
  assert (succeeded r.2) as Hsucc.
  { exists (toast_success "Imported 2 modules with 3 lessons"). by vm_compute. }
  split; [done|].
  refine (_ (X2_preview_stats_are_import_counts st
               (value_of (st, []) r.1).1 sample_batch [] (value_of (st, []) r.1).2
               sample_world r.2 eq_refl sample_store_ok _ Hsucc));
    [intros (H1 & H2 & _); by split|by vm_compute].
Defined.

(** X3. The counts on a snapshot's card announce what restoring it does:
    after a successful restore the store holds exactly that many modules
    and that many lessons, and the hierarchy fetched from it shows the
    same counts in the "Current" line. A module stored without a lesson
    list counts as a module with no lessons. *)
Theorem X3_snapshot_stats_are_restore_counts
    (snapshot : Snapshot) (modules modules' : list CModule) (w w' : World) :
  store_ok (db w) →
  restoreSnapshot snapshot modules w = (Ok modules', w') →
  succeeded w' →
  length (tbl_modules (db w')) = stats_modules (getSnapshotStats snapshot) ∧
  length (tbl_lessons (db w')) = stats_lessons (getSnapshotStats snapshot) ∧
  currentStats (select_nested (db w')) = getSnapshotStats snapshot.
Proof.
  intros Hok Hrun Hsucc.
  destruct (restoreSnapshot_inv _ _ _ _ _ Hok Hrun Hsucc) as [Hdb _].
  rewrite getSnapshotStats_counts. cbn [stats_modules stats_lessons].
  assert (length (tbl_modules (db w'))
          = length (default [] (sd_modules (s_data snapshot)))) as Hm.
  { rewrite Hdb. cbn [tbl_modules].
    by rewrite length_fmap, length_restore_created. }
  assert (length (tbl_lessons (db w'))
          = sum_list_with (λ sm, length (default [] (sm_lessons sm)))
              (default [] (sd_modules (s_data snapshot)))) as Hl.
  { rewrite Hdb. cbn [tbl_lessons]. apply length_restore_created_lessons. }
  split_and!; [done..|].
  rewrite currentStats_fetched, Hm, Hl; [done|].
  rewrite Hdb. apply restore_created_store_ok.
Qed.

Lemma X3_witness :
  let r := restoreSnapshot sample_ordinal_snapshot [] sample_world in
  getSnapshotStats sample_ordinal_snapshot = mkStats 2 3 ∧
  currentStats (select_nested (db r.2)) = getSnapshotStats sample_ordinal_snapshot.
Proof.
  intros r.
  assert (succeeded r.2) as Hsucc.
  { exists (toast_success "Snapshot restored successfully"). by vm_compute. }
  split; [done|].
  refine (_ (X3_snapshot_stats_are_restore_counts sample_ordinal_snapshot []
               (value_of [] r.1) sample_world r.2 sample_store_ok _ Hsucc));
    [intros (_ & _ & H); exact H|by vm_compute].
Defined.

(** ** What the preview accepts *)

Lemma validate_from_Valid_iff parsed : ∀ i0 items,
  validate_from i0 parsed = Valid items ↔
  ∃ records, parsed = Some <$> records ∧ Forall acceptable records ∧
             items = as_ImportItem <$> records.
Proof.
  induction parsed as [|[item|] parsed IH]; intros i0 items; cbn [validate_from].
  - split.
    + intros [= <-]. by exists [].
    + intros (records & Hnil & _ & ->). symmetry in Hnil.
      by apply fmap_nil_inv in Hnil as ->.
  - split.
    + destruct (truthy (raw_module item)) eqn:Hm,
        (truthy (raw_title item)) eqn:Ht; cbn [negb orb]; try done.
      destruct (validate_from (S i0) parsed) as [rest| |] eqn:Hrest; try done.
      intros [= <-]. apply IH in Hrest as (records & -> & Hacc & ->).
      exists (item :: records). split_and!; [done| |done].
      by constructor.
    + intros ([|record records] & Heq & Hacc & ->); [done|].
      injection Heq as -> ->. apply Forall_cons in Hacc as [[Hm Ht] Hacc].
      rewrite Hm, Ht. cbn [negb orb].
      rewrite (proj2 (IH (S i0) (as_ImportItem <$> records))); [done|].
      by exists records.
  - split; [done|]. by intros ([|record records] & Heq & _).
Qed.

(** X4. The preview accepts a text exactly when it is not blank and parses
    to an array all of whose elements are objects with a non-empty
    [module] and [title]; the preview data are then these elements, in
    order. The error line is empty exactly when the text was accepted, and
    the text and the open dialog stay as they are either way. *)
Theorem X4_preview_accepts_exactly_the_well_formed
    (JSON_parse : string → option Parsed) (st : ImportState)
    (items : list ImportItem) :
  (previewData (validateAndPreview JSON_parse st) = Some items ↔
   is_blank (jsonInput st) = false ∧
   ∃ records, JSON_parse (jsonInput st) = Some (AnArray (Some <$> records)) ∧
              Forall acceptable records ∧ items = as_ImportItem <$> records) ∧
  (error (validateAndPreview JSON_parse st) = ""
   ↔ is_Some (previewData (validateAndPreview JSON_parse st))) ∧
  jsonInput (validateAndPreview JSON_parse st) = jsonInput st ∧
  isOpen (validateAndPreview JSON_parse st) = isOpen st.
Proof.
  split_and!.
  - split.
    + unfold validateAndPreview.
      destruct (is_blank (jsonInput st)) eqn:Hblank; [done|].
      destruct (JSON_parse (jsonInput st)) as [[|parsed]|] eqn:Hparse; try done.
      destruct (validate_from 0 parsed) as [valid|i|] eqn:Hv; try done.
      cbn [previewData]. intros [= <-]. split; [done|].
      apply validate_from_Valid_iff in Hv as (records & -> & Hacc & ->).
      by exists records.
    + intros (Hblank & records & Hparse & Hacc & ->).
      unfold validateAndPreview. rewrite Hblank, Hparse.
      rewrite (proj2 (validate_from_Valid_iff (Some <$> records) 0
                        (as_ImportItem <$> records))); [done|].
      by exists records.
  - unfold validateAndPreview.
    destruct (is_blank (jsonInput st)); [split; [done|by intros [? ?]]|].
    destruct (JSON_parse (jsonInput st)) as [[|parsed]|];
      [split; [done|by intros [? ?]]| |split; [done|by intros [? ?]]].
    destruct (validate_from 0 parsed) as [valid|i|];
      [split; [by eexists|done]|split; [done|by intros [? ?]]..].
  - unfold validateAndPreview. by repeat case_match.
  - unfold validateAndPreview. by repeat case_match.
Qed.

(** ** Footprints: what a handler can do to the world at all *)

Lemma reaches_trans allowed w1 w2 w3 :
  reaches allowed w1 w2 → reaches allowed w2 w3 → reaches allowed w1 w3.
Proof.
  induction 1 as [w|r w w' Hr _ IH|t w w' _ IH]; intros H23.
  - done.
  - eapply reaches_request; [done|]. by apply IH.
  - eapply reaches_toast. by apply IH.
Qed.

Lemma reaches_weaken (allowed allowed' : Request → Prop) w w' :
  (∀ r, allowed r → allowed' r) → reaches allowed w w' → reaches allowed' w w'.
Proof.
  intros Hsub. induction 1 as [w|r w w' Hr _ IH|t w w' _ IH].
  - constructor.
  - eapply reaches_request; [by apply Hsub|done].
  - by eapply reaches_toast.
Qed.

(** What every allowed request and every notification keeps, a run keeps. *)
Lemma reaches_keeps (I : World → Prop) allowed w w' :
  (∀ r w, allowed r → I w → I (after_request r w)) →
  (∀ t w, I w → I (after_toast t w)) →
  reaches allowed w w' → I w → I w'.
Proof.
  intros Hreq Htoast. induction 1 as [w|r w w' Hr _ IH|t w w' _ IH]; intros Hw.
  - done.
  - apply IH. by apply Hreq.
  - apply IH. by apply Htoast.
Qed.

Lemma footprint_weaken {A} (allowed allowed' : Request → Prop) (m : M A) :
  (∀ r, allowed r → allowed' r) → footprint allowed m → footprint allowed' m.
Proof. intros Hsub Hm w. by eapply reaches_weaken. Qed.

Lemma footprint_ret {A} allowed (a : A) : footprint allowed (ret a).
Proof. intros w. constructor. Qed.

Lemma footprint_throw {A} allowed message : footprint allowed (@throw A message).
Proof. intros w. constructor. Qed.

Lemma footprint_bind {A B} allowed (m : M A) (k : A → M B) :
  footprint allowed m → (∀ a, footprint allowed (k a)) →
  footprint allowed (bind m k).
Proof.
  intros Hm Hk w. unfold bind. specialize (Hm w).
  destruct (m w) as [[a|e] w1]; cbn [snd] in *; [|done].
  eapply reaches_trans; [done|]. apply Hk.
Qed.

Lemma footprint_try_catch {A} allowed (body : M A) handler :
  footprint allowed body → (∀ e, footprint allowed (handler e)) →
  footprint allowed (try_catch body handler).
Proof.
  intros Hbody Hhandler w. unfold try_catch. specialize (Hbody w).
  destruct (body w) as [[a|e] w1]; cbn [snd] in *; [done|].
  eapply reaches_trans; [done|]. apply Hhandler.
Qed.

Lemma footprint_toast allowed t : footprint allowed (toast t).
Proof. intros w. eapply reaches_toast. constructor. Qed.

Lemma footprint_request {A} (allowed : Request → Prop) r
    (exec : Db → nat → result A * (Db * nat)) :
  (∀ d n, (exec d n).2 = effect r d n) → allowed r →
  footprint allowed (request r exec).
Proof.
  intros Hexec Hr w. eapply reaches_request; [done|].
  replace (request r exec w).2 with (after_request r w); [constructor|].
  unfold request, after_request. rewrite <- Hexec.
  destruct (default false (head (faults w))); [done|].
  by destruct (exec (db w) (next_uuid w)) as [res [d n]].
Qed.

Lemma footprint_select allowed :
  allowed SelectModules → footprint allowed api_select_modules.
Proof. by apply footprint_request. Qed.

Lemma footprint_insert_module allowed name position :
  allowed (InsertModule name position) →
  footprint allowed (api_insert_module name position).
Proof. by apply footprint_request. Qed.

Lemma footprint_insert_lessons allowed rows :
  allowed (InsertLessons rows) → footprint allowed (api_insert_lessons rows).
Proof. by apply footprint_request. Qed.

Lemma footprint_update_module_position allowed position f :
  allowed (UpdateModulePosition position f) →
  footprint allowed (api_update_module_position position f).
Proof. by apply footprint_request. Qed.

Lemma footprint_update_lesson_position allowed position f :
  allowed (UpdateLessonPosition position f) →
  footprint allowed (api_update_lesson_position position f).
Proof. by apply footprint_request. Qed.

Lemma footprint_delete_modules allowed f :
  allowed (DeleteModules f) → footprint allowed (api_delete_modules f).
Proof. by apply footprint_request. Qed.

Lemma footprint_delete_lessons allowed f :
  allowed (DeleteLessons f) → footprint allowed (api_delete_lessons f).
Proof. by apply footprint_request. Qed.

Lemma footprint_insert_snapshot allowed name data :
  allowed (InsertSnapshot name data) →
  footprint allowed (api_insert_snapshot name data).
Proof. by apply footprint_request. Qed.

Lemma footprint_set_state {A} allowed (l : list (option A)) :
  footprint allowed (set_state l).
Proof.
  unfold set_state. destruct (all_defined l);
    [apply footprint_ret|apply footprint_throw].
Qed.

Create HintDb footprint discriminated.

#[local] Hint Resolve footprint_ret footprint_throw footprint_toast
  footprint_set_state footprint_select footprint_insert_module
  footprint_insert_lessons footprint_update_module_position
  footprint_update_lesson_position footprint_delete_modules
  footprint_delete_lessons footprint_insert_snapshot : footprint.
#[local] Hint Extern 2 (footprint _ (bind _ _)) =>
  apply footprint_bind; [|intros ?] : footprint.
#[local] Hint Extern 2 (footprint _ (try_catch _ _)) =>
  apply footprint_try_catch; [|intros ?] : footprint.
#[local] Hint Extern 1 (is_replace_step _) => exact I : footprint.
#[local] Hint Extern 1 (is_module_position_write _) => exact I : footprint.
#[local] Hint Extern 1 (is_lesson_position_write _) => exact I : footprint.
#[local] Hint Extern 1 (is_module_insert _) => exact I : footprint.
#[local] Hint Extern 1 (is_module_delete _) => exact I : footprint.
#[local] Hint Extern 1 (is_lesson_insert _) => exact I : footprint.
#[local] Hint Extern 1 (is_lesson_delete _) => exact I : footprint.
#[local] Hint Extern 1 (is_snapshot_insert _) => exact I : footprint.
#[local] Hint Extern 1 (is_query _) => reflexivity : footprint.

Ltac footprints := eauto 20 with footprint.

Lemma footprint_fetchModules modules : footprint is_query (fetchModules modules).
Proof. unfold fetchModules. footprints. Qed.

Lemma footprint_addModule name modules :
  footprint is_module_insert (addModule name modules).
Proof. unfold addModule. destruct (is_blank name); footprints. Qed.

Lemma footprint_updateModulePositions_loop newModules : ∀ i,
  footprint is_module_position_write (updateModulePositions_loop i newModules).
Proof.
  induction newModules as [|[m|] rest IH]; intros i;
    cbn [updateModulePositions_loop]; footprints.
Qed.

Lemma footprint_updateLessonPositions_loop newLessons : ∀ i,
  footprint is_lesson_position_write (updateLessonPositions_loop i newLessons).
Proof.
  induction newLessons as [|[l|] rest IH]; intros i;
    cbn [updateLessonPositions_loop]; footprints.
Qed.

#[local] Hint Resolve footprint_updateModulePositions_loop
  footprint_updateLessonPositions_loop : footprint.

Lemma footprint_handleDragEnd event modules :
  footprint is_module_position_write (handleDragEnd event modules).
Proof.
  unfold handleDragEnd, updateModulePositions.
  destruct (over_id event); [|footprints].
  destruct (String.eqb _ _); [footprints|].
  destruct (_ && _); footprints.
Qed.

Lemma footprint_handleLessonDragEnd event m modules :
  footprint is_lesson_position_write (handleLessonDragEnd event m modules).
Proof.
  unfold handleLessonDragEnd, updateLessonPositions.
  destruct (over_id event); [|footprints].
  destruct (String.eqb _ _); [footprints|].
  destruct (_ && _); footprints.
Qed.

Lemma footprint_deleteModule moduleId modules :
  footprint is_module_delete (deleteModule moduleId modules).
Proof. unfold deleteModule. footprints. Qed.

Lemma footprint_addLesson newTitle newIframe m modules :
  footprint is_lesson_insert (addLesson newTitle newIframe m modules).
Proof.
  unfold addLesson. destruct (is_blank newTitle); [footprints|].
  apply footprint_try_catch; [|footprints].
  apply footprint_bind; [footprints|].
  intros [|created [|? ?]]; footprints.
Qed.

Lemma footprint_deleteLesson lessonId m modules :
  footprint is_lesson_delete (deleteLesson lessonId m modules).
Proof. unfold deleteLesson. footprints. Qed.

Lemma footprint_import_loop entries : ∀ position,
  footprint is_replace_step (import_loop position entries).
Proof.
  induction entries as [|[moduleName lessons] entries IH]; intros position;
    cbn [import_loop]; footprints.
Qed.

Lemma footprint_restore_loop snapshotModules :
  footprint is_replace_step (restore_loop snapshotModules).
Proof.
  induction snapshotModules as [|sm rest IH]; cbn [restore_loop]; [footprints|].
  apply footprint_bind; [footprints|]. intros row.
  apply footprint_bind; [|done].
  destruct (sm_lessons sm) as [[|lesson lessons]|]; footprints.
Qed.

Lemma footprint_fetchModules_replace modules :
  footprint is_replace_step (fetchModules modules).
Proof.
  eapply footprint_weaken; [|apply footprint_fetchModules]. by intros r ->.
Qed.

#[local] Hint Resolve footprint_import_loop footprint_restore_loop
  footprint_fetchModules_replace : footprint.

Lemma footprint_processImport st modules :
  footprint is_replace_step (processImport st modules).
Proof. unfold processImport. destruct (previewData st); footprints. Qed.

Lemma footprint_restoreSnapshot snapshot modules :
  footprint is_replace_step (restoreSnapshot snapshot modules).
Proof. unfold restoreSnapshot. footprints. Qed.

Lemma footprint_createSnapshot name modules snapshots :
  footprint is_snapshot_insert (createSnapshot name modules snapshots).
Proof. unfold createSnapshot. destruct (is_blank name); footprints. Qed.

Lemma footprint_serve method : footprint is_query (serve method).
Proof. unfold serve. destruct (String.eqb method "OPTIONS"); footprints. Qed.

(** ** The store stays well formed *)

Lemma module_ids_updated (f : ModuleRow → ModuleRow) (rows : list ModuleRow) :
  (∀ r, r_id (f r) = r_id r) → r_id <$> (f <$> rows) = r_id <$> rows.
Proof.
  intros Hf. rewrite <- list_fmap_compose. apply list_fmap_ext. intros _ r _. apply Hf.
Qed.

Lemma effect_store_inv r d n :
  store_ok d → unused_from d n →
  store_ok (effect r d n).1 ∧ unused_from (effect r d n).1 (effect r d n).2.
Proof.
  intros [Hmids Hlids Hfk Hsentinel] Hfresh.
  destruct r as [|name position|rows|position f|position f|f|f|name data];
    unfold effect, insert_module, insert_lessons, update_module_position,
      update_lesson_position, delete_modules, delete_lessons, insert_snapshot;
    cbn [fst snd].
  - by split.
  - split; [split|]; unfold module_ids in *; cbn [tbl_modules tbl_lessons].
    + rewrite fmap_app. apply NoDup_app. split_and!; [done| |apply NoDup_singleton].
      intros id Hid ->%list_elem_of_singleton.
      by apply (proj1 (Hfresh n (le_n n))).
    + done.
    + intros l Hl. rewrite fmap_app. apply elem_of_app. left. by apply Hfk.
    + rewrite fmap_app. intros [?|Heq%list_elem_of_singleton]%elem_of_app; [done|].
      symmetry in Heq. by apply uuid_not_sentinel in Heq.
    + intros k Hk. unfold module_ids. cbn [tbl_modules tbl_lessons].
      destruct (Hfresh k) as [Hm Hl]; [lia|]. split; [|done].
      rewrite fmap_app. intros [?|Heq%list_elem_of_singleton]%elem_of_app; [done|].
      apply uuid_inj in Heq. lia.
  - destruct (forallb _ rows) eqn:Hcheck; cbn [fst snd]; [|by split].
    assert (∀ l, l ∈ imap (new_lesson n) rows →
                 ∃ i, (i < length rows)%nat ∧ l_id l = uuid (n + i) ∧
                      l_module_id l ∈ module_ids d) as Hnew.
    { intros l (i & row & -> & Hi)%elem_of_lookup_imap. exists i.
      split_and!; [by eapply lookup_lt_Some|done|]. cbn.
      rewrite forallb_forall in Hcheck.
      apply (bool_decide_eq_true_1 (li_module_id row ∈ module_ids d)).
      apply Hcheck, list_elem_of_In. by eapply list_elem_of_lookup_2. }
    split; [split|]; unfold module_ids in *; cbn [tbl_modules tbl_lessons].
    + done.
    + rewrite fmap_app. apply NoDup_app. split_and!; [done| |].
      * intros id Hid (l & -> & Hl)%list_elem_of_fmap.
        apply Hnew in Hl as (i & _ & Heq & _). rewrite Heq in Hid.
        by apply (proj2 (Hfresh (n + i)%nat ltac:(lia))).
      * rewrite fmap_imap. cbn [l_id new_lesson].
        rewrite (imap_seq_0 _ (λ i, uuid (n + i))).
        apply NoDup_fmap_2_strong; [|apply NoDup_seq].
        intros i j _ _ Hij%uuid_inj. lia.
    + intros l [Hl|Hl]%elem_of_app; [by apply Hfk|].
      by apply Hnew in Hl as (i & _ & _ & Hin).
    + done.
    + intros k Hk. unfold module_ids. cbn [tbl_modules tbl_lessons].
      destruct (Hfresh k) as [Hm Hl]; [lia|]. split; [done|].
      rewrite fmap_app. intros [?|(l & Heq & Hin)%list_elem_of_fmap]%elem_of_app;
        [done|].
      apply Hnew in Hin as (i & Hi & Heq' & _). rewrite Heq' in Heq.
      apply uuid_inj in Heq. lia.
  - assert (r_id <$> ((λ r, if matches f (r_id r) then set_module_position position r
                            else r) <$> tbl_modules d)
            = r_id <$> tbl_modules d) as Hids.
    { apply module_ids_updated. intros r. by destruct (matches f (r_id r)). }
    split; [split|]; unfold module_ids in *; cbn [tbl_modules tbl_lessons];
      rewrite ?Hids; try done.
    intros k Hk. unfold module_ids. cbn [tbl_modules tbl_lessons].
    rewrite Hids. by apply Hfresh.
  - assert (l_id <$> ((λ l, if matches f (l_id l) then set_lesson_position position l
                            else l) <$> tbl_lessons d)
            = l_id <$> tbl_lessons d) as Hids.
    { rewrite <- list_fmap_compose. apply list_fmap_ext. intros _ l _. cbn.
      by destruct (matches f (l_id l)). }
    split; [split|]; unfold module_ids in *; cbn [tbl_modules tbl_lessons];
      rewrite ?Hids; try done.
    + intros l' (l & -> & Hl)%list_elem_of_fmap.
      specialize (Hfk l Hl). by destruct (matches f (l_id l)).
    + intros k Hk. unfold module_ids. cbn [tbl_modules tbl_lessons].
      rewrite Hids. by apply Hfresh.
  - split; [split|]; unfold module_ids in *; cbn [tbl_modules tbl_lessons].
    + by apply sublist_fmap_filter.
    + by apply sublist_fmap_filter.
    + intros l [Hkept Hl]%list_elem_of_filter.
      apply Hfk, list_elem_of_fmap in Hl as (r & Heq & Hr).
      apply list_elem_of_fmap. exists r. split; [done|].
      apply list_elem_of_filter. split; [|done].
      destruct (matches f (r_id r)) eqn:Hmatch; [|done].
      destruct Hkept. rewrite Heq. apply list_elem_of_fmap_2.
      by apply list_elem_of_filter.
    + intros (r & Heq & [_ Hr]%list_elem_of_filter)%list_elem_of_fmap.
      apply Hsentinel. rewrite Heq. by apply list_elem_of_fmap_2.
    + intros k Hk. unfold module_ids. cbn [tbl_modules tbl_lessons].
      destruct (Hfresh k Hk) as [Hm Hl]. split.
      * intros (r & Heq & [_ Hr]%list_elem_of_filter)%list_elem_of_fmap.
        apply Hm. rewrite Heq. by apply list_elem_of_fmap_2.
      * intros (l & Heq & [_ Hin]%list_elem_of_filter)%list_elem_of_fmap.
        apply Hl. rewrite Heq. by apply list_elem_of_fmap_2.
  - split; [split|]; unfold module_ids in *; cbn [tbl_modules tbl_lessons].
    + done.
    + by apply sublist_fmap_filter.
    + intros l [_ Hl]%list_elem_of_filter. by apply Hfk.
    + done.
    + intros k Hk. unfold module_ids. cbn [tbl_modules tbl_lessons].
      destruct (Hfresh k Hk) as [Hm Hl]. split; [done|].
      intros (l & Heq & [_ Hin]%list_elem_of_filter)%list_elem_of_fmap.
      apply Hl. rewrite Heq. by apply list_elem_of_fmap_2.
  - split; [by split|]. intros k Hk. apply Hfresh. lia.
Qed.

Lemma reaches_store_inv allowed w w' :
  reaches allowed w w' → store_inv w → store_inv w'.
Proof.
  apply reaches_keeps.
  - intros r w0 _ [Hok Hfresh]. unfold store_inv, after_request.
    destruct (default false (head (faults w0))); cbn [db next_uuid]; [done|].
    by apply effect_store_inv.
  - by intros t w0.
Qed.

Lemma sample_world_inv : store_inv sample_world.
Proof.
  split; [exact sample_store_ok|].
  intros k _. unfold uuid.
  split; intros Hin; cbn in Hin;
    repeat (apply elem_of_cons in Hin as [Heq|Hin]; [discriminate Heq|]);
    by apply elem_of_nil in Hin.
Qed.



(** ** Each handler stays in its tables *)

Lemma reaches_frame {T} (proj : Db → T) allowed w w' :
  (∀ r d n, allowed r → proj (effect r d n).1 = proj d) →
  reaches allowed w w' → proj (db w') = proj (db w).
Proof.
  intros Heffect Hrun.
  apply (reaches_keeps (λ w0, proj (db w0) = proj (db w)) allowed w w');
    [| |done|done].
  - intros r w0 Hr Hw0. unfold after_request.
    destruct (default false (head (faults w0))); cbn [db]; [done|].
    by rewrite Heffect.
  - by intros t w0.
Qed.

Lemma reaches_counter allowed w w' :
  (∀ r d n, allowed r → (effect r d n).2 = n) →
  reaches allowed w w' → next_uuid w' = next_uuid w.
Proof.
  intros Heffect Hrun.
  apply (reaches_keeps (λ w0, next_uuid w0 = next_uuid w) allowed w w');
    [| |done|done].
  - intros r w0 Hr Hw0. unfold after_request.
    destruct (default false (head (faults w0))); cbn [next_uuid]; [done|].
    by rewrite Heffect.
  - by intros t w0.
Qed.

Ltac frame_effect :=
  let r := fresh "r" in
  intros r ? ? ?; destruct r; try done;
  unfold effect, insert_module, insert_lessons, update_module_position,
    update_lesson_position, delete_modules, delete_lessons, insert_snapshot;
  try (destruct (forallb _ _)); done.

Lemma module_rows_repositioned position f (rows : list ModuleRow) :
  set_module_position 0
  <$> ((λ r, if matches f (r_id r) then set_module_position position r else r)
       <$> rows)
  = set_module_position 0 <$> rows.
Proof.
  rewrite <- list_fmap_compose. apply list_fmap_ext. intros _ r _. cbn.
  by destruct (matches f (r_id r)).
Qed.

Lemma lesson_rows_repositioned position f (rows : list Lesson) :
  set_lesson_position 0
  <$> ((λ l, if matches f (l_id l) then set_lesson_position position l else l)
       <$> rows)
  = set_lesson_position 0 <$> rows.
Proof.
  rewrite <- list_fmap_compose. apply list_fmap_ext. intros _ l _. cbn.
  by destruct (matches f (l_id l)).
Qed.

(** X6. A drag writes positions and nothing else, whatever identifiers the
    event carries and however the store answers. After the module handler
    the module rows are the old rows in the old table order with, at most,
    other positions: no row is added, removed or renamed, and the lessons
    are untouched. After the lesson handler the lesson rows are the old
    ones up to position (title, video markup and owning module are kept)
    and the modules are untouched. Neither draws a new identity nor
    touches a snapshot. *)
Theorem X6_drag_writes_positions_only
    (event : DragEndEvent) (m : CModule) (modules : list CModule) (w : World) :
  (let w' := (handleDragEnd event modules w).2 in
   set_module_position 0 <$> tbl_modules (db w')
     = set_module_position 0 <$> tbl_modules (db w) ∧
   tbl_lessons (db w') = tbl_lessons (db w) ∧
   tbl_snapshots (db w') = tbl_snapshots (db w) ∧
   next_uuid w' = next_uuid w) ∧
  (let w' := (handleLessonDragEnd event m modules w).2 in
   set_lesson_position 0 <$> tbl_lessons (db w')
     = set_lesson_position 0 <$> tbl_lessons (db w) ∧
   tbl_modules (db w') = tbl_modules (db w) ∧
   tbl_snapshots (db w') = tbl_snapshots (db w) ∧
   next_uuid w' = next_uuid w).
Proof.
  split.
  - pose proof (footprint_handleDragEnd event modules w) as Hrun.
    cbn zeta. split_and!.
    + apply (reaches_frame (λ d, set_module_position 0 <$> tbl_modules d)
               is_module_position_write); [|done].
      intros r d n Hr. destruct r; try done. cbn [effect update_module_position fst snd tbl_modules].
      apply module_rows_repositioned.
    + apply (reaches_frame tbl_lessons is_module_position_write); [|done].
      frame_effect.
    + apply (reaches_frame tbl_snapshots is_module_position_write); [|done].
      frame_effect.
    + apply (reaches_counter is_module_position_write); [|done]. frame_effect.
  - pose proof (footprint_handleLessonDragEnd event m modules w) as Hrun.
    cbn zeta. split_and!.
    + apply (reaches_frame (λ d, set_lesson_position 0 <$> tbl_lessons d)
               is_lesson_position_write); [|done].
      intros r d n Hr. destruct r; try done. cbn [effect update_lesson_position fst snd tbl_lessons].
      apply lesson_rows_repositioned.
    + apply (reaches_frame tbl_modules is_lesson_position_write); [|done].
      frame_effect.
    + apply (reaches_frame tbl_snapshots is_lesson_position_write); [|done].
      frame_effect.
    + apply (reaches_counter is_lesson_position_write); [|done]. frame_effect.
Qed.

(** X7. Each handler stays in its tables, whatever its inputs and however
    the store answers. Fetching changes nothing in the store. Adding or
    deleting a lesson leaves the modules as they are; adding a module
    leaves the lessons as they are. No course operation, the bulk
    replaces by import and by restore included, alters or removes a stored
    snapshot. Capturing a snapshot leaves modules and lessons as they are
    and only ever puts rows in front of the stored snapshots. *)
Theorem X7_handlers_stay_in_their_tables (w : World) :
  (∀ modules, db (fetchModules modules w).2 = db w) ∧
  (∀ name modules,
     tbl_lessons (db (addModule name modules w).2) = tbl_lessons (db w) ∧
     tbl_snapshots (db (addModule name modules w).2) = tbl_snapshots (db w)) ∧
  (∀ moduleId modules,
     tbl_snapshots (db (deleteModule moduleId modules w).2)
     = tbl_snapshots (db w)) ∧
  (∀ newTitle newIframe m modules,
     tbl_modules (db (addLesson newTitle newIframe m modules w).2)
       = tbl_modules (db w) ∧
     tbl_snapshots (db (addLesson newTitle newIframe m modules w).2)
       = tbl_snapshots (db w)) ∧
  (∀ lessonId m modules,
     tbl_modules (db (deleteLesson lessonId m modules w).2) = tbl_modules (db w) ∧
     tbl_snapshots (db (deleteLesson lessonId m modules w).2)
       = tbl_snapshots (db w)) ∧
  (∀ st modules,
     tbl_snapshots (db (processImport st modules w).2) = tbl_snapshots (db w)) ∧
  (∀ snapshot modules,
     tbl_snapshots (db (restoreSnapshot snapshot modules w).2)
     = tbl_snapshots (db w)) ∧
  (∀ name modules snapshots,
     tbl_modules (db (createSnapshot name modules snapshots w).2)
       = tbl_modules (db w) ∧
     tbl_lessons (db (createSnapshot name modules snapshots w).2)
       = tbl_lessons (db w) ∧
     ∃ added, tbl_snapshots (db (createSnapshot name modules snapshots w).2)
              = added ++ tbl_snapshots (db w)).
Proof.
  split_and!.
  - intros modules.
    apply (reaches_frame id is_query); [|apply footprint_fetchModules].
    by intros r d n ->.
  - intros name modules.
    pose proof (footprint_addModule name modules w) as Hrun. split.
    + apply (reaches_frame tbl_lessons is_module_insert); [frame_effect|done].
    + apply (reaches_frame tbl_snapshots is_module_insert); [frame_effect|done].
  - intros moduleId modules.
    apply (reaches_frame tbl_snapshots is_module_delete);
      [frame_effect|apply footprint_deleteModule].
  - intros newTitle newIframe m modules.
    pose proof (footprint_addLesson newTitle newIframe m modules w) as Hrun. split.
    + apply (reaches_frame tbl_modules is_lesson_insert); [frame_effect|done].
    + apply (reaches_frame tbl_snapshots is_lesson_insert); [frame_effect|done].
  - intros lessonId m modules.
    pose proof (footprint_deleteLesson lessonId m modules w) as Hrun. split.
    + apply (reaches_frame tbl_modules is_lesson_delete); [frame_effect|done].
    + apply (reaches_frame tbl_snapshots is_lesson_delete); [frame_effect|done].
  - intros st modules.
    apply (reaches_frame tbl_snapshots is_replace_step);
      [frame_effect|apply footprint_processImport].
  - intros snapshot modules.
    apply (reaches_frame tbl_snapshots is_replace_step);
      [frame_effect|apply footprint_restoreSnapshot].
  - intros name modules snapshots.
    pose proof (footprint_createSnapshot name modules snapshots w) as Hrun.
    split_and!.
    + apply (reaches_frame tbl_modules is_snapshot_insert); [frame_effect|done].
    + apply (reaches_frame tbl_lessons is_snapshot_insert); [frame_effect|done].
    + apply (reaches_keeps
               (λ w0, ∃ added, tbl_snapshots (db w0) = added ++ tbl_snapshots (db w))
               is_snapshot_insert w); [| |done|by exists []].
      * intros r w0 Hr [added Hadded]. unfold after_request.
        destruct (default false (head (faults w0))); cbn [db]; [by exists added|].
        destruct r; try done. cbn [effect insert_snapshot fst snd tbl_snapshots].
        rewrite Hadded. by eexists (_ :: added).
      * by intros t w0.
Qed.

(** ** Writes that fail *)

(** X8. A single write that the store refuses changes nothing: for adding
    and deleting a module or a lesson and for capturing a snapshot, the
    handler then returns the list it was given (no phantom entry, nothing
    dropped from the screen), leaves the store and the identity counter as
    they were, has issued that one request and no other, and has shown
    its error notification. *)
Theorem X8_refused_single_write_changes_nothing (w : World) :
  head (faults w) = Some true →
  (∀ name modules, is_blank name = false →
     addModule name modules w
     = (Ok modules,
        refused_with (InsertModule name (Z.of_nat (length modules)))
          "Failed to add module" w)) ∧
  (∀ moduleId modules,
     deleteModule moduleId modules w
     = (Ok modules,
        refused_with (DeleteModules (IdEq moduleId)) "Failed to delete module" w)) ∧
  (∀ newTitle newIframe m modules, is_blank newTitle = false →
     addLesson newTitle newIframe m modules w
     = (Ok modules,
        refused_with
          (InsertLessons [mkLessonInsert newTitle (Some newIframe)
                            (Z.of_nat (length (m_lessons m))) (m_id m)])
          "Failed to add lesson" w)) ∧
  (∀ lessonId m modules,
     deleteLesson lessonId m modules w
     = (Ok modules,
        refused_with (DeleteLessons (IdEq lessonId)) "Failed to delete lesson" w)) ∧
  (∀ name modules snapshots, is_blank name = false →
     createSnapshot name modules snapshots w
     = (Ok snapshots,
        refused_with (InsertSnapshot name (snapshotData modules))
          "Failed to create snapshot" w)).
Proof.
  intros Hdown. split_and!.
  - intros name modules Hname. unfold addModule. rewrite Hname.
    unfold try_catch, bind, api_insert_module.
    by rewrite request_refused.
  - intros moduleId modules. unfold deleteModule.
    unfold try_catch, bind, api_delete_modules.
    by rewrite request_refused.
  - intros newTitle newIframe m modules Hname. unfold addLesson. rewrite Hname.
    unfold try_catch, bind, api_insert_lessons.
    by rewrite request_refused.
  - intros lessonId m modules. unfold deleteLesson.
    unfold try_catch, bind, api_delete_lessons.
    by rewrite request_refused.
  - intros name modules snapshots Hname. unfold createSnapshot. rewrite Hname.
    unfold try_catch, bind, api_insert_snapshot.
    by rewrite request_refused.
Qed.

Lemma X8_witness :
  head (faults sample_world_down) = Some true ∧
  addModule "Third" (select_nested sample_store) sample_world_down
  = (Ok (select_nested sample_store),
     refused_with (InsertModule "Third" 2) "Failed to add module"
       sample_world_down).
Proof.
  split; [reflexivity|].
  exact (proj1 (X8_refused_single_write_changes_nothing sample_world_down eq_refl)
           "Third" (select_nested sample_store) eq_refl).
Defined.

(** X9. A module that is on screen but no longer in the store, and a store
    that answers. Adding a lesson to it fails on the foreign key: nothing
    is written, the list on screen stays as it is, and the error
    notification is shown. Deleting it ends with the success notification
    although the store, lessons included, is left exactly as it was. *)
Theorem X9_module_gone_from_the_store
    (m : CModule) (modules : list CModule) (w : World) :
  m_id m ∉ module_ids (db w) →
  head (faults w) ≠ Some true →
  (∀ newTitle newIframe, is_blank newTitle = false →
     (addLesson newTitle newIframe m modules w).1 = Ok modules ∧
     db (addLesson newTitle newIframe m modules w).2 = db w ∧
     next_uuid (addLesson newTitle newIframe m modules w).2 = next_uuid w ∧
     toasts (addLesson newTitle newIframe m modules w).2
       = toasts w ++ [toast_error "Failed to add lesson"]) ∧
  (deleteModule (m_id m) modules w).1
    = Ok (filter (λ m', m_id m' ≠ m_id m) modules) ∧
  db (deleteModule (m_id m) modules w).2 = db w ∧
  toasts (deleteModule (m_id m) modules w).2
    = toasts w ++ [toast_success "Module deleted successfully"].
Proof.
  intros Hgone Hup.
  assert (default false (head (faults w)) = false) as Hserved.
  { destruct (head (faults w)) as [[]|]; done. }
  split_and!.
  - intros newTitle newIframe Hname. unfold addLesson. rewrite Hname.
    unfold try_catch, bind, api_insert_lessons, request. rewrite Hserved.
    unfold insert_lessons. cbn [forallb li_module_id].
    rewrite bool_decide_eq_false_2 by done. done.
  - unfold deleteModule, try_catch, bind, api_delete_modules, request.
    by rewrite Hserved.
  - unfold deleteModule, try_catch, bind, api_delete_modules, request.
    rewrite Hserved. cbn [delete_modules snd db toast].
    assert (∀ r, r ∈ tbl_modules (db w) → matches (IdEq (m_id m)) (r_id r) = false)
      as Hnone.
    { intros r Hr. cbn. apply String.eqb_neq. intros Heq. apply Hgone.
      rewrite <- Heq. unfold module_ids. by apply list_elem_of_fmap_2. }
    rewrite (filter_none (λ r, matches (IdEq (m_id m)) (r_id r) = true)).
    + rewrite (filter_all (λ r, matches (IdEq (m_id m)) (r_id r) = false))
        by (by apply Forall_forall).
      rewrite (filter_all (λ l, l_module_id l ∉ r_id <$> [])).
      * by destruct (db w).
      * apply Forall_forall. intros l _. apply not_elem_of_nil.
    + apply Forall_forall. intros r Hr. by rewrite (Hnone r Hr).
  - unfold deleteModule, try_catch, bind, api_delete_modules, request.
    by rewrite Hserved.
Qed.

Lemma X9_witness :
  (addLesson "Late" "" (sample_module "gone" 5) [sample_module "gone" 5]
     sample_world).1
  = Ok [sample_module "gone" 5] ∧
  db (deleteModule "gone" [sample_module "gone" 5] sample_world).2 = sample_store.
Proof.
  assert (m_id (sample_module "gone" 5) ∉ module_ids (db sample_world)) as Hgone
    by compute_done.
  assert (head (faults sample_world) ≠ Some true) as Hup by done.
  pose proof (X9_module_gone_from_the_store (sample_module "gone" 5)
                [sample_module "gone" 5] sample_world Hgone Hup)
    as (Hadd & _ & Hdel & _).
  split; [exact (proj1 (Hadd "Late" "" eq_refl))|exact Hdel].
Defined.

(** ** A bulk replace that fails *)










(** ** The traffic of a reorder *)

Lemma same_db d :
  mkDb (tbl_modules d) (tbl_lessons d) (tbl_snapshots d) = d.
Proof. by destruct d. Qed.

Lemma drop_of_tail {A} (n : nat) (l : list A) : drop n (tail l) = drop (S n) l.
Proof. destruct l; cbn; [by destruct n|done]. Qed.

Lemma no_faults_served w : no_faults w → default false (head (faults w)) = false.
Proof. unfold no_faults. by intros [|b fs -> _]. Qed.

Lemma updateModulePositions_loop_served newModules : ∀ i w,
  no_faults w →
  updateModulePositions_loop i (Some <$> newModules) w
  = (Ok tt,
     mkWorld
       (mkDb (renumber r_id set_module_position i (m_id <$> newModules)
                (tbl_modules (db w)))
          (tbl_lessons (db w)) (tbl_snapshots (db w)))
       (next_uuid w) (drop (length newModules) (faults w))
       (log w ++ imap (λ j id, UpdateModulePosition (i + Z.of_nat j) (IdEq id))
                   (m_id <$> newModules))
       (toasts w)).
Proof.
  induction newModules as [|m rest IH]; intros i w Hw.
  - cbn. rewrite same_db, app_nil_r. by destruct w.
  - rewrite fmap_cons. cbn [updateModulePositions_loop].
    unfold bind at 1. cbn [ret]. unfold bind at 1.
    unfold api_update_module_position, request.
    rewrite (no_faults_served w Hw). cbn [update_module_position].
    rewrite IH by (by apply no_faults_tail).
    cbn [db next_uuid faults log toasts tbl_modules tbl_lessons tbl_snapshots
         renumber length fmap list_fmap imap].
    rewrite drop_of_tail, <- (assoc_L (++)). cbn [app].
    rewrite Z.add_0_r.
    rewrite (imap_ext (λ j id, UpdateModulePosition (i + 1 + Z.of_nat j) (IdEq id))
               (λ j id, UpdateModulePosition (i + Z.of_nat (S j)) (IdEq id)));
      [done|].
    intros j id _. f_equal. lia.
Qed.

Lemma updateModulePositions_loop_cut newModules : ∀ k i w fs,
  faults w = replicate k false ++ true :: fs →
  (k < length newModules)%nat →
  updateModulePositions_loop i (Some <$> newModules) w
  = (Throw STORE_ERROR,
     mkWorld
       (mkDb (renumber r_id set_module_position i (m_id <$> take k newModules)
                (tbl_modules (db w)))
          (tbl_lessons (db w)) (tbl_snapshots (db w)))
       (next_uuid w) fs
       (log w ++ imap (λ j id, UpdateModulePosition (i + Z.of_nat j) (IdEq id))
                   (m_id <$> take (S k) newModules))
       (toasts w)).
Proof.
  induction newModules as [|m rest IH]; intros k i w fs Hfaults Hk;
    [cbn in Hk; lia|].
  rewrite fmap_cons. cbn [updateModulePositions_loop].
  unfold bind at 1. cbn [ret]. unfold bind at 1.
  unfold api_update_module_position, request. rewrite Hfaults.
  destruct k as [|k]; cbn [replicate app head tail default from_option id].
  - cbn [take fmap list_fmap renumber imap]. by rewrite same_db, Z.add_0_r.
  - cbn [update_module_position].
    rewrite (IH k (i + 1) _ fs); [|done|cbn in Hk; lia].
    cbn [db next_uuid faults log toasts tbl_modules tbl_lessons tbl_snapshots
         renumber length fmap list_fmap imap take].
    rewrite <- (assoc_L (++)). cbn [app].
    rewrite Z.add_0_r.
    rewrite (imap_ext (λ j id, UpdateModulePosition (i + 1 + Z.of_nat j) (IdEq id))
               (λ j id, UpdateModulePosition (i + Z.of_nat (S j)) (IdEq id)));
      [done|].
    intros j id _. f_equal. lia.
Qed.

Lemma updateLessonPositions_loop_served newLessons : ∀ i w,
  no_faults w →
  updateLessonPositions_loop i (Some <$> newLessons) w
  = (Ok tt,
     mkWorld
       (mkDb (tbl_modules (db w))
          (renumber l_id set_lesson_position i (l_id <$> newLessons)
             (tbl_lessons (db w)))
          (tbl_snapshots (db w)))
       (next_uuid w) (drop (length newLessons) (faults w))
       (log w ++ imap (λ j id, UpdateLessonPosition (i + Z.of_nat j) (IdEq id))
                   (l_id <$> newLessons))
       (toasts w)).
Proof.
  induction newLessons as [|l rest IH]; intros i w Hw.
  - cbn. rewrite same_db, app_nil_r. by destruct w.
  - rewrite fmap_cons. cbn [updateLessonPositions_loop].
    unfold bind at 1. cbn [ret]. unfold bind at 1.
    unfold api_update_lesson_position, request.
    rewrite (no_faults_served w Hw). cbn [update_lesson_position].
    rewrite IH by (by apply no_faults_tail).
    cbn [db next_uuid faults log toasts tbl_modules tbl_lessons tbl_snapshots
         renumber length fmap list_fmap imap].
    rewrite drop_of_tail, <- (assoc_L (++)). cbn [app].
    rewrite Z.add_0_r.
    rewrite (imap_ext (λ j id, UpdateLessonPosition (i + 1 + Z.of_nat j) (IdEq id))
               (λ j id, UpdateLessonPosition (i + Z.of_nat (S j)) (IdEq id)));
      [done|].
    intros j id _. f_equal. lia.
Qed.

Lemma updateLessonPositions_loop_cut newLessons : ∀ k i w fs,
  faults w = replicate k false ++ true :: fs →
  (k < length newLessons)%nat →
  updateLessonPositions_loop i (Some <$> newLessons) w
  = (Throw STORE_ERROR,
     mkWorld
       (mkDb (tbl_modules (db w))
          (renumber l_id set_lesson_position i (l_id <$> take k newLessons)
             (tbl_lessons (db w)))
          (tbl_snapshots (db w)))
       (next_uuid w) fs
       (log w ++ imap (λ j id, UpdateLessonPosition (i + Z.of_nat j) (IdEq id))
                   (l_id <$> take (S k) newLessons))
       (toasts w)).
Proof.
  induction newLessons as [|l rest IH]; intros k i w fs Hfaults Hk;
    [cbn in Hk; lia|].
  rewrite fmap_cons. cbn [updateLessonPositions_loop].
  unfold bind at 1. cbn [ret]. unfold bind at 1.
  unfold api_update_lesson_position, request. rewrite Hfaults.
  destruct k as [|k]; cbn [replicate app head tail default from_option id].
  - cbn [take fmap list_fmap renumber imap]. by rewrite same_db, Z.add_0_r.
  - cbn [update_lesson_position].
    rewrite (IH k (i + 1) _ fs); [|done|cbn in Hk; lia].
    cbn [db next_uuid faults log toasts tbl_modules tbl_lessons tbl_snapshots
         renumber length fmap list_fmap imap take].
    rewrite <- (assoc_L (++)). cbn [app].
    rewrite Z.add_0_r.
    rewrite (imap_ext (λ j id, UpdateLessonPosition (i + 1 + Z.of_nat j) (IdEq id))
               (λ j id, UpdateLessonPosition (i + Z.of_nat (S j)) (IdEq id)));
      [done|].
    intros j id _. f_equal. lia.
Qed.

Lemma module_position_writes_from_0 ids :
  imap (λ j id, UpdateModulePosition (0 + Z.of_nat j) (IdEq id)) ids
  = module_position_writes ids.
Proof. apply imap_ext. intros j id _. f_equal. Qed.

Lemma lesson_position_writes_from_0 ids :
  imap (λ j id, UpdateLessonPosition (0 + Z.of_nat j) (IdEq id)) ids
  = lesson_position_writes ids.
Proof. apply imap_ext. intros j id _. f_equal. Qed.

Lemma handleDragEnd_moves modules movedId targetId i j x y w :
  movedId ≠ targetId →
  list_find (λ m, m_id m = movedId) modules = Some (i, x) →
  list_find (λ m, m_id m = targetId) modules = Some (j, y) →
  handleDragEnd (drop_on "module-" movedId targetId) modules w
  = (run updateModulePositions (Some <$> moved i j x modules) in
     ret (moved i j x modules)) w.
Proof.
  intros Hne Hi Hj. unfold handleDragEnd, drop_on. cbn [over_id active_id].
  destruct (String.eqb _ _) eqn:Heq; [by apply tagged_eqb in Heq|].
  rewrite !prefix_tag. cbn [andb].
  rewrite !findIndex_module_tag, Hi, Hj.
  apply list_find_Some in Hi as (Hi & _).
  apply list_find_Some in Hj as (Hj%lookup_lt_Some & _).
  rewrite (arrayMove_in_range _ _ _ x) by done.
  unfold bind. fold (moved i j x modules).
  destruct (updateModulePositions _ w) as [[[]|e] w']; [|done].
  by rewrite set_state_defined.
Qed.

Lemma handleLessonDragEnd_moves m modules movedId targetId i j x y w :
  movedId ≠ targetId →
  list_find (λ l, l_id l = movedId) (m_lessons m) = Some (i, x) →
  list_find (λ l, l_id l = targetId) (m_lessons m) = Some (j, y) →
  handleLessonDragEnd (drop_on "lesson-" movedId targetId) m modules w
  = (run updateLessonPositions (Some <$> moved i j x (m_lessons m)) in
     ret (updateModule (m_id m) (with_lessons m (moved i j x (m_lessons m)))
            modules)) w.
Proof.
  intros Hne Hi Hj. unfold handleLessonDragEnd, drop_on. cbn [over_id active_id].
  destruct (String.eqb _ _) eqn:Heq; [by apply tagged_eqb in Heq|].
  rewrite !prefix_tag. cbn [andb].
  rewrite !findIndex_lesson_tag, Hi, Hj.
  apply list_find_Some in Hi as (Hi & _).
  apply list_find_Some in Hj as (Hj%lookup_lt_Some & _).
  rewrite (arrayMove_in_range _ _ _ x) by done.
  unfold bind. fold (moved i j x (m_lessons m)).
  destruct (updateLessonPositions _ w) as [[[]|e] w']; [|done].
  by rewrite set_state_defined.
Qed.

Lemma length_moved {A} (i j : nat) (x : A) (l : list A) :
  l !! i = Some x → (j < length l)%nat → length (moved i j x l) = length l.
Proof.
  intros Hi Hj. pose proof (lookup_lt_Some _ _ _ Hi) as Hlt.
  unfold moved.
  rewrite length_app. cbn [length].
  rewrite length_take, length_drop, length_delete by done. lia.
Qed.

(** X11. The traffic of a module reorder, both identifiers being in the
    list. The handler issues one position write for each module, in the
    new order, the k-th carrying position k. When the store serves them
    all, the table is renumbered to the new order and nothing is shown.
    When the store refuses the write at index k, the handler stops there:
    the writes before it stay in the store, the later ones are never
    issued, the error notification is shown, and the list on screen is
    the reordered one all the same: nothing is rolled back on either
    side. *)
Theorem X11_module_reorder_traffic
    (modules : list CModule) (movedId targetId : string) (i j : nat)
    (x y : CModule) (w : World) :
  movedId ≠ targetId →
  list_find (λ m, m_id m = movedId) modules = Some (i, x) →
  list_find (λ m, m_id m = targetId) modules = Some (j, y) →
  let newModules := moved i j x modules in
  let ids := m_id <$> newModules in
  (no_faults w →
   handleDragEnd (drop_on "module-" movedId targetId) modules w
   = (Ok newModules,
      mkWorld
        (mkDb (renumber r_id set_module_position 0 ids (tbl_modules (db w)))
           (tbl_lessons (db w)) (tbl_snapshots (db w)))
        (next_uuid w) (drop (length modules) (faults w))
        (log w ++ module_position_writes ids) (toasts w))) ∧
  (∀ k fs, faults w = replicate k false ++ true :: fs → (k < length modules)%nat →
   handleDragEnd (drop_on "module-" movedId targetId) modules w
   = (Ok newModules,
      mkWorld
        (mkDb (renumber r_id set_module_position 0 (take k ids)
                 (tbl_modules (db w)))
           (tbl_lessons (db w)) (tbl_snapshots (db w)))
        (next_uuid w) fs
        (log w ++ module_position_writes (take (S k) ids))
        (toasts w ++ [toast_error "Failed to update module order"]))).
Proof.
  intros Hne Hi Hj newModules ids.
  assert (length newModules = length modules) as Hlen.
  { apply list_find_Some in Hi as (Hi & _).
    apply list_find_Some in Hj as (Hj%lookup_lt_Some & _).
    by apply length_moved. }
  split.
  - intros Hw. rewrite (handleDragEnd_moves _ _ _ _ _ _ _ _ Hne Hi Hj).
    unfold bind, updateModulePositions, try_catch.
    rewrite updateModulePositions_loop_served by done.
    fold newModules. fold ids.
    by rewrite module_position_writes_from_0, Hlen.
  - intros k fs Hfaults Hk.
    rewrite (handleDragEnd_moves _ _ _ _ _ _ _ _ Hne Hi Hj).
    unfold bind, updateModulePositions, try_catch.
    rewrite (updateModulePositions_loop_cut _ k 0 w fs)
      by (done || (unfold newModules in Hlen; lia)).
    fold newModules. rewrite !fmap_take. fold ids.
    by rewrite module_position_writes_from_0.
Qed.

Lemma X11_witness :
  handleDragEnd (drop_on "module-" "A" "C") sample_ABC (world_cut_at_third sample_ABC)
  = (Ok [sample_B; sample_C; sample_A],
     mkWorld
       (mkDb [mkModuleRow "A" "Module A" 0; mkModuleRow "B" "Module B" 0;
              mkModuleRow "C" "Module C" 1] [] [])
       100 []
       [UpdateModulePosition 0 (IdEq "B"); UpdateModulePosition 1 (IdEq "C");
        UpdateModulePosition 2 (IdEq "A")]
       [toast_error "Failed to update module order"]).
Proof.
  assert ("A" ≠ "C") as Hne by done.
  assert (2 < length sample_ABC)%nat as Hlt by (cbn; lia).
  exact (proj2 (X11_module_reorder_traffic sample_ABC "A" "C" 0 2 sample_A sample_C
                  (world_cut_at_third sample_ABC) Hne eq_refl eq_refl)
           2%nat [] eq_refl Hlt).
Defined.

(** X12. The traffic of a lesson reorder within a module, both
    identifiers being among its lessons: as for modules, one position
    write for each lesson of the module in the new order, the k-th
    carrying position k; the rows of the lessons table with these
    identities are renumbered when all writes are served; a refused write
    ends the run with the earlier writes in the store, the error
    notification shown and the reordered lessons on screen. *)
Theorem X12_lesson_reorder_traffic
    (m : CModule) (modules : list CModule) (movedId targetId : string)
    (i j : nat) (x y : Lesson) (w : World) :
  movedId ≠ targetId →
  list_find (λ l, l_id l = movedId) (m_lessons m) = Some (i, x) →
  list_find (λ l, l_id l = targetId) (m_lessons m) = Some (j, y) →
  let newLessons := moved i j x (m_lessons m) in
  let ids := l_id <$> newLessons in
  let modules' := updateModule (m_id m) (with_lessons m newLessons) modules in
  (no_faults w →
   handleLessonDragEnd (drop_on "lesson-" movedId targetId) m modules w
   = (Ok modules',
      mkWorld
        (mkDb (tbl_modules (db w))
           (renumber l_id set_lesson_position 0 ids (tbl_lessons (db w)))
           (tbl_snapshots (db w)))
        (next_uuid w) (drop (length (m_lessons m)) (faults w))
        (log w ++ lesson_position_writes ids) (toasts w))) ∧
  (∀ k fs, faults w = replicate k false ++ true :: fs →
           (k < length (m_lessons m))%nat →
   handleLessonDragEnd (drop_on "lesson-" movedId targetId) m modules w
   = (Ok modules',
      mkWorld
        (mkDb (tbl_modules (db w))
           (renumber l_id set_lesson_position 0 (take k ids) (tbl_lessons (db w)))
           (tbl_snapshots (db w)))
        (next_uuid w) fs
        (log w ++ lesson_position_writes (take (S k) ids))
        (toasts w ++ [toast_error "Failed to update lesson order"]))).
Proof.
  intros Hne Hi Hj newLessons ids modules'.
  assert (length newLessons = length (m_lessons m)) as Hlen.
  { apply list_find_Some in Hi as (Hi & _).
    apply list_find_Some in Hj as (Hj%lookup_lt_Some & _).
    by apply length_moved. }
  split.
  - intros Hw. rewrite (handleLessonDragEnd_moves _ _ _ _ _ _ _ _ _ Hne Hi Hj).
    unfold bind, updateLessonPositions, try_catch.
    rewrite updateLessonPositions_loop_served by done.
    fold newLessons. fold ids.
    by rewrite lesson_position_writes_from_0, Hlen.
  - intros k fs Hfaults Hk.
    rewrite (handleLessonDragEnd_moves _ _ _ _ _ _ _ _ _ Hne Hi Hj).
    unfold bind, updateLessonPositions, try_catch.
    rewrite (updateLessonPositions_loop_cut _ k 0 w fs)
      by (done || (unfold newLessons in Hlen; lia)).
    fold newLessons. rewrite !fmap_take. fold ids.
    by rewrite lesson_position_writes_from_0.
Qed.

Lemma X12_witness :
  no_faults sample_world ∧
  log (handleLessonDragEnd (drop_on "lesson-" "l1" "l2") sample_first
         (select_nested sample_store) sample_world).2
  = [UpdateLessonPosition 0 (IdEq "l2"); UpdateLessonPosition 1 (IdEq "l1")].
Proof.
  assert (no_faults sample_world) as Hw by constructor.
  assert ("l1" ≠ "l2") as Hne by done.
  split; [done|].
  rewrite (proj1 (X12_lesson_reorder_traffic sample_first
                    (select_nested sample_store) "l1" "l2" 0 1
                    (mkLesson "l1" "Intro" (Some "<iframe src='a'></iframe>") 0 "m1")
                    (mkLesson "l2" "Details" (Some "<iframe src='b'></iframe>") 1 "m1")
                    sample_world Hne eq_refl eq_refl) Hw).
  reflexivity.
Defined.

(** ** An identifier that is not in the list *)

Lemma splice_last {A} (l : list A) deleteCount (items : list A) :
  l ≠ [] →
  splice l (-1) deleteCount items
  = splice l (Z.of_nat (length l - 1)) deleteCount items.
Proof.
  intros Hl. assert (0 < length l)%nat by (destruct l; [done|cbn; lia]).
  unfold splice. cbn zeta.
  destruct (Z.ltb_spec (-1) 0) as [_|?]; [|lia].
  destruct (Z.ltb_spec (Z.of_nat (length l - 1)) 0) as [?|_]; [lia|].
  replace (Z.max (Z.of_nat (length l) + -1) 0) with (Z.of_nat (length l - 1)) by lia.
  replace (Z.min (Z.of_nat (length l - 1)) (Z.of_nat (length l)))
    with (Z.of_nat (length l - 1)) by lia.
  done.
Qed.

Lemma arrayMove_from_last {A} (l : list A) to :
  l ≠ [] → arrayMove l (-1) to = arrayMove l (Z.of_nat (length l - 1)) to.
Proof.
  intros Hl. unfold arrayMove. rewrite splice_last, length_fmap; [done|].
  by intros ?%fmap_nil_inv.
Qed.

Lemma arrayMove_to_last {A} (l : list A) from :
  l ≠ [] → arrayMove l from (-1) = arrayMove l from (Z.of_nat (length l - 1)).
Proof.
  intros Hl. assert (0 < length l)%nat by (destruct l; [done|cbn; lia]).
  unfold arrayMove. rewrite length_fmap.
  destruct (Z.ltb_spec (-1) 0) as [_|?]; [|lia].
  destruct (Z.ltb_spec (Z.of_nat (length l - 1)) 0) as [?|_]; [lia|].
  replace (Z.of_nat (length l) + -1) with (Z.of_nat (length l - 1)) by lia.
  done.
Qed.

Lemma index_or_last_lt {A} (P : A → Prop) `{!∀ x, Decision (P x)} (l : list A) :
  l ≠ [] → (index_or_last P l < length l)%nat.
Proof.
  intros Hl. assert (0 < length l)%nat by (destruct l; [done|cbn; lia]).
  unfold index_or_last. destruct (list_find P l) as [[i x]|] eqn:Hfind; [|lia].
  by apply list_find_Some in Hfind as (Hfind%lookup_lt_Some & _).
Qed.

Lemma arrayMove_or_last {A} (P : A → Prop) `{!∀ x, Decision (P x)}
    (Q : A → Prop) `{!∀ x, Decision (Q x)} (l : list A) :
  l ≠ [] →
  ∃ x, l !! index_or_last P l = Some x ∧
       arrayMove l
         (match list_find P l with Some (i, _) => Z.of_nat i | None => -1 end)
         (match list_find Q l with Some (j, _) => Z.of_nat j | None => -1 end)
       = Some <$> moved (index_or_last P l) (index_or_last Q l) x l.
Proof.
  intros Hl.
  pose proof (index_or_last_lt P l Hl) as Hi.
  pose proof (index_or_last_lt Q l Hl) as Hj.
  destruct (lookup_lt_is_Some_2 l _ Hi) as [x Hx]. exists x. split; [done|].
  unfold moved. rewrite <- (arrayMove_in_range l _ _ x Hx Hj).
  unfold index_or_last.
  destruct (list_find P l) as [[i x']|], (list_find Q l) as [[j y']|].
  - done.
  - by apply arrayMove_to_last.
  - by apply arrayMove_from_last.
  - rewrite arrayMove_from_last by done. by apply arrayMove_to_last.
Qed.

Lemma handleDragEnd_or_last modules movedId targetId w :
  movedId ≠ targetId → modules ≠ [] →
  ∃ x, modules !! index_or_last (λ m, m_id m = movedId) modules = Some x ∧
    handleDragEnd (drop_on "module-" movedId targetId) modules w
    = (run updateModulePositions
             (Some <$> moved (index_or_last (λ m, m_id m = movedId) modules)
                         (index_or_last (λ m, m_id m = targetId) modules)
                         x modules) in
       ret (moved (index_or_last (λ m, m_id m = movedId) modules)
              (index_or_last (λ m, m_id m = targetId) modules) x modules)) w.
Proof.
  intros Hne Hmodules.
  destruct (arrayMove_or_last (λ m, m_id m = movedId) (λ m, m_id m = targetId)
              modules Hmodules) as (x & Hx & Hmove).
  exists x. split; [done|].
  unfold handleDragEnd, drop_on. cbn [over_id active_id].
  destruct (String.eqb _ _) eqn:Heq; [by apply tagged_eqb in Heq|].
  rewrite !prefix_tag. cbn [andb].
  rewrite !findIndex_module_tag, Hmove.
  unfold bind.
  destruct (updateModulePositions _ w) as [[[]|e] w']; [|done].
  by rewrite set_state_defined.
Qed.

Lemma handleLessonDragEnd_or_last m modules movedId targetId w :
  movedId ≠ targetId → m_lessons m ≠ [] →
  ∃ x, m_lessons m !! index_or_last (λ l, l_id l = movedId) (m_lessons m) = Some x ∧
    handleLessonDragEnd (drop_on "lesson-" movedId targetId) m modules w
    = (run updateLessonPositions
             (Some <$> moved (index_or_last (λ l, l_id l = movedId) (m_lessons m))
                         (index_or_last (λ l, l_id l = targetId) (m_lessons m))
                         x (m_lessons m)) in
       ret (updateModule (m_id m)
              (with_lessons m
                 (moved (index_or_last (λ l, l_id l = movedId) (m_lessons m))
                    (index_or_last (λ l, l_id l = targetId) (m_lessons m))
                    x (m_lessons m)))
              modules)) w.
Proof.
  intros Hne Hlessons.
  destruct (arrayMove_or_last (λ l, l_id l = movedId) (λ l, l_id l = targetId)
              (m_lessons m) Hlessons) as (x & Hx & Hmove).
  exists x. split; [done|].
  unfold handleLessonDragEnd, drop_on. cbn [over_id active_id].
  destruct (String.eqb _ _) eqn:Heq; [by apply tagged_eqb in Heq|].
  rewrite !prefix_tag. cbn [andb].
  rewrite !findIndex_lesson_tag, Hmove.
  unfold bind.
  destruct (updateLessonPositions _ w) as [[[]|e] w']; [|done].
  by rewrite set_state_defined.
Qed.

(** X13. An identifier that is not in the list is taken for the last
    element's, by both drag handlers alike. In a list that is not empty,
    dropping an unknown identifier on a known one moves the last entity
    to the target's index; dropping a known one on an unknown one moves
    it to the end; with both unknown the list stays in order. In each
    case the handler goes on to write the positions of the resulting
    order, one request for each entity. *)
Theorem X13_absent_identifier_acts_as_last
    (m : CModule) (modules : list CModule) (movedId targetId : string)
    (w : World) :
  movedId ≠ targetId →
  no_faults w →
  (modules ≠ [] →
   ∃ x, modules !! index_or_last (λ m, m_id m = movedId) modules = Some x ∧
     let newModules :=
       moved (index_or_last (λ m, m_id m = movedId) modules)
         (index_or_last (λ m, m_id m = targetId) modules) x modules in
     (handleDragEnd (drop_on "module-" movedId targetId) modules w).1
       = Ok newModules ∧
     log (handleDragEnd (drop_on "module-" movedId targetId) modules w).2
       = log w ++ module_position_writes (m_id <$> newModules)) ∧
  (m_lessons m ≠ [] →
   ∃ x, m_lessons m !! index_or_last (λ l, l_id l = movedId) (m_lessons m)
        = Some x ∧
     let newLessons :=
       moved (index_or_last (λ l, l_id l = movedId) (m_lessons m))
         (index_or_last (λ l, l_id l = targetId) (m_lessons m)) x (m_lessons m) in
     (handleLessonDragEnd (drop_on "lesson-" movedId targetId) m modules w).1
       = Ok (updateModule (m_id m) (with_lessons m newLessons) modules) ∧
     log (handleLessonDragEnd (drop_on "lesson-" movedId targetId) m modules w).2
       = log w ++ lesson_position_writes (l_id <$> newLessons)).
Proof.
  intros Hne Hw. split.
  - intros Hmodules.
    destruct (handleDragEnd_or_last modules movedId targetId w Hne Hmodules)
      as (x & Hx & ->).
    exists x. split; [done|]. cbn zeta.
    unfold bind, updateModulePositions, try_catch.
    rewrite updateModulePositions_loop_served by done.
    cbn [fst snd log]. by rewrite module_position_writes_from_0.
  - intros Hlessons.
    destruct (handleLessonDragEnd_or_last m modules movedId targetId w Hne Hlessons)
      as (x & Hx & ->).
    exists x. split; [done|]. cbn zeta.
    unfold bind, updateLessonPositions, try_catch.
    rewrite updateLessonPositions_loop_served by done.
    cbn [fst snd log]. by rewrite lesson_position_writes_from_0.
Qed.

Lemma X13_witness :
  list_find (λ m, m_id m = "X") sample_ABC = None ∧
  (handleDragEnd (drop_on "module-" "B" "X") sample_ABC (world_of sample_ABC)).1
  = Ok [sample_A; sample_C; sample_B].
Proof.
  split; [reflexivity|].
  assert ("B" ≠ "X") as Hne by done.
  assert (no_faults (world_of sample_ABC)) as Hw by constructor.
  assert (sample_ABC ≠ []) as Hlist by done.
  destruct (proj1 (X13_absent_identifier_acts_as_last sample_A sample_ABC "B" "X"
                     (world_of sample_ABC) Hne Hw) Hlist)
    as (x & Hx & Hrun & _).
  injection Hx as <-. exact Hrun.
Defined.

(** ** Import, then export *)

Lemma export_of_import n items snapshots :
  exportData
    (select_nested
       (mkDb (row_of <$> import_created n 0 (group_by_module items))
          (import_created n 0 (group_by_module items) ≫= m_lessons) snapshots))
  = read_back <$> (group_by_module items ≫= snd).
Proof.
  rewrite import_created_as_restore.
  destruct (ordinal_restore_ordered (entries_snapshot 0 (group_by_module items)) n
              (entries_snapshot_ordinal (group_by_module items))) as [Hmod Hles].
  rewrite select_nested_tables by (done || apply restore_created_well_nested).
  rewrite exportData_as_snapshot_items, restore_created_snapshot.
  rewrite snapshot_items_defaulted.
  apply snapshot_items_entries, group_by_module_keys.
Qed.

Lemma read_back_twice item : read_back (read_back item) = read_back item.
Proof. done. Qed.

(** Records that came out of an import are grouped already. *)
Lemma regroup_exported items :
  group_by_module (read_back <$> (group_by_module items ≫= snd)) ≫= snd
  = read_back <$> (group_by_module items ≫= snd).
Proof.
  rewrite <- (snapshot_items_entries (group_by_module items) 0)
    by apply group_by_module_keys.
  rewrite group_snapshot_items.
  - by rewrite entries_flatten, snapshot_items_with_lessons.
  - apply sublist_fmap_filter.
    rewrite entries_snapshot_names, group_by_module_names.
    apply new_Set_NoDup.
Qed.

(** X14. A successful import followed by an export returns every imported
    record exactly once, regrouped: the modules in the order in which
    their names first occur in the input, under each name its records in
    input order, whether or not they were adjacent in the input. Each
    record reads back with its module name and title, with absent video
    markup as the empty string and without a [url]. *)
Theorem X14_import_then_export_regroups
    (st st' : ImportState) (items : list ImportItem)
    (modules modules' : list CModule) (w w' : World) :
  previewData st = Some items →
  store_ok (db w) →
  processImport st modules w = (Ok (st', modules'), w') →
  succeeded w' →
  exportData (select_nested (db w'))
    = read_back
      <$> (new_Set (module <$> items)
           ≫= λ name, filter (λ item, module item = name) items) ∧
  exportData (select_nested (db w')) ≡ₚ read_back <$> items.
Proof.
  intros Hitems Hok Hrun Hsucc.
  destruct (processImport_inv _ _ _ _ _ _ _ Hitems Hok Hrun Hsucc) as [-> _].
  rewrite export_of_import. split.
  - rewrite <- previewCards_grouping. unfold previewCards. f_equal.
    induction (new_Set (module <$> items)) as [|name names IH]; [done|].
    by rewrite fmap_cons, !bind_cons, IH.
  - by rewrite group_by_module_flat.
Qed.

Lemma X14_witness :
  let r := processImport (import_state sample_batch) [] sample_world in
  exportData (select_nested (db r.2))
  = [mkImportItem "M1" "L1" (Some "") None; mkImportItem "M1" "L3" (Some "") None;
     mkImportItem "M2" "L2" (Some "") None].
Proof.
  intros r.
  assert (succeeded r.2) as Hsucc.
  { exists (toast_success "Imported 2 modules with 3 lessons"). by vm_compute. }
  refine (_ (X14_import_then_export_regroups (import_state sample_batch)
               (value_of (import_state sample_batch, []) r.1).1 sample_batch []
               (value_of (import_state sample_batch, []) r.1).2
               sample_world r.2 eq_refl sample_store_ok _ Hsucc));
    [intros [H _]; exact H|by vm_compute].
Defined.

(** X15. What an import leaves in the store is in canonical form for the
    export file. The records exported after a successful import, imported
    again into any store, export as exactly the same records in the same
    order: after the first pass, export followed by import changes
    nothing that an export shows. *)
Theorem X15_exported_after_import_is_a_fixed_point
    (st st1 st2 st3 : ImportState) (items : list ImportItem)
    (modules modules1 modules2 modules3 : list CModule) (w w1 w2 w3 : World) :
  previewData st = Some items →
  store_ok (db w) →
  processImport st modules w = (Ok (st1, modules1), w1) →
  succeeded w1 →
  previewData st2 = Some (exportData (select_nested (db w1))) →
  store_ok (db w2) →
  processImport st2 modules2 w2 = (Ok (st3, modules3), w3) →
  succeeded w3 →
  exportData (select_nested (db w3)) = exportData (select_nested (db w1)).
Proof.
  intros Hitems Hok Hrun Hsucc Hitems2 Hok2 Hrun2 Hsucc2.
  destruct (processImport_inv _ _ _ _ _ _ _ Hitems Hok Hrun Hsucc) as [Hdb1 _].
  destruct (processImport_inv _ _ _ _ _ _ _ Hitems2 Hok2 Hrun2 Hsucc2) as [-> _].
  rewrite export_of_import.
  rewrite Hdb1, export_of_import, regroup_exported.
  rewrite <- list_fmap_compose. by apply list_fmap_ext.
Qed.

Lemma X15_witness :
  let r1 := processImport (import_state sample_batch) [] sample_world in
  let exported := exportData (select_nested (db r1.2)) in
  let r2 := processImport (import_state exported) [] r1.2 in
  exportData (select_nested (db r2.2)) = exported.
Proof.
  intros r1 exported r2.
  assert (succeeded r1.2) as Hsucc1.
  { exists (toast_success "Imported 2 modules with 3 lessons"). by vm_compute. }
  assert (succeeded r2.2) as Hsucc2.
  { exists (toast_success "Imported 2 modules with 3 lessons"). by vm_compute. }
  assert (store_ok (db r1.2)) as Hok1.
  { exact (proj1 (reaches_store_inv _ _ _
                    (footprint_processImport (import_state sample_batch) []
                       sample_world)
                    sample_world_inv)). }
  refine (X15_exported_after_import_is_a_fixed_point (import_state sample_batch)
            (value_of (import_state sample_batch, []) r1.1).1
            (import_state exported)
            (value_of (import_state exported, []) r2.1).1 sample_batch []
            (value_of (import_state sample_batch, []) r1.1).2 []
            (value_of (import_state exported, []) r2.1).2
            sample_world r1.2 r1.2 r2.2 eq_refl sample_store_ok _ Hsucc1 eq_refl
            Hok1 _ Hsucc2); by vm_compute.
Defined.

(** ** The screen and the store after an edit *)

Section sorting.
Context {A : Type} (key : A → Z).
Implicit Types l : list A.

Lemma insert_by_least x l :
  Forall (λ y, key x ≤ key y) l → insert_by key x l = x :: l.
Proof.
  intros Hl. destruct l as [|y l]; [done|].
  apply Forall_cons in Hl as [Hy _]. cbn [insert_by].
  by destruct (Z.leb_spec (key x) (key y)); [|lia].
Qed.

Lemma filter_insert_by (P : A → Prop) `{!∀ x, Decision (P x)} x l :
  ordered_by key l →
  filter P (insert_by key x l)
  = if decide (P x) then insert_by key x (filter P l) else filter P l.
Proof.
  unfold ordered_by. induction 1 as [|y l Hl IH Hy]; cbn [insert_by].
  - rewrite filter_cons, !filter_nil. by destruct (decide (P x)).
  - destruct (Z.leb_spec (key x) (key y)) as [Hle|Hgt].
    + rewrite (filter_cons _ x).
      destruct (decide (P x)) as [Hx|Hx]; [|done].
      rewrite insert_by_least; [done|].
      apply Forall_forall. intros z [_ Hz]%list_elem_of_filter.
      apply elem_of_cons in Hz as [->|Hz]; [done|].
      rewrite Forall_forall in Hy. specialize (Hy z Hz). lia.
    + rewrite !(filter_cons _ y), IH.
      destruct (decide (P y)) as [Hpy|Hpy], (decide (P x)) as [Hx|Hx]; try done.
      cbn [insert_by]. by destruct (Z.leb_spec (key x) (key y)); [lia|].
Qed.

Lemma filter_sort_by (P : A → Prop) `{!∀ x, Decision (P x)} l :
  filter P (sort_by key l) = sort_by key (filter P l).
Proof.
  induction l as [|x l IH]; [done|]. cbn [sort_by].
  rewrite filter_insert_by by apply sort_by_ordered.
  rewrite filter_cons, IH. by destruct (decide (P x)).
Qed.


(** A list in ascending order is determined by its elements when the
    keys of these are distinct. *)
Lemma ordered_unique l1 : ∀ l2,
  ordered_by key l1 → StronglySorted (λ a b, key a < key b) l2 →
  l1 ≡ₚ l2 → l1 = l2.
Proof.
  unfold ordered_by.
  induction l1 as [|x l1 IH]; intros l2 H1 H2 Hperm.
  - by apply Permutation_nil_l in Hperm.
  - destruct l2 as [|y l2]; [by apply Permutation_nil_r in Hperm|].
    apply StronglySorted_inv in H1 as [H1 Hx].
    apply StronglySorted_inv in H2 as [H2 Hy].
    assert (x = y) as ->.
    { assert (x ∈ y :: l2) as Hin by (rewrite <- Hperm; by left).
      assert (y ∈ x :: l1) as Hin' by (rewrite Hperm; by left).
      apply elem_of_cons in Hin as [?|Hin]; [done|].
      apply elem_of_cons in Hin' as [?|Hin']; [done|].
      rewrite Forall_forall in Hx, Hy.
      specialize (Hx y Hin'). specialize (Hy x Hin). lia. }
    f_equal. apply IH; [done..|]. by apply Permutation_cons_inv in Hperm.
Qed.
End sorting.

Lemma filter_fmap_same {A B} (f : A → B) (P : A → Prop) (Q : B → Prop)
    `{!∀ x, Decision (P x)} `{!∀ y, Decision (Q y)} (l : list A) :
  (∀ x, Q (f x) ↔ P x) → filter Q (f <$> l) = f <$> filter P l.
Proof.
  intros HPQ. induction l as [|x l IH]; [done|].
  rewrite fmap_cons, !filter_cons, IH.
  destruct (decide (P x)) as [Hx|Hx].
  - by rewrite decide_True by (by apply HPQ).
  - by rewrite decide_False by (by rewrite HPQ).
Qed.

Lemma deleteModule_local moduleId modules w modules' w' :
  deleteModule moduleId modules w = (Ok modules', w') →
  succeeded w' →
  modules' = filter (λ m, m_id m ≠ moduleId) modules.
Proof.
  intros Hrun Hsucc. unfold deleteModule in Hrun.
  body_ran Hrun Hbody.
  apply bind_inv_Ok in Hbody as ([] & w1 & _ & Hbody).
  by apply bind_inv_Ok in Hbody as ([] & w2 & _ & [= <- _]).
Qed.

Lemma deleteLesson_local lessonId m modules w modules' w' :
  deleteLesson lessonId m modules w = (Ok modules', w') →
  succeeded w' →
  modules' = updateModule (m_id m)
               (with_lessons m (filter (λ l, l_id l ≠ lessonId) (m_lessons m)))
               modules.
Proof.
  intros Hrun Hsucc. unfold deleteLesson in Hrun.
  body_ran Hrun Hbody.
  apply bind_inv_Ok in Hbody as ([] & w1 & _ & Hbody).
  by apply bind_inv_Ok in Hbody as ([] & w2 & _ & [= <- _]).
Qed.

Lemma select_nested_ids d : NoDup (module_ids d) → NoDup (m_id <$> select_nested d).
Proof.
  intros Hids. unfold select_nested. rewrite <- list_fmap_compose.
  change (m_id ∘ _) with r_id.
  unfold module_ids in Hids. by rewrite sort_by_Permutation.
Qed.

(** On a list with distinct identities, [updateModule] rewrites the one
    entry that has the identity. *)
Lemma updateModule_fmap (f : CModule → CModule) m (modules : list CModule) :
  NoDup (m_id <$> modules) → m ∈ modules →
  (∀ m', m' ∈ modules → m' ≠ m → f m' = m') →
  updateModule (m_id m) (f m) modules = f <$> modules.
Proof.
  intros Hids Hm Hf. unfold updateModule.
  apply Forall_fmap_ext, Forall_forall. intros m' Hm'.
  destruct (String.eqb_spec (m_id m') (m_id m)) as [Heq|Hne].
  - by rewrite (NoDup_fmap_same m_id modules m' m Hids Hm' Hm Heq).
  - symmetry. apply Hf; [done|]. by intros ->.
Qed.

Lemma select_nested_lesson_in d m l :
  m ∈ select_nested d → l ∈ m_lessons m →
  l ∈ tbl_lessons d ∧ l_module_id l = m_id m.
Proof.
  intros Hm Hl.
  pose proof (select_nested_lessons d) as Hall.
  rewrite Forall_forall in Hall. destruct (Hall m Hm) as [_ Hperm].
  rewrite Hperm in Hl. unfold lessons_of in Hl.
  by apply list_elem_of_filter in Hl as [? ?].
Qed.

Lemma select_nested_after_lesson_filter d d' (P : Lesson → Prop)
    `{!∀ l, Decision (P l)} :
  tbl_modules d' = tbl_modules d →
  tbl_lessons d' = filter P (tbl_lessons d) →
  select_nested d'
  = (λ m, with_lessons m (filter P (m_lessons m))) <$> select_nested d.
Proof.
  intros Hm Hl. unfold select_nested, lessons_of. rewrite Hm, Hl.
  rewrite <- list_fmap_compose. apply list_fmap_ext. intros _ r _.
  unfold with_lessons, compose. cbn. f_equal.
  rewrite filter_sort_by, !list_filter_filter. f_equal.
  apply list_filter_iff. intros l. tauto.
Qed.

(** X16. Deleting keeps the screen in step with the store. When the list
    on screen is what a fetch would return, then after a module has been
    deleted with success the list the handler returns is again what a
    fetch would return: the remaining modules in position order, each
    with its lessons. The same holds after a lesson of a module on screen
    has been deleted with success. (Positions are not renumbered; order
    is what is kept.) *)
Theorem X16_delete_keeps_screen_in_step
    (moduleId lessonId : string) (m : CModule)
    (modules modules' : list CModule) (w w' : World) :
  in_step modules w →
  (deleteModule moduleId modules w = (Ok modules', w') →
   succeeded w' → in_step modules' w') ∧
  (store_ok (db w) → m ∈ modules → lessonId ∈ l_id <$> m_lessons m →
   deleteLesson lessonId m modules w = (Ok modules', w') →
   succeeded w' → in_step modules' w').
Proof.
  unfold in_step. intros ->. split.
  - intros Hrun Hsucc.
    rewrite (deleteModule_local _ _ _ _ _ Hrun Hsucc).
    apply deleteModule_inv in Hrun as [Hm Hl]; [|done].
    unfold select_nested. rewrite Hm, <- filter_sort_by.
    etrans;
      [by apply (filter_fmap_same _ (λ r, r_id r ≠ moduleId)
                   (λ m0, m_id m0 ≠ moduleId))|].
    apply Forall_fmap_ext, Forall_forall.
    intros r [Hr _]%list_elem_of_filter. by rewrite Hl.
  - intros Hok Hm (l & Hid & Hl)%list_elem_of_fmap Hrun Hsucc.
    rewrite (deleteLesson_local _ _ _ _ _ _ Hrun Hsucc).
    apply deleteLesson_inv in Hrun as [Hmods Hles]; [|done].
    rewrite (select_nested_after_lesson_filter (db w) (db w')
               (λ l, l_id l ≠ lessonId)) by done.
    apply (updateModule_fmap
             (λ m, with_lessons m (filter (λ l, l_id l ≠ lessonId) (m_lessons m))));
      [apply select_nested_ids, Hok|done|].
    intros m' Hm' Hne.
    rewrite filter_all; [by destruct m'|].
    apply Forall_forall. intros l' Hl' Heq.
    destruct (select_nested_lesson_in _ _ _ Hm Hl) as [Hin Hown].
    destruct (select_nested_lesson_in _ _ _ Hm' Hl') as [Hin' Hown'].
    assert (l' = l) as ->.
    { apply (NoDup_fmap_same l_id (tbl_lessons (db w))); [apply Hok|done..|].
      congruence. }
    apply Hne.
    apply (NoDup_fmap_same m_id (select_nested (db w)));
      [apply select_nested_ids, Hok|done..|congruence].
Qed.

Lemma X16_witness :
  let r := deleteLesson "l1" sample_first (select_nested sample_store)
             sample_world in
  r.1 = Ok (select_nested (db r.2)).
Proof.
  intros r.
  assert (succeeded r.2) as Hsucc.
  { exists (toast_success "Lesson deleted successfully"). by vm_compute. }
  assert (in_step (select_nested sample_store) sample_world) as Hstep by done.
  assert (sample_first ∈ select_nested sample_store) as Hin.
  { vm_compute. by left. }
  assert ("l1" ∈ l_id <$> m_lessons sample_first) as Hl.
  { vm_compute. by left. }
  pose proof (proj2 (X16_delete_keeps_screen_in_step "m1" "l1" sample_first
                       (select_nested sample_store) (value_of [] r.1)
                       sample_world r.2 Hstep)
                sample_store_ok Hin Hl) as Hkept.
  assert (r = (Ok (value_of [] r.1), r.2)) as Hrun by (by vm_compute).
  transitivity (Ok (A:=list CModule) (value_of [] r.1)); [by vm_compute|].
  apply (f_equal Ok). exact (Hkept Hrun Hsucc).
Defined.




Lemma select_nested_own_lessons d m :
  m ∈ select_nested d →
  m_lessons m = sort_by l_position (lessons_of d (m_id m)).
Proof.
  unfold select_nested. by intros (r & -> & _)%list_elem_of_fmap.
Qed.

Lemma indexed_rows_sorted (modules : list CModule) : ∀ i0 : nat,
  StronglySorted (λ a b, r_position a < r_position b)
    (imap (λ k m, mkModuleRow (m_id m) (m_name m) (Z.of_nat (i0 + k))) modules).
Proof.
  induction modules as [|m modules IH]; intros i0; [constructor|].
  rewrite imap_cons. constructor.
  - rewrite (imap_ext _ (λ k m, mkModuleRow (m_id m) (m_name m)
                                  (Z.of_nat (S i0 + k)))); [apply IH|].
    intros k m' _. cbn. do 2 f_equal. lia.
  - apply Forall_forall. intros r (k & m' & -> & _)%elem_of_lookup_imap.
    cbn. lia.
Qed.

Lemma indexed_lessons_sorted (lessons : list Lesson) : ∀ i0 : nat,
  StronglySorted (λ a b, l_position a < l_position b)
    (imap (λ k l, set_lesson_position (Z.of_nat (i0 + k)) l) lessons).
Proof.
  induction lessons as [|l lessons IH]; intros i0; [constructor|].
  rewrite imap_cons. constructor.
  - rewrite (imap_ext _ (λ k l, set_lesson_position (Z.of_nat (S i0 + k)) l));
      [apply IH|].
    intros k l' _. cbn. unfold set_lesson_position. do 2 f_equal. lia.
  - apply Forall_forall. intros r (k & l' & -> & _)%elem_of_lookup_imap.
    cbn. lia.
Qed.

(** The rows a reorder has renumbered, read in position order, are the
    rows of the new order with their indices as positions. *)
Lemma renumbered_rows_sorted (modules' : list CModule) (rows : list ModuleRow) :
  NoDup (m_id <$> modules') →
  rows ≡ₚ row_of <$> modules' →
  sort_by r_position
    (renumber r_id set_module_position 0 (m_id <$> modules') rows)
  = imap (λ k m, mkModuleRow (m_id m) (m_name m) (Z.of_nat k)) modules'.
Proof.
  intros Hids Hrows.
  apply (ordered_unique r_position).
  - apply sort_by_ordered.
  - apply (indexed_rows_sorted modules' 0).
  - rewrite sort_by_Permutation.
    rewrite (renumber_rows r_id set_module_position) by done.
    rewrite Hrows, <- list_fmap_compose.
    rewrite <- (imap_const (renumbered r_id set_module_position 0 (m_id <$> modules')
                            ∘ row_of) modules').
    erewrite imap_ext; [done|].
    intros k m Hk. unfold const, compose, renumbered. cbn [r_id row_of].
    rewrite (find_own_index (m_id <$> modules') k (m_id m));
      [done|done|by rewrite list_lookup_fmap, Hk].
Qed.

(** X18. A module reorder reaches the store in the order shown. The list
    on screen being what a fetch would return and the identities in the
    store distinct, after a drag whose writes were all served (no error
    was shown) a fetch returns the modules in exactly the order the
    handler put on screen, each with its lessons as before, and with
    positions 0, 1, 2, ... in that order; when the drag did nothing, the
    store is untouched and the screen stays in step. *)
Theorem X18_module_reorder_is_what_a_fetch_returns
    (event : DragEndEvent) (modules modules' : list CModule) (w w' : World) :
  in_step modules w →
  NoDup (module_ids (db w)) →
  handleDragEnd event modules w = (Ok modules', w') →
  toasts w' = toasts w →
  (modules' = modules ∧ w' = w) ∨
  select_nested (db w')
  = imap (λ k m, mkModule (m_id m) (m_name m) (Z.of_nat k) (m_lessons m)) modules'.
Proof.
  unfold in_step. intros -> Hids Hrun Hquiet.
  apply handleDragEnd_store in Hrun as [?|(Hperm & Hm & Hl)]; [by left|right|done].
  unfold select_nested at 1. rewrite Hm.
  rewrite renumbered_rows_sorted.
  - rewrite fmap_imap. apply imap_ext. intros k m Hk.
    unfold compose. cbn [r_id r_name r_position]. f_equal.
    unfold lessons_of. rewrite Hl. symmetry.
    apply (select_nested_own_lessons (db w)). rewrite <- Hperm.
    by eapply list_elem_of_lookup_2.
  - rewrite Hperm. by apply select_nested_ids.
  - by rewrite Hperm, select_nested_rows.
Qed.

Lemma X18_witness :
  let r := handleDragEnd (drop_on "module-" "m1" "m2") (select_nested sample_store)
             sample_world in
  select_nested (db r.2)
  = [mkModule "m2" "Second" 0 [mkLesson "l3" "Outro" None 0 "m2"];
     mkModule "m1" "First" 1 (m_lessons sample_first)].
Proof.
  intros r.
  assert (in_step (select_nested sample_store) sample_world) as Hstep by done.
  assert (r = (Ok (value_of [] r.1), r.2)) as Hrun by (by vm_compute).
  assert (toasts r.2 = toasts sample_world) as Hquiet by (by vm_compute).
  destruct (X18_module_reorder_is_what_a_fetch_returns
              (drop_on "module-" "m1" "m2") (select_nested sample_store)
              (value_of [] r.1) sample_world r.2 Hstep
              (ok_module_ids _ sample_store_ok) Hrun Hquiet) as [[_ Heq]|Heq].
  - rewrite Heq. apply (f_equal log) in Heq. vm_compute in Heq. discriminate Heq.
  - rewrite Heq. by vm_compute.
Defined.

Lemma renumbered_lessons_sorted (lessons rows : list Lesson) :
  NoDup (l_id <$> lessons) →
  rows ≡ₚ lessons →
  sort_by l_position
    (renumber l_id set_lesson_position 0 (l_id <$> lessons) rows)
  = imap (λ k l, set_lesson_position (Z.of_nat k) l) lessons.
Proof.
  intros Hids Hrows.
  apply (ordered_unique l_position).
  - apply sort_by_ordered.
  - apply (indexed_lessons_sorted lessons 0).
  - rewrite sort_by_Permutation.
    rewrite (renumber_rows l_id set_lesson_position) by done.
    rewrite Hrows.
    rewrite <- (imap_const (renumbered l_id set_lesson_position 0 (l_id <$> lessons))
                  lessons).
    erewrite imap_ext; [done|].
    intros k l Hk. unfold const, renumbered.
    rewrite (find_own_index (l_id <$> lessons) k (l_id l));
      [done|done|by rewrite list_lookup_fmap, Hk].
Qed.

(** X19. A lesson reorder reaches the store in the order shown. The list
    on screen being what a fetch would return, the store well formed and
    the module on screen, after a drag whose writes were all served a
    fetch returns the hierarchy the handler put on screen, with the
    lessons of that module in the new order and positions 0, 1, 2, ...;
    the lessons of the other modules are as they were. *)
Theorem X19_lesson_reorder_is_what_a_fetch_returns
    (event : DragEndEvent) (m : CModule) (modules modules' : list CModule)
    (w w' : World) :
  in_step modules w →
  store_ok (db w) →
  m ∈ modules →
  handleLessonDragEnd event m modules w = (Ok modules', w') →
  toasts w' = toasts w →
  (modules' = modules ∧ w' = w) ∨
  ∃ lessons,
    lessons ≡ₚ m_lessons m ∧
    modules' = updateModule (m_id m) (with_lessons m lessons) modules ∧
    select_nested (db w')
    = updateModule (m_id m)
        (with_lessons m
           (imap (λ k l, set_lesson_position (Z.of_nat k) l) lessons))
        modules.
Proof.
  unfold in_step. intros -> Hok Hm Hrun Hquiet.
  apply handleLessonDragEnd_store in Hrun
    as [?|(lessons & Hperm & -> & Hmods & Hles)]; [by left|right|done].
  exists lessons. split_and!; [done..|].
  pose proof (select_nested_ids _ (ok_module_ids _ Hok)) as Hids.
  pose proof (select_nested_lessons (db w)) as Hall.
  rewrite Forall_forall in Hall. destruct (Hall m Hm) as [_ Hown].
  assert (NoDup (l_id <$> lessons)) as Hnodup.
  { rewrite Hperm, Hown. apply sublist_fmap_filter, Hok. }
  set (renumbered_lessons :=
         imap (λ k l, set_lesson_position (Z.of_nat k) l) lessons).
  assert (updateModule (m_id m) (with_lessons m renumbered_lessons)
            (select_nested (db w))
          = (λ m', if decide (m_id m' = m_id m)
                   then with_lessons m' renumbered_lessons else m')
            <$> select_nested (db w)) as ->.
  { pose proof (updateModule_fmap
                  (λ m', if decide (m_id m' = m_id m)
                         then with_lessons m' renumbered_lessons else m')
                  m (select_nested (db w)) Hids Hm) as Hupd.
    cbn beta in Hupd. rewrite decide_True in Hupd by done.
    apply Hupd. intros m' Hm' Hne. rewrite decide_False; [done|].
    intros Heq. apply Hne.
    by apply (NoDup_fmap_same m_id (select_nested (db w))). }
  unfold select_nested, lessons_of. rewrite Hmods, Hles.
  rewrite <- list_fmap_compose. apply list_fmap_ext. intros _ r _.
  unfold compose. cbn [m_id m_lessons m_name m_position with_lessons].
  rewrite (renumber_filter l_id set_lesson_position) by done.
  destruct (decide (r_id r = m_id m)) as [Heq|Hne].
  - f_equal. rewrite Heq. apply renumbered_lessons_sorted; [done|].
    by rewrite Hperm, Hown.
  - f_equal. f_equal.
    apply (renumber_untouched l_id set_lesson_position); [done..|].
    intros l [Hl_mid Hl_in]%list_elem_of_filter Hin.
    rewrite Hperm, Hown in Hin.
    apply list_elem_of_fmap in Hin
      as (l' & Heq & [Hl'_mid Hl'_in]%list_elem_of_filter).
    apply (NoDup_fmap_same l_id (tbl_lessons (db w))) in Heq;
      [|apply Hok|done..].
    congruence.
Qed.

Lemma X19_witness :
  let r := handleLessonDragEnd (drop_on "lesson-" "l1" "l2") sample_first
             (select_nested sample_store) sample_world in
  m_lessons <$> select_nested (db r.2)
  = [[mkLesson "l2" "Details" (Some "<iframe src='b'></iframe>") 0 "m1";
      mkLesson "l1" "Intro" (Some "<iframe src='a'></iframe>") 1 "m1"];
     [mkLesson "l3" "Outro" None 0 "m2"]].
Proof.
  intros r.
  assert (in_step (select_nested sample_store) sample_world) as Hstep by done.
  assert (sample_first ∈ select_nested sample_store) as Hin.
  { vm_compute. by left. }
  assert (r = (Ok (value_of [] r.1), r.2)) as Hrun by (by vm_compute).
  assert (toasts r.2 = toasts sample_world) as Hquiet by (by vm_compute).
  destruct (X19_lesson_reorder_is_what_a_fetch_returns
              (drop_on "lesson-" "l1" "l2") sample_first
              (select_nested sample_store) (value_of [] r.1) sample_world r.2
              Hstep sample_store_ok Hin Hrun Hquiet)
    as [[_ Heq]|(lessons & _ & _ & Heq)].
  - rewrite Heq. apply (f_equal log) in Heq. vm_compute in Heq. discriminate Heq.
  - by vm_compute.
Defined.

(** ** The read feed *)

Lemma transformedData_as_export modules :
  transformedData modules = read_back <$> exportData modules.
Proof.
  unfold transformedData, exportData.
  induction modules as [|m modules IH]; [done|].
  rewrite !bind_cons, fmap_app, IH. f_equal.
  by rewrite <- list_fmap_compose.
Qed.

(** X20. The edge function answers every request and never writes. To
    [OPTIONS] it answers 200 with the two CORS headers and no body,
    without querying the store. It does not look at the method otherwise:
    any other method gets what [GET] gets. Whatever the method and
    however the store answers, the handler returns a response (it does
    not throw) with status 200 or 500 that carries the CORS headers, and
    the store is left as it was. When the store answers, the body is the
    export of the fetched hierarchy as it would read after an import:
    absent video markup as the empty string, [url] null. *)
Theorem X20_feed_answers_every_request (method : string) (w : World) :
  serve "OPTIONS" w = (Ok (mkResponse 200 corsHeaders BodyNull), w) ∧
  (method ≠ "OPTIONS" → serve method w = serve "GET" w) ∧
  (∃ response,
     (serve method w).1 = Ok response ∧
     (status response = 200 ∨ status response = 500) ∧
     (∀ header, header ∈ corsHeaders → header ∈ headers response)) ∧
  db (serve method w).2 = db w ∧
  toasts (serve method w).2 = toasts w ∧
  (method ≠ "OPTIONS" → head (faults w) ≠ Some true →
   (serve method w).1
   = Ok (mkResponse 200 (corsHeaders ++ [("Content-Type", "application/json")])
           (BodyArray (read_back <$> exportData (select_nested (db w)))))).
Proof.
  split_and!.
  - done.
  - intros Hne%String.eqb_neq. unfold serve. by rewrite Hne.
  - unfold serve. destruct (String.eqb method "OPTIONS").
    + eexists. split_and!; [done|by left|done].
    + unfold try_catch, bind, api_select_modules, request.
      destruct (default false (head (faults w))); eexists;
        (split_and!; [done|by (left + right)|]);
        intros header Hin; apply elem_of_app; by left.
  - apply (reaches_frame id is_query); [|apply footprint_serve].
    by intros r d n ->.
  - unfold serve. destruct (String.eqb method "OPTIONS"); [done|].
    unfold try_catch, bind, api_select_modules, request.
    by destruct (default false (head (faults w))).
  - intros Hne%String.eqb_neq Hup. unfold serve. rewrite Hne.
    unfold try_catch, bind, api_select_modules, request.
    destruct (head (faults w)) as [[]|]; try done;
      cbn; by rewrite transformedData_as_export.
Qed.

Lemma X20_witness :
  (serve "POST" sample_world).1 = (serve "GET" sample_world).1 ∧
  (serve "DELETE" sample_world).1
  = Ok (mkResponse 200 (corsHeaders ++ [("Content-Type", "application/json")])
          (BodyArray (read_back <$> exportData (select_nested sample_store)))).
Proof.
  assert ("POST" ≠ "OPTIONS") as Hpost by done.
  assert ("DELETE" ≠ "OPTIONS") as Hdelete by done.
  assert (head (faults sample_world) ≠ Some true) as Hup by done.
  split.
  - by rewrite (proj1 (proj2 (X20_feed_answers_every_request "POST" sample_world))
                  Hpost).
  - exact (proj2 (proj2 (proj2 (proj2 (proj2
             (X20_feed_answers_every_request "DELETE" sample_world)))))
             Hdelete Hup).
Defined.

(** ** A card rewrites its own module *)

Lemma updateModule_own m lessons (modules : list CModule) :
  m_id <$> updateModule (m_id m) (with_lessons m lessons) modules
    = m_id <$> modules ∧
  (∀ k m', modules !! k = Some m' → m_id m' ≠ m_id m →
           updateModule (m_id m) (with_lessons m lessons) modules !! k = Some m') ∧
  (∀ k m', updateModule (m_id m) (with_lessons m lessons) modules !! k = Some m' →
           m_id m' = m_id m → m' = with_lessons m lessons).
Proof.
  unfold updateModule. split_and!.
  - rewrite <- list_fmap_compose. apply list_fmap_ext. intros _ m' _. cbn.
    by destruct (String.eqb_spec (m_id m') (m_id m)).
  - intros k m' Hk Hne. rewrite list_lookup_fmap, Hk. cbn.
    by rewrite (proj2 (String.eqb_neq _ _) Hne).
  - intros k m' Hk Heq. rewrite list_lookup_fmap in Hk.
    destruct (modules !! k) as [m0|]; [|done]. cbn in Hk.
    destruct (String.eqb_spec (m_id m0) (m_id m)) as [?|Hne]; [congruence|].
    injection Hk as <-. done.
Qed.

(** X21. A module card rewrites its own module and no other. Whatever a
    card's handlers return for the list on screen (after adding, deleting,
    editing or dragging a lesson, with success or not) has the modules
    of the list it was given, identity by identity in the same order;
    every module with another identity is the very module it was; and an
    entry with the card's identity is either as it was or the card's
    module with a new lesson list, name and position kept. *)
Theorem X21_card_rewrites_its_own_module
    (m : CModule) (modules modules' : list CModule) (w : World)
    (newTitle newIframe lessonId : string) (updatedLesson : Lesson)
    (event : DragEndEvent) :
  (addLesson newTitle newIframe m modules w).1 = Ok modules' ∨
  (deleteLesson lessonId m modules w).1 = Ok modules' ∨
  (handleLessonDragEnd event m modules w).1 = Ok modules' ∨
  updateLesson lessonId updatedLesson m modules = modules' →
  m_id <$> modules' = m_id <$> modules ∧
  (∀ k m', modules !! k = Some m' → m_id m' ≠ m_id m → modules' !! k = Some m') ∧
  (∀ k m', modules' !! k = Some m' → m_id m' = m_id m →
           modules !! k = Some m' ∨
           ∃ lessons, m' = with_lessons m lessons).
Proof.
  intros Hrun.
  assert (modules' = modules ∨
          ∃ lessons, modules' = updateModule (m_id m) (with_lessons m lessons) modules)
    as [->|[lessons ->]].
  { destruct Hrun as [Hrun|[Hrun|[Hrun|Hrun]]].
    - unfold addLesson in Hrun. destruct (is_blank newTitle); [left; by injection Hrun|].
      unfold try_catch, bind, api_insert_lessons, request in Hrun.
      destruct (default false (head (faults w))); [left; by injection Hrun|].
      destruct (insert_lessons _ _ _) as [[[|created [|? ?]]|e] [d n]];
        cbn in Hrun; try (left; by injection Hrun).
      right. eexists. by injection Hrun.
    - unfold deleteLesson, try_catch, bind, api_delete_lessons, request in Hrun.
      destruct (default false (head (faults w))); [left; by injection Hrun|].
      cbn in Hrun. right. eexists. by injection Hrun.
    - destruct (handleLessonDragEnd event m modules w) as [res w'] eqn:Heq.
      cbn in Hrun. subst res.
      apply handleLessonDragEnd_Permutation in Heq as [->|(lessons & _ & ->)];
        [by left|right; by eexists].
    - right. eexists. by rewrite <- Hrun. }
  - split_and!; [done|done|]. intros; by left.
  - destruct (updateModule_own m lessons modules) as (Hids & Hother & Hown).
    split_and!; [done..|].
    intros k m' Hk Heq. right. exists lessons. by eapply Hown.
Qed.

Lemma X21_witness :
  let r := deleteLesson "l1" sample_first (select_nested sample_store)
             sample_world in
  m_id <$> value_of [] r.1 = ["m1"; "m2"].
Proof.
  intros r.
  assert (r.1 = Ok (value_of [] r.1)) as Hrun by (by vm_compute).
  destruct (X21_card_rewrites_its_own_module sample_first
              (select_nested sample_store) (value_of [] r.1) sample_world
              "" "" "l1" (mkLesson "" "" None 0 "") (mkDragEndEvent "" None)
              (or_intror (or_introl Hrun))) as [Hids _].
  exact Hids.
Defined.

(** ** Capturing *)

(** X22. A snapshot's card shows the counts of what was captured. After a
    successful capture the list of snapshots has the new one in front,
    under the given name; the same row is in front in the store; and the
    module and lesson counts on its card are those of the "Current" line
    at the time of capture. *)
Theorem X22_captured_counts_are_the_current_counts
    (name : string) (modules : list CModule) (snapshots snapshots' : list Snapshot)
    (w w' : World) :
  is_blank name = false →
  createSnapshot name modules snapshots w = (Ok snapshots', w') →
  succeeded w' →
  ∃ snapshot,
    snapshots' = snapshot :: snapshots ∧
    tbl_snapshots (db w') = snapshot :: tbl_snapshots (db w) ∧
    s_name snapshot = name ∧
    getSnapshotStats snapshot = currentStats modules.
Proof.
  intros Hname Hrun Hsucc. unfold createSnapshot in Hrun. rewrite Hname in Hrun.
  body_ran Hrun Hbody.
  apply bind_inv_Ok in Hbody as (row & w1 & Hins & Hbody).
  apply bind_inv_Ok in Hbody as ([] & w2 & Htoast & [= <- <-]).
  apply request_inv in Hins as (Hexec & _).
  unfold insert_snapshot in Hexec. injection Hexec as <- Hdb _.
  injection Htoast as <-. cbn [db]. rewrite <- Hdb.
  eexists. split_and!; [done..|].
  rewrite getSnapshotStats_counts. unfold currentStats.
  rewrite fold_left_sum. cbn [s_data snapshotData sd_modules from_option id].
  rewrite length_fmap, sum_list_with_fmap. cbn [Nat.add]. f_equal.
  apply sum_list_with_ext. intros m. cbn. by rewrite length_fmap.
Qed.

Lemma X22_witness :
  let r := createSnapshot "before import" (select_nested sample_store) []
             sample_world in
  ∃ snapshot,
    value_of [] r.1 = [snapshot] ∧ getSnapshotStats snapshot = mkStats 2 3.
Proof.
  intros r.
  assert (succeeded r.2) as Hsucc.
  { exists (toast_success "Snapshot created successfully"). by vm_compute. }
  assert (r = (Ok (value_of [] r.1), r.2)) as Hrun by (by vm_compute).
  destruct (X22_captured_counts_are_the_current_counts "before import"
              (select_nested sample_store) [] (value_of [] r.1) sample_world r.2
              eq_refl Hrun Hsucc) as (snapshot & Hlist & _ & _ & Hstats).
  exists snapshot. split; [done|]. rewrite Hstats. by vm_compute.
Defined.

(** ** A bulk replace that runs to the end *)





(** ** The shape of what an import creates *)

Lemma entries_snapshot_indexed entries : ∀ p : nat,
  entries_snapshot (Z.of_nat p) entries
  = imap (λ k entry,
            mkSnapModule entry.1 (Z.of_nat (p + k))
              (Some (imap (λ i item,
                             mkSnapLesson (title item)
                               (Some (or_empty (videoIframe item))) (Z.of_nat i))
                          entry.2)))
         entries.
Proof.
  induction entries as [|[moduleName lessons] entries IH]; intros p; [done|].
  cbn [entries_snapshot]. rewrite imap_cons. cbn [fst snd].
  rewrite Nat.add_0_r. f_equal.
  replace (Z.of_nat p + 1) with (Z.of_nat (S p)) by lia.
  rewrite IH. apply imap_ext. intros k entry _. cbn. do 2 f_equal. lia.
Qed.

Lemma entries_snapshot_indexed_0 entries :
  entries_snapshot 0 entries
  = imap (λ k entry,
            mkSnapModule entry.1 (Z.of_nat k)
              (Some (imap (λ i item,
                             mkSnapLesson (title item)
                               (Some (or_empty (videoIframe item))) (Z.of_nat i))
                          entry.2)))
         entries.
Proof. exact (entries_snapshot_indexed entries 0). Qed.

Lemma fetched_after_import n items snapshots :
  select_nested
    (mkDb (row_of <$> import_created n 0 (group_by_module items))
       (import_created n 0 (group_by_module items) ≫= m_lessons) snapshots)
  = restore_created n (entries_snapshot 0 (group_by_module items)).
Proof.
  rewrite import_created_as_restore.
  destruct (ordinal_restore_ordered (entries_snapshot 0 (group_by_module items)) n
              (entries_snapshot_ordinal (group_by_module items))) as [Hmod Hles].
  by rewrite select_nested_tables by (done || apply restore_created_well_nested).
Qed.

Lemma entries_snapshot_defaulted entries : ∀ position,
  (λ sm, mkSnapModule (sm_name sm) (sm_position sm)
           (Some (default [] (sm_lessons sm))))
  <$> entries_snapshot position entries
  = entries_snapshot position entries.
Proof.
  induction entries as [|[moduleName lessons] entries IH]; intros position; [done|].
  cbn [entries_snapshot]. by rewrite fmap_cons, IH.
Qed.

(** X25. The shape of what an import creates, for any preview data. After
    a successful import the fetched hierarchy, read without identities,
    has one module for each distinct module name of the input, in the
    order in which the names first occur and at positions 0, 1, 2, ...;
    under each module the records of that name in input order at
    positions 0, 1, 2, ..., with their titles and with absent video
    markup stored as the empty string. *)
Theorem X25_import_creates_the_grouped_shape
    (st st' : ImportState) (items : list ImportItem)
    (modules modules' : list CModule) (w w' : World) :
  previewData st = Some items →
  store_ok (db w) →
  processImport st modules w = (Ok (st', modules'), w') →
  succeeded w' →
  snapshotModule <$> select_nested (db w') = imported_shape items.
Proof.
  intros Hitems Hok Hrun Hsucc.
  destruct (processImport_inv _ _ _ _ _ _ _ Hitems Hok Hrun Hsucc) as [-> _].
  rewrite fetched_after_import, restore_created_snapshot.
  rewrite entries_snapshot_defaulted.
  rewrite entries_snapshot_indexed_0.
  rewrite <- previewCards_grouping. unfold previewCards, imported_shape.
  by rewrite imap_fmap.
Qed.

Lemma X25_witness :
  let r := processImport (import_state sample_batch) [] sample_world in
  snapshotModule <$> select_nested (db r.2)
  = [mkSnapModule "M1" 0
       (Some [mkSnapLesson "L1" (Some "") 0; mkSnapLesson "L3" (Some "") 1]);
     mkSnapModule "M2" 1 (Some [mkSnapLesson "L2" (Some "") 0])].
Proof.
  intros r.
  assert (succeeded r.2) as Hsucc.
  { exists (toast_success "Imported 2 modules with 3 lessons"). by vm_compute. }
  assert (r = (Ok ((value_of (import_state sample_batch, []) r.1).1,
                   (value_of (import_state sample_batch, []) r.1).2), r.2)) as Hrun
    by (by vm_compute).
  rewrite (X25_import_creates_the_grouped_shape (import_state sample_batch) _
             sample_batch [] _ sample_world r.2 eq_refl sample_store_ok Hrun Hsucc).
  by vm_compute.
Defined.

(** ** What an export leaves out *)

Lemma Set_add_again value set : Set_add value (Set_add value set) = Set_add value set.
Proof.
  unfold Set_add. destruct (bool_decide (value ∈ set)) eqn:Hin.
  - by rewrite Hin.
  - rewrite bool_decide_eq_true_2; [done|].
    apply elem_of_app. right. by left.
Qed.

Lemma Set_add_replicate (k : nat) value set :
  fold_left (λ set value, Set_add value set) (replicate k value) set
  = match k with O => set | S _ => Set_add value set end.
Proof.
  revert set. induction k as [|k IH]; intros set; [done|].
  cbn [replicate fold_left]. rewrite IH.
  destruct k; [done|]. apply Set_add_again.
Qed.

Lemma exported_names (modules : list CModule) :
  new_Set (module <$> exportData modules)
  = new_Set (m_name <$> filter (λ m, m_lessons m ≠ []) modules).
Proof.
  induction modules as [|m modules IH] using rev_ind; [done|].
  unfold exportData in *. rewrite bind_app, fmap_app, filter_app.
  unfold new_Set in *. rewrite fold_left_app, IH.
  rewrite bind_cons. cbn [mbind list_bind]. rewrite app_nil_r.
  rewrite <- list_fmap_compose.
  rewrite (const_fmap _ (m_lessons m) (m_name m)) by done.
  rewrite Set_add_replicate.
  rewrite filter_cons, filter_nil.
  destruct (m_lessons m) as [|l lessons]; cbn [length].
  - rewrite decide_False by (by intros []). by rewrite app_nil_r.
  - rewrite decide_True by done. by rewrite fmap_app, fold_left_app.
Qed.

(** X26. What an export followed by an import keeps of the modules. The
    export file has a record for each lesson and nothing for a module, so
    after a successful import of the exported records the modules fetched
    are, by name and in order, the distinct names of the modules that had
    lessons: a module without lessons is gone, modules of the same name
    have become one, and every module then has at least one lesson. *)
Theorem X26_round_trip_keeps_modules_that_have_lessons
    (st st' : ImportState) (exported modules modules' : list CModule)
    (w w' : World) :
  previewData st = Some (exportData exported) →
  store_ok (db w) →
  processImport st modules w = (Ok (st', modules'), w') →
  succeeded w' →
  m_name <$> select_nested (db w')
    = new_Set (m_name <$> filter (λ m, m_lessons m ≠ []) exported) ∧
  Forall (λ m, m_lessons m ≠ []) (select_nested (db w')).
Proof.
  intros Hitems Hok Hrun Hsucc.
  destruct (processImport_inv _ _ _ _ _ _ _ Hitems Hok Hrun Hsucc) as [-> _].
  rewrite fetched_after_import. split.
  - rewrite restore_created_captured_names, entries_snapshot_names.
    by rewrite group_by_module_names, exported_names.
  - apply Forall_forall. intros m Hm Hnil.
    apply (list_elem_of_fmap_2 snapshotModule) in Hm.
    rewrite restore_created_snapshot, entries_snapshot_defaulted in Hm.
    rewrite entries_snapshot_indexed_0 in Hm.
    apply elem_of_lookup_imap in Hm as (k & [name lessons] & Heq & Hk).
    pose proof (group_by_module_nonempty (exportData exported)) as Hall.
    rewrite Forall_forall in Hall.
    apply (Hall (name, lessons)); [by eapply list_elem_of_lookup_2|].
    cbn. apply (f_equal sm_lessons) in Heq. cbn in Heq. rewrite Hnil in Heq.
    injection Heq as Heq. symmetry in Heq.
    by destruct lessons.
Qed.

Lemma X26_witness :
  let exported := [sample_module "A" 0; sample_first; sample_module "C" 2] in
  let r := processImport (import_state (exportData exported)) exported
             sample_world in
  m_name <$> select_nested (db r.2) = ["First"].
Proof.
  intros exported r.
  assert (succeeded r.2) as Hsucc.
  { exists (toast_success "Imported 1 modules with 2 lessons"). by vm_compute. }
  assert (r = (Ok ((value_of (import_state [], []) r.1).1,
                   (value_of (import_state [], []) r.1).2), r.2)) as Hrun
    by (by vm_compute).
  rewrite (proj1 (X26_round_trip_keeps_modules_that_have_lessons
                    (import_state (exportData exported)) _ exported exported _
                    sample_world r.2 eq_refl sample_store_ok Hrun Hsucc)).
  by vm_compute.
Defined.

(** ** What a fetch puts on screen *)

Lemma select_nested_all_lessons d :
  store_ok d → select_nested d ≫= m_lessons ≡ₚ tbl_lessons d.
Proof.
  intros Hok.
  pose proof (select_nested_ids _ (ok_module_ids _ Hok)) as Hids.
  pose proof (select_nested_lessons d) as Hall. rewrite Forall_forall in Hall.
  pose proof (NoDup_fmap_1 _ _ (ok_lesson_ids _ Hok)) as Hlessons.
  apply list.NoDup_Permutation.
  - apply NoDup_bind.
    + intros m1 m2 l Hm1 Hm2 Hl1 Hl2.
      destruct (select_nested_lesson_in _ _ _ Hm1 Hl1) as [_ Hown1].
      destruct (select_nested_lesson_in _ _ _ Hm2 Hl2) as [_ Hown2].
      apply (NoDup_fmap_same m_id (select_nested d)); [done..|congruence].
    + intros m Hm. destruct (Hall m Hm) as [_ ->].
      unfold lessons_of. by apply NoDup_filter.
    + by eapply NoDup_fmap_1.
  - exact Hlessons.
  - intros l. rewrite list_elem_of_bind. split.
    + intros (m & Hl & Hm). by destruct (select_nested_lesson_in _ _ _ Hm Hl).
    + intros Hl.
      pose proof (ok_foreign_key _ Hok l Hl) as Hfk.
      unfold module_ids in Hfk.
      rewrite <- select_nested_rows, <- list_fmap_compose in Hfk.
      apply list_elem_of_fmap in Hfk as (m & Heq & Hm).
      exists m. split; [|done].
      destruct (Hall m Hm) as [_ ->]. unfold lessons_of.
      apply list_elem_of_filter. by split.
Qed.

(** X27. What a fetch puts on screen. When the store answers, the list is
    the modules of the store, each once, in ascending position, each with
    exactly the lessons that point to it, in ascending position; in a
    well-formed store every lesson is on screen exactly once. When the
    store refuses, the list on screen stays as it is and the error
    notification is shown. Either way one query is issued and the store
    is not changed. *)
Theorem X27_fetch_shows_the_store_in_position_order
    (modules : list CModule) (w : World) :
  (head (faults w) ≠ Some true →
   ∃ fetched,
     (fetchModules modules w).1 = Ok fetched ∧
     in_step fetched (fetchModules modules w).2 ∧
     toasts (fetchModules modules w).2 = toasts w ∧
     row_of <$> fetched ≡ₚ tbl_modules (db w) ∧
     ordered_by m_position fetched ∧
     Forall (λ m, ordered_by l_position (m_lessons m) ∧
                  m_lessons m ≡ₚ lessons_of (db w) (m_id m)) fetched ∧
     (store_ok (db w) → fetched ≫= m_lessons ≡ₚ tbl_lessons (db w))) ∧
  (head (faults w) = Some true →
   (fetchModules modules w).1 = Ok modules ∧
   toasts (fetchModules modules w).2
   = toasts w ++ [toast_error "Failed to fetch modules"]) ∧
  db (fetchModules modules w).2 = db w ∧
  log (fetchModules modules w).2 = log w ++ [SelectModules].
Proof.
  rewrite fetchModules_run. cbn [fst snd db log toasts]. split_and!; [| |done..].
  - intros Hup.
    assert (default false (head (faults w)) = false) as ->
      by (destruct (head (faults w)) as [[]|]; done).
    exists (select_nested (db w)).
    split_and!; [done|done|by rewrite app_nil_r|..].
    + apply select_nested_rows.
    + apply select_nested_ordered.
    + apply select_nested_lessons.
    + apply select_nested_all_lessons.
  - by intros ->.
Qed.

Lemma X27_witness :
  (fetchModules [] sample_world).1
  = Ok [sample_first; mkModule "m2" "Second" 1 [mkLesson "l3" "Outro" None 0 "m2"]] ∧
  (fetchModules [sample_first] sample_world_down).1 = Ok [sample_first].
Proof.
  split; [by vm_compute|].
  exact (proj1 (proj1 (proj2 (X27_fetch_shows_the_store_in_position_order
                                [sample_first] sample_world_down)) eq_refl)).
Defined.

(** ** The shape of what a restore creates *)

(** X28. The shape of what a restore creates, for any snapshot. After a
    successful restore the store, read in table order and without
    identities, is the snapshot's list of modules: the same names, the
    stored positions, and under each module its stored lessons with
    their titles, video markup and positions, in the stored order. A
    module stored without lessons is there without lessons, and modules
    of the same name stay apart, unlike after an import. *)
Theorem X28_restore_creates_the_stored_hierarchy
    (snapshot : Snapshot) (modules modules' : list CModule) (w w' : World) :
  store_ok (db w) →
  restoreSnapshot snapshot modules w = (Ok modules', w') →
  succeeded w' →
  snapshotModule <$> nested (db w')
  = (λ sm, mkSnapModule (sm_name sm) (sm_position sm)
             (Some (default [] (sm_lessons sm))))
    <$> default [] (sd_modules (s_data snapshot)).
Proof.
  intros Hok Hrun Hsucc.
  destruct (restoreSnapshot_inv _ _ _ _ _ Hok Hrun Hsucc) as [-> _].
  rewrite nested_tables by apply restore_created_well_nested.
  apply restore_created_snapshot.
Qed.

Lemma X28_witness :
  let snapshot :=
    mkSnapshot "s3" "twins"
      (mkSnapshotData
         (Some [mkSnapModule "Basics" 4 (Some [mkSnapLesson "Intro" None 7]);
                mkSnapModule "Empty" 2 None;
                mkSnapModule "Basics" 4 (Some [])])) in
  let r := restoreSnapshot snapshot [] sample_world in
  snapshotModule <$> nested (db r.2)
  = [mkSnapModule "Basics" 4 (Some [mkSnapLesson "Intro" None 7]);
     mkSnapModule "Empty" 2 (Some []);
     mkSnapModule "Basics" 4 (Some [])].
Proof.
  intros snapshot r.
  assert (succeeded r.2) as Hsucc.
  { exists (toast_success "Snapshot restored successfully"). by vm_compute. }
  assert (r = (Ok (value_of [] r.1), r.2)) as Hrun by (by vm_compute).
  exact (X28_restore_creates_the_stored_hierarchy snapshot [] (value_of [] r.1)
           sample_world r.2 sample_store_ok Hrun Hsucc).
Defined.
